(** * Reconciliation of active instances (active_instances.py)

    A shallow embedding of the function [active_instances] of
    [src/active_instances.py] and the properties of its join of the three
    fetched reports (hypervisor, instance, project).

    Conventions of the embedding.
    - A fetched record is a Python [dict] with string keys: [gmap string value].
    - The values that the reporting service returns in the fields the code
      inspects are [None], integers and strings.
    - The function has three kinds of effect: it writes to the logger, it
      stops the process ([sys.exit(1)]) or dies on an uncaught exception, and
      it assigns to fields of the fetched instance dicts. The monad [M]
      carries the three: a log that is appended to, an outcome, and the store
      of the instance objects (the fetched instance list, an object being
      addressed by its position in that list).
    - Where Python versions differ the embedding follows CPython 3.7 and
      later: a [dict] iterates in insertion order and [<] between values of
      different kinds raises [TypeError]. *)

From Stdlib Require Import ZArith Ascii String List Lia OrderedTypeEx.
From stdpp Require Import base option list gmap strings fin_maps.

Open Scope string_scope.
Open Scope Z_scope.
Open Scope list_scope.

(** ** Values and records *)

Inductive value :=
  | VNone
  | VInt (z : Z)
  | VStr (s : string).

#[global] Instance value_eq_dec : EqDecision value.
Proof. solve_decision. Defined.

Definition value_encode (v : value) : unit + (Z + string) :=
  match v with
  | VNone => inl tt
  | VInt z => inr (inl z)
  | VStr s => inr (inr s)
  end.

Definition value_decode (x : unit + (Z + string)) : value :=
  match x with
  | inl _ => VNone
  | inr (inl z) => VInt z
  | inr (inr s) => VStr s
  end.

#[global] Instance value_countable : Countable value.
Proof.
  refine (inj_countable' value_encode value_decode _).
  intros []; reflexivity.
Defined.

(** A fetched record: one row of a report. *)
Abbreviation row := (gmap string value).

(** Python truth value of a field: [None], [0] and [''] are false. *)
Definition truthy (v : value) : bool :=
  match v with
  | VNone => false
  | VInt z => negb (z =? 0)
  | VStr s => negb (String.eqb s "")
  end.

(** [s.split('.')[0]]: the text of [s] before its first ['.']. *)
Fixpoint before_dot (s : string) : string :=
  match s with
  | EmptyString => EmptyString
  | String c r => if Ascii.eqb c "."%char then EmptyString else String c (before_dot r)
  end.

(** ** Insertion-ordered dictionaries

    [instance_hypervisor] and [instance_by_id] are iterated, so their order
    of enumeration is part of the behaviour: an association list in insertion
    order, in which an assignment to a key already present replaces the value
    where it stands. *)

Module PyDict.
Section defs.
Context {K V : Type} `{EqDecision K}.

Definition t := list (K * V).

Definition empty : t := [].

Fixpoint get (k : K) (d : t) : option V :=
  match d with
  | [] => None
  | (k', v) :: r => if decide (k = k') then Some v else get k r
  end.

Fixpoint set (k : K) (v : V) (d : t) : t :=
  match d with
  | [] => [(k, v)]
  | (k', v') :: r =>
      if decide (k = k') then (k, v) :: r else (k', v') :: set k v r
  end.

Definition keys (d : t) : list K := d.*1.
Definition values (d : t) : list V := d.*2.
End defs.
Arguments t : clear implicits.
End PyDict.

(** ** Effects *)

Inductive exn :=
  | KeyError (k : value)
  | AttributeError
  | TypeError
  | DanglingReference.

Inductive outcome (A : Type) :=
  | Done (a : A)
  | Exit (code : Z)
  | Raised (e : exn).
Arguments Done {A} a.
Arguments Exit {A} code.
Arguments Raised {A} e.

Inductive level := DEBUG | WARNING | ERROR.

Inductive message :=
  | NoAvailabilityZone (hid : value)
  | CheckedHypervisorAZ
  | DuplicateShortNames (short_name : string) (old_id new_id : value)
  | NoHypervisor (iid : value)
  | UndeterminedHypervisor (iid : value)
  | InvalidProjectId (iid pid : value)
  | CheckedInstanceHypervisors.

Definition log_entry : Type := level * message.

#[global] Instance level_eq_dec : EqDecision level.
Proof. solve_decision. Defined.
#[global] Instance message_eq_dec : EqDecision message.
Proof. solve_decision. Defined.

(** The store of instance objects. *)
Abbreviation store := (list row).

Record result (A : Type) := Result {
  res_outcome : outcome A;
  res_store : store;
  res_log : list log_entry
}.
Arguments Result {A} _ _ _.
Arguments res_outcome {A} _.
Arguments res_store {A} _.
Arguments res_log {A} _.

Definition M (A : Type) : Type := store -> result A.

Definition ret {A} (a : A) : M A := fun st => Result (Done a) st [].

Definition bind {A B} (m : M A) (f : A -> M B) : M B := fun st =>
  match m st with
  | Result (Done a) st1 l1 =>
      match f a st1 with
      | Result o st2 l2 => Result o st2 (l1 ++ l2)
      end
  | Result (Exit c) st1 l1 => Result (Exit c) st1 l1
  | Result (Raised e) st1 l1 => Result (Raised e) st1 l1
  end.

Declare Scope py_scope.
Delimit Scope py_scope with py.
Notation "x <- c1 ;; c2" := (bind c1 (fun x => c2))
  (at level 100, c1 at next level, c2 at level 200, right associativity) : py_scope.
Notation "c1 ;; c2" := (bind c1 (fun _ => c2))
  (at level 100, c2 at level 200, right associativity) : py_scope.
Open Scope py_scope.

Definition raise {A} (e : exn) : M A := fun st => Result (Raised e) st [].
Definition sys_exit {A} (code : Z) : M A := fun st => Result (Exit code) st [].
Definition logger (lv : level) (m : message) : M unit :=
  fun st => Result (Done tt) st [(lv, m)].

(** [d[k]] on a record. *)
Definition getitem (d : row) (k : string) : M value :=
  match d !! k with
  | Some v => ret v
  | None => raise (KeyError (VStr k))
  end.

(** [v.split('.')[0]]: only strings have the method. *)
Definition split_dot_0 (v : value) : M string :=
  match v with
  | VStr s => ret (before_dot s)
  | _ => raise AttributeError
  end.

(** [a < b] *)
Definition py_lt (a b : value) : M bool :=
  match a, b with
  | VInt x, VInt y => ret (x <? y)
  | VStr x, VStr y => ret (String.ltb x y)
  | _, _ => raise TypeError
  end.

(** The object behind a reference, and assignment to one of its fields. *)
Definition deref (n : nat) : M row := fun st =>
  match st !! n with
  | Some r => Result (Done r) st []
  | None => Result (Raised DanglingReference) st []
  end.

Definition setitem (n : nat) (k : string) (v : value) : M unit := fun st =>
  match st !! n with
  | Some r => Result (Done tt) (<[n := <[k := v]> r]> st) []
  | None => Result (Raised DanglingReference) st []
  end.

Fixpoint for_each {X} (body : X -> M unit) (xs : list X) : M unit :=
  match xs with
  | [] => ret tt
  | x :: r => body x ;; for_each body r
  end.

Fixpoint fold_each {X S} (body : S -> X -> M S) (s : S) (xs : list X) : M S :=
  match xs with
  | [] => ret s
  | x :: r => s' <- body s x ;; fold_each body s' r
  end.

(** [i[k]] on an instance object. *)
Definition load (n : nat) (k : string) : M value :=
  i <- deref n ;; getitem i k.

(** ** The program *)

(** Lines 39-42: one turn of the loop that checks the availability zones. *)
Definition check_availability_zone (h : row) : M unit :=
  az <- getitem h "availability_zone" ;;
  if negb (truthy az) then
    hid <- getitem h "id" ;;
    logger ERROR (NoAvailabilityZone hid) ;;
    sys_exit 1
  else ret tt.

(** Lines 49-59: one turn of the loop that fills [hyp_short]. *)
Definition add_hyp_short (hyp_short : gmap string row) (h : row)
  : M (gmap string row) :=
  hostname <- getitem h "hostname" ;;
  short_name <- split_dot_0 hostname ;;
  match hyp_short !! short_name with
  | Some seen =>
      old_id <- getitem seen "id" ;;
      new_id <- getitem h "id" ;;
      logger WARNING (DuplicateShortNames short_name old_id new_id) ;;
      new_seen <- getitem h "last_seen" ;;
      old_seen <- getitem seen "last_seen" ;;
      older <- py_lt new_seen old_seen ;;
      if older then ret hyp_short
      else ret (<[short_name := h]> hyp_short)
  | None => ret (<[short_name := h]> hyp_short)
  end.

(** Line 62: one entry of the dict comprehension. *)
Definition add_project (project_by_id : gmap value row) (p : row)
  : M (gmap value row) :=
  pid <- getitem p "id" ;;
  ret (<[pid := p]> project_by_id).

(** The two dicts keyed by instance id that the join fills. *)
Record joined := Joined {
  instance_hypervisor : PyDict.t value row;
  instance_by_id : PyDict.t value nat
}.

(** Lines 65-78: one turn of the loop over the instances; [i] is the
    reference to the instance object. *)
Definition join_instance (hyp_short : gmap string row)
    (project_by_id : gmap value row) (j : joined) (i : nat) : M joined :=
  hyp <- load i "hypervisor" ;;
  match hyp with
  | VNone =>
      iid <- load i "id" ;;
      logger WARNING (NoHypervisor iid) ;;
      ret j
  | _ =>
      hyp' <- load i "hypervisor" ;;
      short_name <- split_dot_0 hyp' ;;
      match hyp_short !! short_name with
      | None =>
          iid <- load i "id" ;;
          logger ERROR (UndeterminedHypervisor iid) ;;
          sys_exit 1
      | Some h =>
          pid <- load i "project_id" ;;
          match project_by_id !! pid with
          | None =>
              iid <- load i "id" ;;
              pid' <- load i "project_id" ;;
              logger WARNING (InvalidProjectId iid pid') ;;
              ret j
          | Some _ =>
              iid <- load i "id" ;;
              iid' <- load i "id" ;;
              ret (Joined (PyDict.set iid h (instance_hypervisor j))
                          (PyDict.set iid' i (instance_by_id j)))
          end
      end
  end.

(** Lines 84-92: one turn of the loop that decorates the instances. *)
Definition enrich (project_by_id : gmap value row) (j : joined) (iid : value)
  : M unit :=
  match PyDict.get iid (instance_by_id j) with
  | None => raise (KeyError iid)
  | Some i =>
      old_az <- load i "availability_zone" ;;
      match PyDict.get iid (instance_hypervisor j) with
      | None => raise (KeyError iid)
      | Some h =>
          new_az <- getitem h "availability_zone" ;;
          setitem i "availability_zone" new_az ;;
          pid <- load i "project_id" ;;
          match project_by_id !! pid with
          | None => raise (KeyError pid)
          | Some p =>
              name <- getitem p "display_name" ;;
              setitem i "project_display_name" name
          end
      end
  end.

(** The body of [active_instances], after the three fetches; the fetched
    instance objects are the store it runs on. The references it returns are
    those the generator of line 94 enumerates. *)
Definition reconcile (hypervisor project : list row) (instance : list nat)
  : M (list nat) :=
  for_each check_availability_zone hypervisor ;;
  logger DEBUG CheckedHypervisorAZ ;;
  hyp_short <- fold_each add_hyp_short ∅ hypervisor ;;
  project_by_id <- fold_each add_project ∅ project ;;
  j <- fold_each (join_instance hyp_short project_by_id)
         (Joined PyDict.empty PyDict.empty) instance ;;
  logger DEBUG CheckedInstanceHypervisors ;;
  for_each (enrich project_by_id j) (PyDict.keys (instance_hypervisor j)) ;;
  ret (PyDict.values (instance_by_id j)).

(** [active_instances] on the three fetched reports: the list [instance] is
    both the sequence the join walks and the store of the objects in it. *)
Definition active_instances (hypervisor instance project : list row)
  : result (list nat) :=
  reconcile hypervisor project (seq 0 (length instance)) instance.

(** The records a consumer of the returned generator receives. *)
Definition yielded (r : result (list nat)) : list row :=
  match res_outcome r with
  | Done refs => omap (fun i => res_store r !! i) refs
  | _ => []
  end.

(** *** The scenarios of the specification, run on the embedding *)

Definition mk_hypervisor (id : Z) (hostname az : string) (last_seen : Z) : row :=
  <["id" := VInt id]> (<["hostname" := VStr hostname]>
  (<["availability_zone" := VStr az]> (<["last_seen" := VInt last_seen]> ∅))).

Definition mk_instance (id : string) (hyp : value) (pid az : string) : row :=
  <["id" := VStr id]> (<["hypervisor" := hyp]>
  (<["project_id" := VStr pid]> (<["availability_zone" := VStr az]> ∅))).

Definition mk_project (id name : string) : row :=
  <["id" := VStr id]> (<["display_name" := VStr name]> ∅).

(** ** Well-formed reports

    The reports are sequences of records with the fields of their table; the
    code reads a field with [d[k]], which raises [KeyError] on a record that
    lacks it. *)

Definition has_fields (ks : list string) (r : row) : Prop :=
  Forall (fun k => is_Some (r !! k)) ks.

#[global] Instance has_fields_dec ks r : Decision (has_fields ks r).
Proof. unfold has_fields. apply _. Defined.

(** The availability zone of a hypervisor record is usable: present and
    true as a condition. *)
Definition az_defined (h : row) : Prop :=
  exists az, h !! "availability_zone" = Some az /\ truthy az = true.

(** The field is there but [None], empty (or zero). *)
Definition az_blank (h : row) : Prop :=
  exists az, h !! "availability_zone" = Some az /\ truthy az = false.


Definition is_str (v : option value) : bool :=
  match v with Some (VStr _) => true | _ => false end.

Definition is_int (v : option value) : bool :=
  match v with Some (VInt _) => true | _ => false end.

(** A hypervisor record with the fields of its report: [id], a [hostname]
    that is a string, [availability_zone] and [last_seen]. *)
Definition wf_hypervisor (h : row) : bool :=
  bool_decide (has_fields ["id"; "availability_zone"; "last_seen"] h)
  && is_str (h !! "hostname").

(** The timestamps of a report can be compared with one another: all of
    them integers, or all of them strings. *)
Definition timestamps_comparable (hs : list row) : bool :=
  forallb (fun h => is_int (h !! "last_seen")) hs
  || forallb (fun h => is_str (h !! "last_seen")) hs.

(** The order [<] on two values of one kind. *)
Definition value_ltb (a b : value) : bool :=
  match a, b with
  | VInt x, VInt y => x <? y
  | VStr x, VStr y => String.ltb x y
  | _, _ => false
  end.

(** [h['last_seen'] < w['last_seen']] for two records that have the field. *)
Definition older (h w : row) : bool :=
  match h !! "last_seen", w !! "last_seen" with
  | Some a, Some b => value_ltb a b
  | _, _ => false
  end.

(** The short name of a hypervisor record. *)
Definition short_name_of (h : row) : option string :=
  match h !! "hostname" with
  | Some (VStr name) => Some (before_dot name)
  | _ => None
  end.

(** The table [hyp_short] that lines 48-59 build from a report, and the
    warnings they log. *)
Definition build_hyp_short (hypervisor : list row) : result (gmap string row) :=
  fold_each add_hyp_short ∅ hypervisor [].

(** The table [project_by_id] of line 62. *)
Definition build_project_by_id (project : list row) : result (gmap value row) :=
  fold_each add_project ∅ project [].

(** A computation that neither reads nor writes the store of instances. *)
Definition pure {A} (m : M A) : Prop :=
  forall st, m st = Result (res_outcome (m [])) st (res_log (m [])).

(** Two values that [<] accepts together. *)
Definition comparable (a b : value) : bool :=
  match a, b with
  | VInt _, VInt _ | VStr _, VStr _ => true
  | _, _ => false
  end.

(** [hyp_short] resolves the report [hs]: a short name that no record
    carries is absent; one that some record carries is bound to a record [w]
    of the report with that short name such that no record with the same short
    name was seen later than [w], and those that stand after [w] in the report
    were seen strictly earlier. *)
Definition resolves (hs : list row) (hyp_short : gmap string row) : Prop :=
  forall s,
    match hyp_short !! s with
    | None => forall h, h ∈ hs -> short_name_of h <> Some s
    | Some w =>
        exists k, hs !! k = Some w /\ short_name_of w = Some s /\
          forall j h, hs !! j = Some h -> short_name_of h = Some s ->
            older w h = false /\ ((k < j)%nat -> older h w = true)
    end.

(** ** What the join finds in an instance record

    [hyp_short] and [project_by_id] are the two tables of the run. *)

(** The hypervisor reference is null (line 66). *)
Definition without_hypervisor (i : row) : Prop :=
  i !! "hypervisor" = Some VNone.

(** The reference is not null but its short name is not in [hyp_short]
    (line 70). *)
Definition unresolved (hyp_short : gmap string row) (i : row) : Prop :=
  exists name, i !! "hypervisor" = Some (VStr name) /\
               hyp_short !! before_dot name = None.

(** The reference resolves but [project_id] is not a key of [project_by_id]
    (line 73). *)
Definition invalid_project (hyp_short : gmap string row)
    (project_by_id : gmap value row) (i : row) (pid : value) : Prop :=
  exists name, i !! "hypervisor" = Some (VStr name) /\
               is_Some (hyp_short !! before_dot name) /\
               i !! "project_id" = Some pid /\ project_by_id !! pid = None.

(** The record with identifier [iid] passes the three checks: it resolves to
    the hypervisor record [h] and to the project record [p] (lines 77-78). *)
Definition retained (hyp_short : gmap string row)
    (project_by_id : gmap value row) (i : row) (iid : value) (h p : row) : Prop :=
  exists name pid, i !! "hypervisor" = Some (VStr name) /\
                   hyp_short !! before_dot name = Some h /\
                   i !! "project_id" = Some pid /\
                   project_by_id !! pid = Some p /\
                   i !! "id" = Some iid.

(** What the turn of the join loop for the instance [n] writes to the log. *)
Definition turn_log (hyp_short : gmap string row)
    (project_by_id : gmap value row) (st : store) (n : nat) : list log_entry :=
  res_log (join_instance hyp_short project_by_id
             (Joined PyDict.empty PyDict.empty) n st).

(** The log entry is about the instance with identifier [iid]. *)
Definition about_instance (iid : value) (e : log_entry) : bool :=
  match e.2 with
  | NoHypervisor x | UndeterminedHypervisor x | InvalidProjectId x _ =>
      bool_decide (x = iid)
  | _ => false
  end.

(** The state of the two dicts after the turns for the instances
    [0 .. k-1], none of which stopped the run: they have the same keys in the
    same order; a key [iid] is bound to a retained record with that
    identifier and to the hypervisor it resolves to; and a retained record
    with identifier [iid] stands at or before the record bound to [iid]. *)
Definition joined_upto (hyp_short : gmap string row)
    (project_by_id : gmap value row) (st : store) (k : nat) (j : joined) : Prop :=
  PyDict.keys (instance_hypervisor j) = PyDict.keys (instance_by_id j) /\
  NoDup (PyDict.keys (instance_by_id j)) /\
  (forall iid n, PyDict.get iid (instance_by_id j) = Some n ->
     (n < k)%nat /\
     exists i h p, st !! n = Some i /\
       retained hyp_short project_by_id i iid h p /\
       PyDict.get iid (instance_hypervisor j) = Some h) /\
  (forall n i iid h p, (n < k)%nat -> st !! n = Some i ->
     retained hyp_short project_by_id i iid h p ->
     exists m, PyDict.get iid (instance_by_id j) = Some m /\ (n <= m)%nat).

(** ** What the decoration does to an instance record

    Lines 86-92 on the record [i] of an instance that resolved to the
    hypervisor record [h]: the outcome and the record as it is left. The
    first assignment has taken place when a later lookup fails. *)
Definition decorate (project_by_id : gmap value row) (h i : row)
  : outcome unit * row :=
  match i !! "availability_zone" with
  | None => (Raised (KeyError (VStr "availability_zone")), i)
  | Some old_az =>
      match h !! "availability_zone" with
      | None => (Raised (KeyError (VStr "availability_zone")), i)
      | Some new_az =>
          let i1 := <["availability_zone" := new_az]> i in
          match i1 !! "project_id" with
          | None => (Raised (KeyError (VStr "project_id")), i1)
          | Some pid =>
              match project_by_id !! pid with
              | None => (Raised (KeyError pid), i1)
              | Some p =>
                  match p !! "display_name" with
                  | None => (Raised (KeyError (VStr "display_name")), i1)
                  | Some name =>
                      (Done tt, <["project_display_name" := name]> i1)
                  end
              end
          end
      end
  end.

(** A step that rewrites the object [n] of the store and nothing else. *)
Definition update_object (n : nat) (upd : row -> outcome unit * row) : M unit :=
  fun st =>
    match st !! n with
    | Some i => Result (upd i).1 (<[n := (upd i).2]> st) []
    | None => Result (Raised DanglingReference) st []
    end.

(** The object and the hypervisor record bound to an identifier in the two
    dicts of the join. *)
Definition ref_of (j : joined) (iid : value) : nat :=
  default 0%nat (PyDict.get iid (instance_by_id j)).

Definition hypervisor_of (j : joined) (iid : value) : row :=
  default ∅ (PyDict.get iid (instance_hypervisor j)).

(** The decoration writes these two fields and no other. *)
Definition same_but_decoration (i i' : row) : Prop :=
  forall k, k <> "availability_zone" -> k <> "project_display_name" ->
            i' !! k = i !! k.

(** Running the computation again on the store it left gives what the first
    run gave: same outcome, same store, same log. *)
Definition idempotent_run {A} (m : M A) : Prop :=
  forall st, m (res_store (m st)) = m st.

(** Lines 65-94 of the run, once the two tables are there. *)
Definition join_and_decorate (hyp_short : gmap string row)
    (project_by_id : gmap value row) (instance : list nat) : M (list nat) :=
  j <- fold_each (join_instance hyp_short project_by_id)
         (Joined PyDict.empty PyDict.empty) instance ;;
  logger DEBUG CheckedInstanceHypervisors ;;
  for_each (enrich project_by_id j) (PyDict.keys (instance_hypervisor j)) ;;
  ret (PyDict.values (instance_by_id j)).

(** The run neither creates nor drops an instance object. *)
Definition keeps_length {A} (m : M A) : Prop :=
  forall st, length (res_store (m st)) = length st.

#[global] Instance az_defined_dec h : Decision (az_defined h).
Proof.
  unfold az_defined.
  destruct (h !! "availability_zone") as [az|];
    [destruct (truthy az) eqn:T|].
  - left. by exists az.
  - right. intros (az' & [= <-] & ?). congruence.
  - right. by intros (az' & [=] & ?).
Defined.

#[global] Instance az_blank_dec h : Decision (az_blank h).
Proof.
  unfold az_blank.
  destruct (h !! "availability_zone") as [az|];
    [destruct (truthy az) eqn:T|].
  - right. intros (az' & [= <-] & ?). congruence.
  - left. by exists az.
  - right. by intros (az' & [=] & ?).
Defined.

(** An instance record with the fields of its report: [id], [project_id]
    and a [hypervisor] that is null or a string. *)
Definition wf_instance (i : row) : bool :=
  bool_decide (has_fields ["id"; "project_id"] i)
  && (is_str (i !! "hypervisor")
      || bool_decide (i !! "hypervisor" = Some VNone)).

#[global] Instance without_hypervisor_dec i : Decision (without_hypervisor i).
Proof. unfold without_hypervisor. apply _. Defined.

#[global] Instance unresolved_dec hyp_short i : Decision (unresolved hyp_short i).
Proof.
  unfold unresolved.
  destruct (i !! "hypervisor") as [[| |name]|];
    try (right; by intros (? & [=] & _)).
  destruct (hyp_short !! before_dot name) as [h|] eqn:E.
  - right. intros (? & [= <-] & ?). congruence.
  - left. by exists name.
Defined.

(** *** The scenarios of the specification *)

Definition H1 : row := mk_hypervisor 1 "a.example.com" "az1" 100.
Definition H2 : row := mk_hypervisor 2 "a.example.com" "az2" 200.
Definition H3 : row := mk_hypervisor 3 "b.example.com" "" 50.
Definition I1 : row := mk_instance "I1" VNone "P1" "az0".
Definition I2 : row := mk_instance "I2" (VStr "a.example.com") "UNKNOWN" "az0".
Definition I3 : row := mk_instance "I3" (VStr "unknown.example.com") "P1" "az0".
Definition I4 : row := mk_instance "I4" (VStr "a.example.com") "P1" "stale-az".
Definition P1 : row := mk_project "P1" "Team Alpha".

(** Two hypervisors with one short name, seen at the same time. *)
Definition T1 : row := mk_hypervisor 1 "a.example.com" "az1" 100.
Definition T2 : row := mk_hypervisor 2 "a.example.org" "az2" 100.

(** An instance that names a hypervisor that is not in the report, in a
    project that is not in the report either. *)
Definition I5 : row := mk_instance "I5" (VStr "unknown.example.com") "UNKNOWN" "az0".

(** A second record with the identifier of [I4], on another hypervisor. *)
Definition H4 : row := mk_hypervisor 4 "c.example.com" "az3" 300.
Definition I4' : row := mk_instance "I4" (VStr "c") "P1" "az0".

(** * Further properties of the run *)

(** ** Severity and exit *)

Definition is_error (e : log_entry) : bool :=
  match e.1 with ERROR => true | _ => false end.

(** The run stops with [sys.exit] exactly when it has logged an error: a
    result that exits does so with status 1 and the last entry of its log is
    the only one of level error; any other result has no such entry. *)
Definition exits_on_error {A} (r : result A) : Prop :=
  match res_outcome r with
  | Exit c =>
      c = 1 /\
      exists l msg, res_log r = l ++ [(ERROR, msg)] /\ List.filter is_error l = []
  | _ => List.filter is_error (res_log r) = []
  end.

Definition disciplined {A} (m : M A) : Prop :=
  forall st, exits_on_error (m st).

(** ** What a run may do to the fetched records *)

(** Whatever its outcome, the computation keeps the number of objects of
    the store and changes nothing of an object but the two fields of the
    decoration. *)
Definition frames {A} (m : M A) : Prop :=
  forall st,
    length (res_store (m st)) = length st /\
    forall n i, st !! n = Some i ->
      exists i', res_store (m st) !! n = Some i' /\ same_but_decoration i i'.

(** ** Well-formed reports *)

(** A project record with the fields of its report. *)
Definition wf_project (p : row) : bool :=
  bool_decide (has_fields ["id"; "display_name"] p).

(** An instance record with all the fields that the run reads. *)
Definition wf_fetched_instance (i : row) : bool :=
  wf_instance i && bool_decide (is_Some (i !! "availability_zone")).

(** An instance record without the field [availability_zone]. *)
Definition I6 : row :=
  <["id" := VStr "I6"]> (<["hypervisor" := VStr "a"]>
  (<["project_id" := VStr "P1"]> ∅)).

(** A second project record with the identifier of [P1]. *)
Definition P1' : row := mk_project "P1" "Team Beta".

(** A hypervisor record without the field [availability_zone]. *)
Definition H5 : row :=
  <["id" := VInt 5]> (<["hostname" := VStr "d.example.com"]>
  (<["last_seen" := VInt 10]> ∅)).

(** * Arguments and environment ([get_arg_or_env_var], lines 12-27)

    The function looks a setting up in the parsed command line and, failing
    that, in the environment of the process. Its state is [os.environ], a map
    from names to strings, which it passes on. The parsed command line is an
    [argparse.Namespace]: a set of attributes. The class has no method [pop],
    so [args.pop] is the lookup of an attribute of that name like any
    other. *)

Abbreviation namespace := (gmap string value).
Abbreviation environment := (gmap string string).

(** [str.replace(a, b)] for two characters, and [str.lower()], [str.upper()]
    on ASCII text, which is what the callers pass. *)
Fixpoint replace_char (a b : ascii) (s : string) : string :=
  match s with
  | EmptyString => EmptyString
  | String c r => String (if Ascii.eqb c a then b else c) (replace_char a b r)
  end.

Definition ascii_lower (c : ascii) : ascii :=
  let n := nat_of_ascii c in
  if ((65 <=? n)%nat && (n <=? 90)%nat)%bool then ascii_of_nat (n + 32) else c.

Definition ascii_upper (c : ascii) : ascii :=
  let n := nat_of_ascii c in
  if ((97 <=? n)%nat && (n <=? 122)%nat)%bool then ascii_of_nat (n - 32) else c.

Fixpoint map_chars (f : ascii -> ascii) (s : string) : string :=
  match s with
  | EmptyString => EmptyString
  | String c r => String (f c) (map_chars f r)
  end.

Definition lower : string -> string := map_chars ascii_lower.
Definition upper : string -> string := map_chars ascii_upper.

Definition ascii_only (s : string) : bool :=
  forallb (fun c => (nat_of_ascii c <? 128)%nat) (list_ascii_of_string s).

(** Lines 13 and 15: the name of the attribute. *)
Definition attribute_name (name : string) : string :=
  lower (replace_char "_" "-" (String.append "os-" name)).

(** Lines 13 and 20: the name of the environment variable. *)
Definition variable_name (name : string) : string :=
  upper (replace_char "-" "_" (String.append "os-" name)).

(** What a call gives back: the value of [return], or the exception that
    leaves the function. *)
Inductive returned :=
  | Returns (v : value)
  | Raises (e : exn).

(** Lines 20-26: the handler of [AttributeError]. *)
Definition from_environment (name : string) (environ : environment)
  : returned * environment :=
  let name_with_underscores := variable_name name in
  match environ !! name_with_underscores with
  | Some v => (Returns (VStr v), delete name_with_underscores environ)
  | None => (Returns VNone, environ)
  end.

(** Lines 12-27. In the [try] block, [getattr] raises [AttributeError] when
    the attribute is not there, and so does [args.pop] when the namespace has
    no attribute [pop]; were there one, it would hold a value that cannot be
    called, and the [TypeError] of the call is not caught. *)
Definition get_arg_or_env_var (args : namespace) (name : string)
    (environ : environment) : returned * environment :=
  match args !! attribute_name name with
  | Some value =>
      match args !! "pop" with
      | Some _ => (Raises TypeError, environ)
      | None => from_environment name environ
      end
  | None => from_environment name environ
  end.

(** * The token of the client (the script, lines 135-153)

    The script asks [get_arg_or_env_var] for a token and, when there is none,
    for the credentials with which it asks keystone for one. Keystone is not
    part of the repository: [keystone username password project_name auth_url]
    stands for the client built on line 145, [None] when [authenticate()]
    answers false and the identifier of the token of [auth_ref] otherwise. *)

Definition credentials : Type := value * value * value * value.

(** How lines 135-153 end. *)
Inductive login :=
  | Proceeds (args : namespace)
  | AuthenticationFailed
  | Dies (e : exn).

(** What the lines leave behind: how they end, the environment, and the
    requests made to keystone. *)
Definition login_result : Type := login * environment * list credentials.

(** A call of [get_arg_or_env_var] and what follows it. *)
Definition with_setting (args : namespace) (name : string)
    (environ : environment) (k : value -> environment -> login_result)
  : login_result :=
  match get_arg_or_env_var args name environ with
  | (Returns v, environ') => k v environ'
  | (Raises e, environ') => (Dies e, environ', [])
  end.

Section resolve_token.
Variable keystone : value -> value -> value -> value -> option value.

Definition resolve_token (args : namespace) (environ : environment)
  : login_result :=
  with_setting args "token" environ (fun token environ =>
  let args := <["token" := token]> args in
  match token with
  | VNone =>
      with_setting args "username" environ (fun username environ =>
      with_setting args "password" environ (fun password environ =>
      with_setting args "project_name" environ (fun project_name environ =>
      (if negb (truthy project_name)
       then with_setting args "tenant_name" environ
       else fun k => k project_name environ) (fun project_name environ =>
      with_setting args "auth_url" environ (fun auth_url environ =>
      if truthy username && truthy password && truthy project_name
         && truthy auth_url
      then
        match keystone username password project_name auth_url with
        | None =>
            (AuthenticationFailed, environ,
             [(username, password, project_name, auth_url)])
        | Some token =>
            (Proceeds (<["token" := token]> args), environ,
             [(username, password, project_name, auth_url)])
        end
      else (Proceeds args, environ, []))))))
  | _ => (Proceeds args, environ, [])
  end).
End resolve_token.

(** The value that [get_arg_or_env_var] finds for a variable. *)
Definition setting (environ : environment) (variable : string) : value :=
  match environ !! variable with
  | Some v => VStr v
  | None => VNone
  end.

(** A parsed command line, an environment with the credentials of a tenant
    and a keystone that grants a token. *)
Definition parsed_command_line : namespace :=
  {[ "endpoint" := VStr "http://reporting" ]}.

Definition environ_with_credentials : environment :=
  {[ "OS_USERNAME" := "admin"; "OS_PASSWORD" := "secret";
     "OS_TENANT_NAME" := "ops"; "OS_AUTH_URL" := "http://keystone" ]}.

Definition keystone_grants (username password project_name auth_url : value)
  : option value := Some (VStr "from-keystone").
(** ** Reasoning about the monad *)

Section monad_laws.
Context {A B : Type}.
Implicit Types (m : M A) (f : A -> M B) (st : store).

Lemma result_eta (r : result B) :
  Result (res_outcome r) (res_store r) (res_log r) = r.
Proof. by destruct r. Qed.

Lemma bind_ret a f st : bind (ret a) f st = f a st.
Proof. unfold bind, ret. by destruct (f a st). Qed.

Lemma bind_raise e f st : bind (raise e) f st = Result (Raised e) st [].
Proof. reflexivity. Qed.

Lemma bind_sys_exit c f st : bind (sys_exit c) f st = Result (Exit c) st [].
Proof. reflexivity. Qed.

Lemma bind_done m f st a st1 l1 :
  m st = Result (Done a) st1 l1 ->
  bind m f st =
    Result (res_outcome (f a st1)) (res_store (f a st1)) (l1 ++ res_log (f a st1)).
Proof. intros E. unfold bind. rewrite E. by destruct (f a st1). Qed.

Lemma bind_exit m f st c st1 l1 :
  m st = Result (Exit c) st1 l1 -> bind m f st = Result (Exit c) st1 l1.
Proof. intros E. unfold bind. by rewrite E. Qed.

Lemma bind_raised m f st e st1 l1 :
  m st = Result (Raised e) st1 l1 -> bind m f st = Result (Raised e) st1 l1.
Proof. intros E. unfold bind. by rewrite E. Qed.

Lemma bind_inv_done m f st b st' l :
  bind m f st = Result (Done b) st' l ->
  exists a st1 l1 l2,
    m st = Result (Done a) st1 l1 /\ f a st1 = Result (Done b) st' l2 /\
    l = l1 ++ l2.
Proof.
  unfold bind. destruct (m st) as [[a|c|e] st1 l1]; try discriminate.
  destruct (f a st1) as [o st2 l2] eqn:E. intros [= -> -> <-].
  by exists a, st1, l1, l2.
Qed.
End monad_laws.

Section primitive_steps.
Context {B : Type}.
Implicit Types (f : value -> M B) (st : store).

Lemma bind_getitem (d : row) k f st :
  bind (getitem d k) f st =
    match d !! k with
    | Some v => f v st
    | None => Result (Raised (KeyError (VStr k))) st []
    end.
Proof. unfold getitem. destruct (d !! k); [apply bind_ret | done]. Qed.

Lemma bind_load n k f st :
  bind (load n k) f st =
    match st !! n with
    | Some i =>
        match i !! k with
        | Some v => f v st
        | None => Result (Raised (KeyError (VStr k))) st []
        end
    | None => Result (Raised DanglingReference) st []
    end.
Proof.
  unfold load, bind at 1 2, deref. destruct (st !! n) as [i|]; [|done].
  unfold getitem. destruct (i !! k); simpl; [|done].
  by destruct (f v st).
Qed.

Lemma bind_logger lv msg (g : unit -> M B) st :
  bind (logger lv msg) g st =
    Result (res_outcome (g tt st)) (res_store (g tt st))
           ((lv, msg) :: res_log (g tt st)).
Proof. unfold bind, logger. by destruct (g tt st). Qed.

Lemma bind_split_dot_0 v (g : string -> M B) st :
  bind (split_dot_0 v) g st =
    match v with
    | VStr s => g (before_dot s) st
    | _ => Result (Raised AttributeError) st []
    end.
Proof. destruct v; simpl; try done. apply bind_ret. Qed.

Lemma bind_setitem n k v (g : unit -> M B) st :
  bind (setitem n k v) g st =
    match st !! n with
    | Some r => g tt (<[n := <[k := v]> r]> st)
    | None => Result (Raised DanglingReference) st []
    end.
Proof.
  unfold bind, setitem. destruct (st !! n) as [r|]; [|done].
  by destruct (g tt _).
Qed.
End primitive_steps.

(** A loop over [xs ++ ys] is the loop over [xs] followed by the loop over
    [ys]. *)
Lemma fold_each_app {X S} (body : S -> X -> M S) s xs ys st :
  fold_each body s (xs ++ ys) st =
    bind (fold_each body s xs) (fun s' => fold_each body s' ys) st.
Proof.
  revert s st. induction xs as [|x xs IH]; intros s st; simpl.
  - by rewrite bind_ret.
  - unfold bind.
    destruct (body s x st) as [[s1|c|e] st1 l1]; simpl; try done.
    rewrite IH. unfold bind.
    destruct (fold_each body s1 xs st1) as [[s2|c|e] st2 l2]; simpl; try done.
    destruct (fold_each body s2 ys st2) as [o st3 l3]. by rewrite app_assoc.
Qed.

Lemma for_each_app {X} (body : X -> M unit) xs ys st :
  for_each body (xs ++ ys) st =
    bind (for_each body xs) (fun _ => for_each body ys) st.
Proof.
  revert st. induction xs as [|x xs IH]; intros st; simpl.
  - by rewrite bind_ret.
  - unfold bind.
    destruct (body x st) as [[[]|c|e] st1 l1]; simpl; try done.
    rewrite IH. unfold bind.
    destruct (for_each body xs st1) as [[[]|c|e] st2 l2]; simpl; try done.
    destruct (for_each body ys st2) as [o st3 l3]. by rewrite app_assoc.
Qed.

(** ** The check of the availability zones (lines 39-42) *)

Lemma check_availability_zone_defined h st :
  az_defined h -> check_availability_zone h st = Result (Done tt) st [].
Proof.
  intros (az & Haz & Ht). unfold check_availability_zone.
  rewrite bind_getitem, Haz, Ht. reflexivity.
Qed.

Lemma check_availability_zone_blank h hid st :
  az_blank h -> h !! "id" = Some hid ->
  check_availability_zone h st =
    Result (Exit 1) st [(ERROR, NoAvailabilityZone hid)].
Proof.
  intros (az & Haz & Ht) Hid. unfold check_availability_zone.
  rewrite bind_getitem, Haz, Ht. simpl.
  rewrite bind_getitem, Hid, bind_logger. reflexivity.
Qed.

Lemma check_availability_zone_inv h st st' l :
  check_availability_zone h st = Result (Done tt) st' l ->
  az_defined h /\ st' = st /\ l = [].
Proof.
  unfold check_availability_zone. rewrite bind_getitem.
  destruct (h !! "availability_zone") as [az|] eqn:Haz; [|done].
  destruct (truthy az) eqn:Ht; simpl.
  - intros [= <- <-]. split; [by exists az|done].
  - rewrite bind_getitem. destruct (h !! "id"); [|done].
    by rewrite bind_logger.
Qed.

Lemma check_loop_defined hypervisor st :
  Forall az_defined hypervisor ->
  for_each check_availability_zone hypervisor st = Result (Done tt) st [].
Proof.
  induction 1 as [|h hs Hh _ IH]; [done|]. simpl.
  by rewrite (bind_done _ _ _ _ _ _ (check_availability_zone_defined h st Hh)), IH.
Qed.

Lemma check_loop_inv hypervisor st st' l :
  for_each check_availability_zone hypervisor st = Result (Done tt) st' l ->
  Forall az_defined hypervisor /\ st' = st /\ l = [].
Proof.
  revert l. induction hypervisor as [|h hs IH]; intros l; simpl.
  - by intros [= <- <-].
  - intros (u & st1 & l1 & l2 & E1 & E2 & ->)%bind_inv_done. destruct u.
    apply check_availability_zone_inv in E1 as (Hh & -> & ->).
    apply IH in E2 as (Hhs & -> & ->). by repeat constructor.
Qed.

Lemma check_loop_blank pre h post hid st :
  Forall az_defined pre -> az_blank h -> h !! "id" = Some hid ->
  for_each check_availability_zone (pre ++ h :: post) st =
    Result (Exit 1) st [(ERROR, NoAvailabilityZone hid)].
Proof.
  intros Hpre Hh Hid. rewrite for_each_app.
  rewrite (bind_done _ _ _ _ _ _ (check_loop_defined pre st Hpre)). simpl.
  by rewrite (bind_exit _ _ _ _ _ _ (check_availability_zone_blank h hid st Hh Hid)).
Qed.

(** In a report whose records have the field, either every availability zone
    is defined or there is a first record whose zone is blank. *)
Lemma first_blank (hs : list row) :
  Forall (has_fields ["availability_zone"]) hs ->
  Forall az_defined hs \/
  exists pre h post, hs = pre ++ h :: post /\ Forall az_defined pre /\ az_blank h.
Proof.
  induction 1 as [|h hs Hh _ IH]; [by left|].
  apply Forall_cons_1 in Hh as [[az Haz] _].
  destruct (truthy az) eqn:Ht.
  - destruct IH as [IH|(pre & h0 & post & -> & Hpre & Hb)].
    + left. constructor; [by exists az|done].
    + right. exists (h :: pre), h0, post. split; [done|].
      split; [|done]. constructor; [by exists az|done].
  - right. exists [], h, hs. split; [done|]. split; [constructor|by exists az].
Qed.

(** ** Computations that leave the store alone *)

Section purity.
Context {A B : Type}.

Lemma pure_ret (a : A) : pure (ret a).
Proof. by intros st. Qed.

Lemma pure_raise e : pure (@raise A e).
Proof. by intros st. Qed.

Lemma pure_sys_exit c : pure (@sys_exit A c).
Proof. by intros st. Qed.

Lemma pure_bind (m : M A) (f : A -> M B) :
  pure m -> (forall a, pure (f a)) -> pure (bind m f).
Proof.
  intros Hm Hf st. unfold bind. pose proof (Hm st) as E.
  destruct (m []) as [o s0 l0] eqn:E0; simpl in E. rewrite E.
  destruct o as [a|c|e]; try done.
  pose proof (Hf a st) as F. pose proof (Hf a s0) as F0.
  destruct (f a []) as [o1 s1 l1]; simpl in *. by rewrite F, F0.
Qed.
End purity.

Lemma pure_logger lv msg : pure (logger lv msg).
Proof. by intros st. Qed.

Lemma pure_getitem d k : pure (getitem d k).
Proof. unfold getitem. destruct (d !! k); [apply pure_ret|apply pure_raise]. Qed.

Lemma pure_split_dot_0 v : pure (split_dot_0 v).
Proof. destruct v; simpl; first [apply pure_ret|apply pure_raise]. Qed.

Lemma pure_py_lt a b : pure (py_lt a b).
Proof. destruct a, b; simpl; first [apply pure_ret|apply pure_raise]. Qed.

Lemma pure_for_each {X} (body : X -> M unit) xs :
  (forall x, pure (body x)) -> pure (for_each body xs).
Proof.
  intros Hb. induction xs as [|x xs IH]; simpl; [apply pure_ret|].
  apply pure_bind; [apply Hb|by intros _].
Qed.

Lemma pure_fold_each {X S} (body : S -> X -> M S) s xs :
  (forall s x, pure (body s x)) -> pure (fold_each body s xs).
Proof.
  intros Hb. revert s. induction xs as [|x xs IH]; intros s; simpl;
    [apply pure_ret|].
  apply pure_bind; [apply Hb|apply IH].
Qed.

Create HintDb pure discriminated.
#[local] Hint Resolve pure_ret pure_raise pure_sys_exit pure_logger
  pure_getitem pure_split_dot_0 pure_py_lt : pure.
#[local] Hint Extern 1 (pure (bind _ _)) => apply pure_bind; [|intros] : pure.
#[local] Hint Extern 1 (pure (match ?x with _ => _ end)) => destruct x : pure.
#[local] Hint Extern 1 (pure (if ?x then _ else _)) => destruct x : pure.

Lemma pure_check_availability_zone h : pure (check_availability_zone h).
Proof. unfold check_availability_zone. auto 10 with pure. Qed.

Lemma pure_add_hyp_short hyp_short h : pure (add_hyp_short hyp_short h).
Proof. unfold add_hyp_short. auto 20 with pure. Qed.

Lemma pure_add_project project_by_id p : pure (add_project project_by_id p).
Proof. unfold add_project. auto 10 with pure. Qed.

(** The loops before the join, run on any store, behave as on the empty
    one. *)
Lemma fold_add_hyp_short_store hs st :
  fold_each add_hyp_short ∅ hs st =
    Result (res_outcome (build_hyp_short hs)) st (res_log (build_hyp_short hs)).
Proof. apply (pure_fold_each add_hyp_short), pure_add_hyp_short. Qed.

Lemma fold_add_project_store ps st :
  fold_each add_project ∅ ps st =
    Result (res_outcome (build_project_by_id ps)) st
           (res_log (build_project_by_id ps)).
Proof. apply (pure_fold_each add_project), pure_add_project. Qed.

(** ** The order on timestamps *)

Lemma string_ltb_lt x y : String.ltb x y = true <-> String_as_OT.lt x y.
Proof.
  unfold String.ltb. rewrite <- String_as_OT.cmp_lt. unfold String_as_OT.cmp.
  destruct (String.compare x y); naive_solver.
Qed.

Lemma string_ltb_asym x y : String.ltb x y = true -> String.ltb y x = false.
Proof.
  unfold String.ltb. rewrite (String.compare_antisym y x).
  by destruct (String.compare x y).
Qed.

Lemma string_ltb_negtrans x y z :
  String.ltb x y = false -> String.ltb y z = false -> String.ltb x z = false.
Proof.
  intros Hxy Hyz. destruct (String.ltb x z) eqn:Hxz; [|done].
  apply string_ltb_lt in Hxz.
  destruct (String.compare x y) eqn:C.
  - apply String.compare_eq_iff in C as ->.
    apply string_ltb_lt in Hxz. congruence.
  - unfold String.ltb in Hxy. by rewrite C in Hxy.
  - assert (String.ltb y x = true) as Hyx.
    { unfold String.ltb. rewrite String.compare_antisym, C. done. }
    apply string_ltb_lt in Hyx.
    pose proof (String_as_OT.lt_trans _ _ _ Hyx Hxz) as Hyz'.
    apply string_ltb_lt in Hyz'. congruence.
Qed.

Lemma value_ltb_asym a b : value_ltb a b = true -> value_ltb b a = false.
Proof.
  destruct a, b; simpl; try done.
  - intros H. apply Z.ltb_lt in H. apply Z.ltb_ge. lia.
  - apply string_ltb_asym.
Qed.

Lemma value_ltb_irrefl a : value_ltb a a = false.
Proof.
  destruct (value_ltb a a) eqn:E; [|done].
  by rewrite (value_ltb_asym _ _ E) in E.
Qed.

Lemma value_ltb_negtrans a b c :
  comparable a b = true -> comparable b c = true ->
  value_ltb a b = false -> value_ltb b c = false -> value_ltb a c = false.
Proof.
  destruct a, b, c; simpl; try done.
  - intros _ _ H1 H2. apply Z.ltb_ge in H1, H2. apply Z.ltb_ge. lia.
  - intros _ _. apply string_ltb_negtrans.
Qed.

Lemma bind_py_lt {B} a b (g : bool -> M B) st :
  comparable a b = true -> bind (py_lt a b) g st = g (value_ltb a b) st.
Proof. destruct a, b; simpl; try done; intros _; apply bind_ret. Qed.

Lemma older_asym h w : older h w = true -> older w h = false.
Proof.
  unfold older. destruct (h !! "last_seen"), (w !! "last_seen"); try done.
  apply value_ltb_asym.
Qed.

Lemma older_irrefl h : older h h = false.
Proof.
  destruct (older h h) eqn:E; [|done]. by rewrite (older_asym _ _ E) in E.
Qed.

(** ** The short-name table (lines 48-59) *)

Lemma wf_hypervisor_fields h :
  wf_hypervisor h = true ->
  exists hid az seen name,
    h !! "id" = Some hid /\ h !! "availability_zone" = Some az /\
    h !! "last_seen" = Some seen /\ h !! "hostname" = Some (VStr name).
Proof.
  unfold wf_hypervisor. intros [Hf Hn]%andb_true_iff.
  apply bool_decide_eq_true in Hf.
  apply Forall_cons_1 in Hf as [[hid Hid] Hf].
  apply Forall_cons_1 in Hf as [[az Haz] Hf].
  apply Forall_cons_1 in Hf as [[seen Hseen] _].
  destruct (h !! "hostname") as [[| |name]|] eqn:E; try done.
  by exists hid, az, seen, name.
Qed.

Lemma timestamps_comparable_spec hs h w :
  timestamps_comparable hs = true -> h ∈ hs -> w ∈ hs ->
  exists a b, h !! "last_seen" = Some a /\ w !! "last_seen" = Some b /\
              comparable a b = true.
Proof.
  unfold timestamps_comparable.
  intros [H|H]%orb_true_iff Hh Hw; rewrite forallb_forall in H;
    pose proof (H h (proj1 (list_elem_of_In _ _) Hh)) as Eh;
    pose proof (H w (proj1 (list_elem_of_In _ _) Hw)) as Ew;
    destruct (h !! "last_seen") as [[]|]; try done;
    destruct (w !! "last_seen") as [[]|]; try done; eauto.
Qed.

Lemma older_negtrans hs h w h' :
  timestamps_comparable hs = true -> h ∈ hs -> w ∈ hs -> h' ∈ hs ->
  older h w = false -> older w h' = false -> older h h' = false.
Proof.
  intros Hc Hh Hw Hh'.
  destruct (timestamps_comparable_spec hs h w Hc Hh Hw) as (a & b & Ea & Eb & Cab).
  destruct (timestamps_comparable_spec hs w h' Hc Hw Hh') as (b' & c & Eb' & Ec & Cbc).
  unfold older. rewrite Ea, Eb, Ec. simplify_eq.
  by apply value_ltb_negtrans.
Qed.

Lemma add_hyp_short_fresh hyp_short h name st :
  h !! "hostname" = Some (VStr name) ->
  hyp_short !! before_dot name = None ->
  add_hyp_short hyp_short h st =
    Result (Done (<[before_dot name := h]> hyp_short)) st [].
Proof.
  intros Hn Hm. unfold add_hyp_short.
  rewrite bind_getitem, Hn, bind_split_dot_0, Hm. reflexivity.
Qed.

Lemma add_hyp_short_seen hyp_short h w name hid wid a b st :
  h !! "hostname" = Some (VStr name) ->
  hyp_short !! before_dot name = Some w ->
  w !! "id" = Some wid -> h !! "id" = Some hid ->
  h !! "last_seen" = Some a -> w !! "last_seen" = Some b ->
  comparable a b = true ->
  add_hyp_short hyp_short h st =
    Result (Done (if older h w then hyp_short
                  else <[before_dot name := h]> hyp_short)) st
           [(WARNING, DuplicateShortNames (before_dot name) wid hid)].
Proof.
  intros Hn Hm Hwid Hhid Ha Hb Hc. unfold add_hyp_short, older.
  rewrite bind_getitem, Hn, bind_split_dot_0, Hm.
  rewrite bind_getitem, Hwid, bind_getitem, Hhid, bind_logger.
  rewrite bind_getitem, Ha, bind_getitem, Hb, bind_py_lt by done.
  by destruct (value_ltb a b).
Qed.

Lemma resolves_empty : resolves [] ∅.
Proof. intros s. rewrite lookup_empty. by intros h ?%elem_of_nil. Qed.

(** One more record keeps the table resolved. *)
Section resolves_snoc.
Context (hs : list row) (hyp_short : gmap string row) (h : row) (name : string).
Hypothesis Hcmp : timestamps_comparable (hs ++ [h]) = true.
Hypothesis Hname : h !! "hostname" = Some (VStr name).
Hypothesis Hres : resolves hs hyp_short.

Let s0 := before_dot name.

Lemma snoc_short_name : short_name_of h = Some s0.
Proof. unfold short_name_of. by rewrite Hname. Qed.

Lemma snoc_lookup j x :
  (hs ++ [h]) !! j = Some x ->
  (hs !! j = Some x /\ (j < length hs)%nat) \/ (j = length hs /\ x = h).
Proof.
  intros Hj. destruct (decide (j < length hs)%nat) as [Hlt|Hge].
  - left. by rewrite lookup_app_l in Hj.
  - right. rewrite lookup_app_r in Hj by lia.
    destruct (j - length hs)%nat as [|d] eqn:Ed; simpl in Hj; [|done].
    split; [lia|congruence].
Qed.

(** The slots of the other short names are not affected. *)
Lemma resolves_snoc_other s (m : gmap string row) :
  s <> s0 -> m !! s = hyp_short !! s ->
  match m !! s with
  | None => forall x, x ∈ hs ++ [h] -> short_name_of x <> Some s
  | Some w =>
      exists k, (hs ++ [h]) !! k = Some w /\ short_name_of w = Some s /\
        forall j x, (hs ++ [h]) !! j = Some x -> short_name_of x = Some s ->
          older w x = false /\ ((k < j)%nat -> older x w = true)
  end.
Proof.
  intros Hne ->. pose proof (Hres s) as R. pose proof snoc_short_name as Hs0.
  destruct (hyp_short !! s) as [v|].
  - destruct R as (k & Hk & Hv & R). exists k.
    split; [by apply lookup_app_l_Some|]. split; [done|].
    intros j x Hj Hx. apply snoc_lookup in Hj as [[Hj Hlt]|[-> ->]]; [eauto|].
    congruence.
  - intros x [Hx| ->%list_elem_of_singleton]%elem_of_app; [eauto|].
    congruence.
Qed.

(** The record is older than the one in its slot: the slot is kept. *)
Lemma resolves_snoc_keep w :
  hyp_short !! s0 = Some w -> older h w = true ->
  resolves (hs ++ [h]) hyp_short.
Proof.
  intros Hw Ho s. destruct (decide (s = s0)) as [->|Hne];
    [|by apply resolves_snoc_other].
  pose proof (Hres s0) as R. rewrite Hw in *.
  destruct R as (k & Hk & Hsw & R). exists k.
  split; [by apply lookup_app_l_Some|]. split; [done|].
  intros j x Hj Hx. apply snoc_lookup in Hj as [[Hj Hlt]|[-> ->]]; [eauto|].
  split; [by apply older_asym|done].
Qed.

(** The slot is free, or the record is not older than the one in it: the
    record takes the slot. *)
Lemma resolves_snoc_take :
  (forall w, hyp_short !! s0 = Some w -> older h w = false) ->
  resolves (hs ++ [h]) (<[s0 := h]> hyp_short).
Proof.
  intros Hw s. destruct (decide (s = s0)) as [->|Hne];
    [|by apply resolves_snoc_other; [|apply lookup_insert_ne]].
  rewrite lookup_insert_eq. exists (length hs).
  split; [by rewrite lookup_app_r, Nat.sub_diag by lia|].
  split; [apply snoc_short_name|].
  intros j x Hj Hx. apply snoc_lookup in Hj as [[Hj Hlt]|[-> ->]];
    [|split; [apply older_irrefl|lia]].
  split; [|lia]. pose proof (Hres s0) as R.
  destruct (hyp_short !! s0) as [w|].
  - destruct R as (k & Hk & _ & R). destruct (R j x Hj Hx) as [R1 _].
    apply (older_negtrans (hs ++ [h]) h w x); auto.
    + apply elem_of_app. right. by apply list_elem_of_singleton.
    + apply elem_of_app. left. by apply list_elem_of_lookup_2 in Hk.
    + apply elem_of_app. left. by apply list_elem_of_lookup_2 in Hj.
  - apply list_elem_of_lookup_2 in Hj. by destruct (R x Hj).
Qed.
End resolves_snoc.

Lemma timestamps_comparable_app_l hs hs' :
  timestamps_comparable (hs ++ hs') = true -> timestamps_comparable hs = true.
Proof.
  unfold timestamps_comparable. rewrite !forallb_app, !orb_true_iff, !andb_true_iff.
  tauto.
Qed.

(** On a well-formed report the loop ends normally with a table that
    resolves the report. *)
Lemma build_hyp_short_resolves hs :
  Forall (fun h => wf_hypervisor h = true) hs ->
  timestamps_comparable hs = true ->
  exists hyp_short l,
    build_hyp_short hs = Result (Done hyp_short) [] l /\ resolves hs hyp_short.
Proof.
  unfold build_hyp_short.
  induction hs as [|h hs IH] using rev_ind; intros Hwf Hcmp.
  - exists ∅, []. split; [done|apply resolves_empty].
  - apply Forall_app in Hwf as [Hwf Hh]. apply Forall_cons_1 in Hh as [Hh _].
    destruct (IH Hwf (timestamps_comparable_app_l _ _ Hcmp))
      as (m & l & Erun & Hres).
    rewrite fold_each_app, (bind_done _ _ _ _ _ _ Erun). simpl.
    destruct (wf_hypervisor_fields h Hh) as (hid & az & a & name & Hid & _ & Ha & Hn).
    destruct (m !! before_dot name) as [w|] eqn:Hw.
    + pose proof (Hres (before_dot name)) as R. rewrite Hw in R.
      destruct R as (k & Hk & _). apply list_elem_of_lookup_2 in Hk.
      destruct (timestamps_comparable_spec (hs ++ [h]) h w Hcmp)
        as (a' & b & Ea & Eb & Hc); [set_solver..|].
      rewrite Forall_forall in Hwf.
      destruct (wf_hypervisor_fields w (Hwf w Hk)) as (wid & _ & _ & _ & Hwid & _).
      rewrite (bind_done _ _ _ _ _ _
                 (add_hyp_short_seen m h w name hid wid a' b [] Hn Hw Hwid Hid Ea Eb Hc)).
      simpl. eexists _, _. split; [done|].
      destruct (older h w) eqn:Ho.
      * by eapply resolves_snoc_keep.
      * eapply resolves_snoc_take; try done. intros w' ?. by simplify_eq.
    + rewrite (bind_done _ _ _ _ _ _ (add_hyp_short_fresh m h name [] Hn Hw)).
      simpl. eexists _, _. split; [done|].
      eapply resolves_snoc_take; try done. intros w' ?. by simplify_eq.
Qed.

(** Symbolic execution of one turn of a loop, in a hypothesis: rewrite the
    primitive at the head, then split on what it found. *)
Ltac exec_in H :=
  repeat first
    [ rewrite bind_getitem in H
    | rewrite bind_load in H
    | rewrite bind_logger in H
    | rewrite bind_split_dot_0 in H
    | rewrite bind_setitem in H
    | rewrite bind_ret in H
    | rewrite bind_raise in H
    | rewrite bind_sys_exit in H
    | progress simpl in H
    | discriminate H
    | match type of H with
      | context [match ?x with _ => _ end] =>
          lazymatch x with
          | context [match _ with _ => _ end] => fail
          | _ => destruct x eqn:?
          end
      end ].

Lemma add_hyp_short_inv hyp_short h st hyp_short' st' l :
  add_hyp_short hyp_short h st = Result (Done hyp_short') st' l ->
  st' = st /\
  exists name, h !! "hostname" = Some (VStr name) /\
    (hyp_short' = <[before_dot name := h]> hyp_short \/
     hyp_short' = hyp_short /\ is_Some (hyp_short !! before_dot name)).
Proof.
  intros H. unfold add_hyp_short in H. exec_in H.
  all: try (unfold py_lt in H; exec_in H).
  all: unfold ret in *; simplify_eq; split; [done|]; eexists; split; [reflexivity|].
  all: first [by left | right; split; [done|by eexists]].
Qed.

Lemma fold_add_hyp_short_inv hs m0 st m st' l :
  fold_each add_hyp_short m0 hs st = Result (Done m) st' l ->
  st' = st /\
  forall s w, m !! s = Some w ->
    (w ∈ hs /\ short_name_of w = Some s) \/ m0 !! s = Some w.
Proof.
  revert m0 st l. induction hs as [|h hs IH]; intros m0 st l; simpl.
  - intros [= <- <-]. eauto.
  - intros (m1 & st1 & l1 & l2 & E1 & E2 & ->)%bind_inv_done.
    apply add_hyp_short_inv in E1 as (-> & name & Hn & Hm1).
    apply IH in E2 as (-> & Hm). split; [done|].
    intros s w Hw. destruct (Hm s w Hw) as [[Hin Hs]|Hold].
    + left. split; [by apply elem_of_cons; right|done].
    + destruct Hm1 as [->|[-> _]]; [|by right].
      destruct (decide (before_dot name = s)) as [<-|Hne].
      * rewrite lookup_insert_eq in Hold. simplify_eq. left.
        split; [by apply elem_of_cons; left|].
        unfold short_name_of. by rewrite Hn.
      * rewrite lookup_insert_ne in Hold by done. by right.
Qed.

Lemma build_hyp_short_inv hs m st l :
  build_hyp_short hs = Result (Done m) st l ->
  forall s w, m !! s = Some w -> w ∈ hs /\ short_name_of w = Some s.
Proof.
  intros E s w Hw. apply fold_add_hyp_short_inv in E as [_ E].
  destruct (E s w Hw) as [?|Hempty]; [done|]. by rewrite lookup_empty in Hempty.
Qed.

(** ** The project table (line 62) *)

Lemma add_project_inv project_by_id p st m st' l :
  add_project project_by_id p st = Result (Done m) st' l ->
  st' = st /\ l = [] /\ exists pid, p !! "id" = Some pid /\ m = <[pid := p]> project_by_id.
Proof.
  intros H. unfold add_project in H. exec_in H. unfold ret in H.
  simplify_eq. eauto.
Qed.

Lemma fold_add_project_inv ps m0 st m st' l :
  fold_each add_project m0 ps st = Result (Done m) st' l ->
  st' = st /\ l = [] /\
  forall pid p, m !! pid = Some p ->
    (p ∈ ps /\ p !! "id" = Some pid) \/ m0 !! pid = Some p.
Proof.
  revert m0 st l. induction ps as [|p ps IH]; intros m0 st l; simpl.
  - intros [= <- <- <-]. eauto.
  - intros (m1 & st1 & l1 & l2 & E1 & E2 & ->)%bind_inv_done.
    apply add_project_inv in E1 as (-> & -> & pid & Hpid & ->).
    apply IH in E2 as (-> & -> & Hm). split; [done|]. split; [done|].
    intros q x Hx. destruct (Hm q x Hx) as [[Hin Hq]|Hold].
    + left. split; [by apply elem_of_cons; right|done].
    + destruct (decide (pid = q)) as [<-|Hne].
      * rewrite lookup_insert_eq in Hold. simplify_eq. left.
        split; [by apply elem_of_cons; left|done].
      * rewrite lookup_insert_ne in Hold by done. by right.
Qed.

Lemma build_project_by_id_inv ps m st l :
  build_project_by_id ps = Result (Done m) st l ->
  l = [] /\ forall pid p, m !! pid = Some p -> p ∈ ps /\ p !! "id" = Some pid.
Proof.
  intros E. apply fold_add_project_inv in E as (_ & -> & E). split; [done|].
  intros pid p Hp. destruct (E pid p Hp) as [?|Hempty]; [done|].
  by rewrite lookup_empty in Hempty.
Qed.

(** ** Insertion-ordered dictionaries *)

Module PyDictFacts.
Section facts.
Context {K V : Type} `{EqDecision K}.
Implicit Types (k : K) (v : V) (d : PyDict.t K V).

Lemma get_set_eq k v d : PyDict.get k (PyDict.set k v d) = Some v.
Proof.
  induction d as [|[k' v'] d IH]; simpl.
  - by rewrite decide_True.
  - destruct (decide (k = k')) as [->|Hne]; simpl.
    + by rewrite decide_True.
    + by rewrite decide_False.
Qed.

Lemma get_set_ne k k' v d :
  k <> k' -> PyDict.get k' (PyDict.set k v d) = PyDict.get k' d.
Proof.
  intros Hne. induction d as [|[k0 v0] d IH]; simpl.
  - by rewrite decide_False by done.
  - destruct (decide (k = k0)) as [->|Hne0]; simpl.
    + by rewrite !decide_False by done.
    + by rewrite IH.
Qed.

Lemma get_None_keys k d : PyDict.get k d = None <-> k ∉ PyDict.keys d.
Proof.
  unfold PyDict.keys. induction d as [|[k' v'] d IH]; simpl.
  - split; [intros _; apply not_elem_of_nil|done].
  - rewrite not_elem_of_cons. destruct (decide (k = k')) as [->|Hne].
    + split; [done|]. by intros [? _].
    + rewrite IH. tauto.
Qed.

Lemma get_Some_keys k v d : PyDict.get k d = Some v -> k ∈ PyDict.keys d.
Proof.
  intros Hg. destruct (decide (k ∈ PyDict.keys d)) as [|Hn]; [done|].
  apply get_None_keys in Hn. congruence.
Qed.

Lemma get_Some_elem_of k v d : PyDict.get k d = Some v -> (k, v) ∈ d.
Proof.
  induction d as [|[k' v'] d IH]; simpl; [done|].
  destruct (decide (k = k')) as [->|Hne].
  - intros [= ->]. apply elem_of_cons. by left.
  - intros Hg. apply elem_of_cons. right. by apply IH.
Qed.

Lemma elem_of_get k v d :
  NoDup (PyDict.keys d) -> (k, v) ∈ d -> PyDict.get k d = Some v.
Proof.
  unfold PyDict.keys. induction d as [|[k' v'] d IH]; simpl.
  - by intros _ ?%elem_of_nil.
  - intros [Hk' Hnd]%NoDup_cons [Heq|Hin]%elem_of_cons.
    + simplify_eq. by rewrite decide_True.
    + destruct (decide (k = k')) as [->|Hne]; [|by apply IH].
      destruct Hk'. apply list_elem_of_fmap. by exists (k', v).
Qed.

Lemma keys_set k v d :
  PyDict.keys (PyDict.set k v d) =
    match PyDict.get k d with
    | Some _ => PyDict.keys d
    | None => PyDict.keys d ++ [k]
    end.
Proof.
  induction d as [|[k' v'] d IH]; simpl; [done|].
  destruct (decide (k = k')) as [->|Hne]; [done|].
  change (PyDict.keys ((k', v') :: PyDict.set k v d))
    with (k' :: PyDict.keys (PyDict.set k v d)).
  rewrite IH. by destruct (PyDict.get k d).
Qed.

Lemma NoDup_keys_set k v d :
  NoDup (PyDict.keys d) -> NoDup (PyDict.keys (PyDict.set k v d)).
Proof.
  intros Hnd. rewrite keys_set. destruct (PyDict.get k d) eqn:E; [done|].
  apply NoDup_app. split; [done|]. split; [|apply NoDup_singleton].
  intros x Hx ->%list_elem_of_singleton. by apply get_None_keys in E.
Qed.

Lemma elem_of_values v d :
  v ∈ PyDict.values d -> exists k, (k, v) ∈ d.
Proof.
  unfold PyDict.values. intros ([k v'] & -> & Hin)%list_elem_of_fmap. eauto.
Qed.
End facts.
End PyDictFacts.

(** ** The join (lines 65-78) *)

Section join_turn.
Context (hyp_short : gmap string row) (project_by_id : gmap value row).
Implicit Types (j : joined) (st : store) (i : row).

Lemma join_without_hypervisor j st n i iid :
  st !! n = Some i -> without_hypervisor i -> i !! "id" = Some iid ->
  join_instance hyp_short project_by_id j n st =
    Result (Done j) st [(WARNING, NoHypervisor iid)].
Proof.
  intros Hn Hh Hid. unfold join_instance.
  rewrite bind_load, Hn, Hh, bind_load, Hn, Hid, bind_logger. reflexivity.
Qed.

Lemma join_unresolved j st n i iid :
  st !! n = Some i -> unresolved hyp_short i -> i !! "id" = Some iid ->
  join_instance hyp_short project_by_id j n st =
    Result (Exit 1) st [(ERROR, UndeterminedHypervisor iid)].
Proof.
  intros Hn (name & Hh & Hs) Hid. unfold join_instance.
  rewrite bind_load, Hn, Hh, bind_load, Hn, Hh, bind_split_dot_0, Hs.
  rewrite bind_load, Hn, Hid, bind_logger. reflexivity.
Qed.

Lemma join_invalid_project j st n i iid pid :
  st !! n = Some i -> invalid_project hyp_short project_by_id i pid ->
  i !! "id" = Some iid ->
  join_instance hyp_short project_by_id j n st =
    Result (Done j) st [(WARNING, InvalidProjectId iid pid)].
Proof.
  intros Hn (name & Hh & [h Hs] & Hp & Hpb) Hid. unfold join_instance.
  rewrite bind_load, Hn, Hh, bind_load, Hn, Hh, bind_split_dot_0, Hs.
  rewrite bind_load, Hn, Hp, Hpb.
  rewrite bind_load, Hn, Hid, bind_load, Hn, Hp, bind_logger. reflexivity.
Qed.

Lemma join_retained j st n i iid h p :
  st !! n = Some i -> retained hyp_short project_by_id i iid h p ->
  join_instance hyp_short project_by_id j n st =
    Result (Done (Joined (PyDict.set iid h (instance_hypervisor j))
                         (PyDict.set iid n (instance_by_id j)))) st [].
Proof.
  intros Hn (name & pid & Hh & Hs & Hp & Hpb & Hid). unfold join_instance.
  rewrite bind_load, Hn, Hh, bind_load, Hn, Hh, bind_split_dot_0, Hs.
  rewrite bind_load, Hn, Hp, Hpb.
  rewrite bind_load, Hn, Hid, bind_load, Hn, Hid. reflexivity.
Qed.

(** A turn that lets the loop go on either dropped the record with one
    warning or retained it without a word. *)
Lemma join_instance_inv j st n j' st' l :
  join_instance hyp_short project_by_id j n st = Result (Done j') st' l ->
  st' = st /\
  exists i iid, st !! n = Some i /\ i !! "id" = Some iid /\
    ((without_hypervisor i /\ j' = j /\ l = [(WARNING, NoHypervisor iid)]) \/
     (exists pid, invalid_project hyp_short project_by_id i pid /\ j' = j /\
                  l = [(WARNING, InvalidProjectId iid pid)]) \/
     (exists h p, retained hyp_short project_by_id i iid h p /\
        j' = Joined (PyDict.set iid h (instance_hypervisor j))
                    (PyDict.set iid n (instance_by_id j)) /\
        l = [])).
Proof.
  intros H. unfold join_instance in H. exec_in H.
  all: unfold ret in H; simplify_eq.
  all: split; [reflexivity|]; eexists _, _;
    split; [reflexivity|]; split; [eassumption|].
  all: first
    [ by left
    | right; left; eexists; split; [|split; reflexivity]; eexists; by eauto
    | right; right; eexists _, _; split; [|split; reflexivity];
      eexists _, _; by eauto ].
Qed.
End join_turn.

Section join_loop.
Context (hyp_short : gmap string row) (project_by_id : gmap value row).
Implicit Types (j : joined) (st : store) (i : row).

Lemma retained_not_dropped i iid h p :
  retained hyp_short project_by_id i iid h p ->
  ~ without_hypervisor i /\
  ~ unresolved hyp_short i /\
  forall pid, ~ invalid_project hyp_short project_by_id i pid.
Proof.
  intros (name & pid & Hh & Hs & Hp & Hpb & Hid). unfold without_hypervisor.
  split; [congruence|]. split.
  - intros (name' & Hh' & Hs'). congruence.
  - intros pid' (name' & Hh' & _ & Hp' & Hpb'). congruence.
Qed.

Lemma retained_functional i iid h p iid' h' p' :
  retained hyp_short project_by_id i iid h p ->
  retained hyp_short project_by_id i iid' h' p' ->
  iid' = iid /\ h' = h /\ p' = p.
Proof.
  intros (name & pid & Hh & Hs & Hp & Hpb & Hid)
         (name' & pid' & Hh' & Hs' & Hp' & Hpb' & Hid').
  simplify_eq. done.
Qed.

Lemma turn_log_without_hypervisor st n i iid :
  st !! n = Some i -> without_hypervisor i -> i !! "id" = Some iid ->
  turn_log hyp_short project_by_id st n = [(WARNING, NoHypervisor iid)].
Proof. intros. unfold turn_log. by erewrite join_without_hypervisor. Qed.

Lemma turn_log_unresolved st n i iid :
  st !! n = Some i -> unresolved hyp_short i -> i !! "id" = Some iid ->
  turn_log hyp_short project_by_id st n = [(ERROR, UndeterminedHypervisor iid)].
Proof. intros. unfold turn_log. by erewrite join_unresolved. Qed.

Lemma turn_log_invalid_project st n i iid pid :
  st !! n = Some i -> invalid_project hyp_short project_by_id i pid ->
  i !! "id" = Some iid ->
  turn_log hyp_short project_by_id st n = [(WARNING, InvalidProjectId iid pid)].
Proof. intros. unfold turn_log. by erewrite join_invalid_project. Qed.

Lemma turn_log_retained st n i iid h p :
  st !! n = Some i -> retained hyp_short project_by_id i iid h p ->
  turn_log hyp_short project_by_id st n = [].
Proof. intros. unfold turn_log. by erewrite join_retained. Qed.

Lemma joined_upto_empty st :
  joined_upto hyp_short project_by_id st 0 (Joined PyDict.empty PyDict.empty).
Proof.
  split; [done|]. split; [constructor|]. split; [done|]. intros; lia.
Qed.

(** The record [k] is dropped: the dicts are as before. *)
Lemma joined_upto_dropped st k j i :
  st !! k = Some i ->
  (forall iid h p, ~ retained hyp_short project_by_id i iid h p) ->
  joined_upto hyp_short project_by_id st k j ->
  joined_upto hyp_short project_by_id st (S k) j.
Proof.
  intros Hk Hdrop (Hkeys & Hnd & Hget & Hlast).
  split; [done|]. split; [done|]. split.
  - intros iid n Hn. destruct (Hget iid n Hn) as [Hlt ?]. split; [lia|done].
  - intros n i' iid h p Hlt Hn Hret.
    destruct (decide (n = k)) as [->|Hne].
    + simplify_eq. by destruct (Hdrop iid h p).
    + apply (Hlast n i' iid h p); [lia|done..].
Qed.

(** The record [k] is retained: its identifier is bound to it. *)
Lemma joined_upto_retained st k j i iid h p :
  st !! k = Some i ->
  retained hyp_short project_by_id i iid h p ->
  joined_upto hyp_short project_by_id st k j ->
  joined_upto hyp_short project_by_id st (S k)
    (Joined (PyDict.set iid h (instance_hypervisor j))
            (PyDict.set iid k (instance_by_id j))).
Proof.
  intros Hk Hret (Hkeys & Hnd & Hget & Hlast). simpl.
  split; [|split; [|split]]; simpl.
  - rewrite !PyDictFacts.keys_set, Hkeys.
    destruct (PyDict.get iid (instance_hypervisor j)) eqn:E1,
             (PyDict.get iid (instance_by_id j)) eqn:E2; try done.
    + apply PyDictFacts.get_Some_keys in E1.
      apply PyDictFacts.get_None_keys in E2. by rewrite Hkeys in E1.
    + apply PyDictFacts.get_Some_keys in E2.
      apply PyDictFacts.get_None_keys in E1. by rewrite Hkeys in E1.
  - by apply PyDictFacts.NoDup_keys_set.
  - intros iid' n. destruct (decide (iid = iid')) as [<-|Hne].
    + rewrite !PyDictFacts.get_set_eq. intros [= <-]. split; [lia|].
      by exists i, h, p.
    + rewrite !PyDictFacts.get_set_ne by done. intros Hn.
      destruct (Hget iid' n Hn) as [Hlt ?]. split; [lia|done].
  - intros n i' iid' h' p' Hlt Hn Hret'.
    destruct (decide (iid = iid')) as [<-|Hne].
    + exists k. rewrite PyDictFacts.get_set_eq. split; [done|lia].
    + rewrite PyDictFacts.get_set_ne by done.
      destruct (decide (n = k)) as [->|Hnk].
      * simplify_eq. by destruct (retained_functional _ _ _ _ _ _ _ Hret Hret') as [-> _].
      * apply (Hlast n i' iid' h' p'); [lia|done..].
Qed.

(** The loop over the first [k] instances, when none of them stops the
    run: the store is as before, the dicts are as [joined_upto] says, and the
    log is that of the turns one after the other. *)
Lemma join_loop_inv st k j st' l :
  fold_each (join_instance hyp_short project_by_id)
    (Joined PyDict.empty PyDict.empty) (seq 0 k) st = Result (Done j) st' l ->
  st' = st /\ joined_upto hyp_short project_by_id st k j /\
  l = concat (map (turn_log hyp_short project_by_id st) (seq 0 k)).
Proof.
  revert j st' l. induction k as [|k IH]; intros j st' l.
  - intros [= <- <- <-]. split; [done|]. split; [apply joined_upto_empty|done].
  - rewrite seq_S, fold_each_app. simpl.
    intros (j1 & st1 & l1 & l2 & E1 & E2 & ->)%bind_inv_done.
    apply IH in E1 as (-> & Hinv & ->).
    apply bind_inv_done in E2 as (j2 & st2 & l3 & l4 & E2 & [= <- <- <-] & ->).
    rewrite app_nil_r, map_app, concat_app. simpl. rewrite app_nil_r.
    apply join_instance_inv in E2
      as (-> & i & iid & Hk & Hid & [(Hno & -> & ->)|[(pid & Hbad & -> & ->)|(h & p & Hret & -> & ->)]]).
    + split; [done|]. split.
      * apply (joined_upto_dropped st k j1 i); [done| |done].
        intros ??? Hret. by apply retained_not_dropped in Hret as [? _].
      * by rewrite (turn_log_without_hypervisor st k i iid).
    + split; [done|]. split.
      * apply (joined_upto_dropped st k j1 i); [done| |done].
        intros ??? Hret. apply retained_not_dropped in Hret as (_ & _ & Hret).
        by apply (Hret pid).
      * by rewrite (turn_log_invalid_project st k i iid pid).
    + split; [done|]. split.
      * by apply (joined_upto_retained st k j1 i iid h p).
      * by rewrite (turn_log_retained st k i iid h p), app_nil_r.
Qed.
End join_loop.

(** ** The decoration (lines 83-92) *)

Lemma enrich_update_object project_by_id j iid n h st :
  PyDict.get iid (instance_by_id j) = Some n ->
  PyDict.get iid (instance_hypervisor j) = Some h ->
  enrich project_by_id j iid st =
    update_object (ref_of j iid) (decorate project_by_id (hypervisor_of j iid)) st.
Proof.
  intros Hn Hh. unfold enrich, update_object, ref_of, hypervisor_of, decorate.
  rewrite Hn, Hh. simpl. rewrite bind_load.
  destruct (st !! n) as [i|] eqn:Hi; [|done].
  destruct (i !! "availability_zone") as [old_az|]; simpl;
    [|by rewrite list_insert_id].
  rewrite bind_getitem.
  destruct (h !! "availability_zone") as [new_az|]; simpl;
    [|by rewrite list_insert_id].
  rewrite bind_setitem, Hi, bind_load.
  assert (n < length st)%nat as Hlt by (by eapply lookup_lt_Some).
  rewrite list_lookup_insert_eq by done.
  destruct (<["availability_zone":=new_az]> i !! "project_id") as [pid|];
    simpl; [|done].
  destruct (project_by_id !! pid) as [p|]; simpl; [|reflexivity].
  rewrite bind_getitem. destruct (p !! "display_name") as [name|]; simpl; [|done].
  unfold setitem. rewrite list_lookup_insert_eq by done.
  by rewrite list_insert_insert_eq.
Qed.

Lemma for_each_ext {X} (f g : X -> M unit) xs st :
  (forall x st', x ∈ xs -> f x st' = g x st') ->
  for_each f xs st = for_each g xs st.
Proof.
  revert st. induction xs as [|x xs IH]; intros st Hfg; [done|]. simpl.
  unfold bind. rewrite Hfg by (apply elem_of_cons; by left).
  destruct (g x st) as [[[]|c|e] st1 l1]; try done.
  rewrite IH; [done|]. intros y st' Hy. apply Hfg. apply elem_of_cons. by right.
Qed.

(** A loop whose turns each rewrite one object, no object twice. *)
Section update_loop.
Context {X : Type} (ref : X -> nat) (upd : X -> row -> outcome unit * row).

Let body (x : X) : M unit := update_object (ref x) (upd x).

Lemma update_loop_log xs st : res_log (for_each body xs st) = [].
Proof.
  revert st. induction xs as [|x xs IH]; intros st; [done|]. simpl.
  unfold bind, body at 1, update_object.
  destruct (st !! ref x) as [i|]; [|done].
  destruct (upd x i).1 as [[]|c|e]; try done.
  specialize (IH (<[ref x := (upd x i).2]> st)).
  destruct (for_each body xs _) as [o st2 l2]. simpl in *. by subst.
Qed.

Lemma update_loop_length xs st :
  length (res_store (for_each body xs st)) = length st.
Proof.
  revert st. induction xs as [|x xs IH]; intros st; [done|]. simpl.
  unfold bind, body at 1, update_object.
  destruct (st !! ref x) as [i|]; [|done].
  destruct (upd x i).1 as [[]|c|e]; simpl; try apply length_insert.
  specialize (IH (<[ref x := (upd x i).2]> st)).
  destruct (for_each body xs _) as [o st2 l2]. simpl in *.
  by rewrite IH, length_insert.
Qed.

(** The objects that the loop does not visit are left as they were. *)
Lemma update_loop_other xs st n :
  n ∉ ref <$> xs -> res_store (for_each body xs st) !! n = st !! n.
Proof.
  revert st. induction xs as [|x xs IH]; intros st Hn; [done|]. simpl in *.
  apply not_elem_of_cons in Hn as [Hne Hn].
  unfold bind, body at 1, update_object.
  destruct (st !! ref x) as [i|]; [|done].
  destruct (upd x i).1 as [[]|c|e]; simpl;
    try by rewrite list_lookup_insert_ne.
  specialize (IH (<[ref x := (upd x i).2]> st) Hn).
  destruct (for_each body xs _) as [o st2 l2]. simpl in *.
  by rewrite IH, list_lookup_insert_ne.
Qed.

(** Whatever the outcome, an object of the store is related to what it was
    by any preorder that the rewriting respects. *)
Lemma update_loop_rel (R : row -> row -> Prop) xs st n i :
  (forall r, R r r) -> (forall a b c, R a b -> R b c -> R a c) ->
  (forall x r, R r (upd x r).2) ->
  st !! n = Some i ->
  exists i', res_store (for_each body xs st) !! n = Some i' /\ R i i'.
Proof.
  intros Hrefl Htrans Hupd. revert st i.
  induction xs as [|x xs IH]; intros st i Hn; [by exists i|]. simpl.
  unfold bind, body at 1, update_object.
  destruct (st !! ref x) as [i1|] eqn:E; [|by exists i].
  assert (exists i2, <[ref x := (upd x i1).2]> st !! n = Some i2 /\ R i i2)
    as (i2 & Hi2 & HR).
  { destruct (decide (n = ref x)) as [->|Hne].
    - exists (upd x i1).2. split; [|by simplify_eq].
      apply list_lookup_insert_eq. by eapply lookup_lt_Some.
    - exists i. by rewrite list_lookup_insert_ne. }
  destruct (upd x i1).1 as [[]|c|e]; simpl; try by exists i2.
  destruct (IH _ _ Hi2) as (i' & Hi' & HR').
  destruct (for_each body xs _) as [o st2 l2]. simpl in *.
  exists i'. split; [done|]. by eapply Htrans.
Qed.

(** When the loop ends normally every visited object was rewritten, with
    success. *)
Lemma update_loop_done xs st st' l :
  NoDup (ref <$> xs) ->
  for_each body xs st = Result (Done tt) st' l ->
  forall x, x ∈ xs ->
    exists i, st !! ref x = Some i /\ (upd x i).1 = Done tt /\
              st' !! ref x = Some (upd x i).2.
Proof.
  revert st l. induction xs as [|x xs IH]; intros st l Hnd Hrun y Hy.
  { by apply elem_of_nil in Hy. }
  simpl in *. apply NoDup_cons in Hnd as [Hx Hnd].
  apply bind_inv_done in Hrun as ([] & st1 & l1 & l2 & E1 & E2 & ->).
  unfold body, update_object in E1.
  destruct (st !! ref x) as [i|] eqn:Hi; [|done].
  injection E1 as Ho <- <-.
  assert (ref x < length st)%nat as Hlt by (by eapply lookup_lt_Some).
  apply elem_of_cons in Hy as [->|Hy].
  - exists i. split; [done|]. split; [done|].
    pose proof (update_loop_other xs (<[ref x := (upd x i).2]> st) (ref x) Hx) as Ho'.
    fold body in E2. rewrite E2 in Ho'. simpl in Ho'.
    by rewrite Ho', list_lookup_insert_eq.
  - destruct (IH _ _ Hnd E2 y Hy) as (i' & Hi' & Hok & Hst').
    assert (ref y <> ref x) as Hne.
    { intros Heq. apply Hx. rewrite <- Heq. apply list_elem_of_fmap. eauto. }
    rewrite list_lookup_insert_ne in Hi' by done. eauto.
Qed.

(** Running the loop again on the store it left gives the same result, when
    rewriting an object a second time changes nothing. *)
Lemma update_loop_idempotent xs st :
  NoDup (ref <$> xs) ->
  (forall x i o i', upd x i = (o, i') -> upd x i' = (o, i')) ->
  for_each body xs (res_store (for_each body xs st)) = for_each body xs st.
Proof.
  intros Hnd Hidem. revert st Hnd.
  induction xs as [|x xs IH]; intros st Hnd; [done|].
  simpl in Hnd. apply NoDup_cons in Hnd as [Hx Hnd]. simpl.
  destruct (st !! ref x) as [i|] eqn:Hi.
  2:{ assert (body x st = Result (Raised DanglingReference) st []) as Hb
        by (unfold body, update_object; by rewrite Hi).
      rewrite (bind_raised _ _ _ _ _ _ Hb). simpl.
      by rewrite (bind_raised _ _ _ _ _ _ Hb). }
  destruct (upd x i) as [o i'] eqn:Hupd.
  set (st1 := <[ref x := i']> st).
  assert (body x st = Result o st1 []) as Hb
    by (unfold body, update_object; by rewrite Hi, Hupd).
  assert (forall st2, st2 !! ref x = Some i' -> body x st2 = Result o st2 [])
    as Hagain.
  { intros st2 H2. unfold body, update_object.
    rewrite H2, (Hidem x i o i' Hupd). simpl. by rewrite list_insert_id. }
  assert (st1 !! ref x = Some i') as Hst1.
  { apply list_lookup_insert_eq. by eapply lookup_lt_Some. }
  destruct o as [[]|c|e].
  - rewrite (bind_done _ _ _ _ _ _ Hb). simpl. rewrite result_eta.
    assert (res_store (for_each body xs st1) !! ref x = Some i') as Hst2
      by (by rewrite update_loop_other).
    rewrite (bind_done _ _ _ _ _ _ (Hagain _ Hst2)). simpl.
    by rewrite (IH st1 Hnd), result_eta.
  - rewrite (bind_exit _ _ _ _ _ _ Hb). simpl.
    by rewrite (bind_exit _ _ _ _ _ _ (Hagain _ Hst1)).
  - rewrite (bind_raised _ _ _ _ _ _ Hb). simpl.
    by rewrite (bind_raised _ _ _ _ _ _ (Hagain _ Hst1)).
Qed.
End update_loop.

Lemma decorate_done project_by_id h i :
  (decorate project_by_id h i).1 = Done tt ->
  exists new_az pid p name,
    is_Some (i !! "availability_zone") /\
    h !! "availability_zone" = Some new_az /\
    i !! "project_id" = Some pid /\ project_by_id !! pid = Some p /\
    p !! "display_name" = Some name /\
    (decorate project_by_id h i).2 =
      <["project_display_name" := name]> (<["availability_zone" := new_az]> i).
Proof.
  unfold decorate.
  destruct (i !! "availability_zone") as [old_az|] eqn:E1; [|done].
  destruct (h !! "availability_zone") as [new_az|] eqn:E2; [|done]. simpl.
  rewrite lookup_insert_ne by done.
  destruct (i !! "project_id") as [pid|] eqn:E3; [|done].
  destruct (project_by_id !! pid) as [p|] eqn:E4; [|done].
  destruct (p !! "display_name") as [name|] eqn:E5; [|done].
  intros _. by exists new_az, pid, p, name.
Qed.

Lemma decorate_same_but_decoration project_by_id h i :
  same_but_decoration i (decorate project_by_id h i).2.
Proof.
  intros k Hk1 Hk2. unfold decorate.
  repeat case_match; simpl; by rewrite ?lookup_insert_ne.
Qed.

Lemma decorate_idempotent project_by_id h i o i' :
  decorate project_by_id h i = (o, i') -> decorate project_by_id h i' = (o, i').
Proof.
  unfold decorate.
  destruct (i !! "availability_zone") as [old_az|] eqn:E1.
  2:{ intros [= <- <-]. by rewrite E1. }
  destruct (h !! "availability_zone") as [new_az|] eqn:E2.
  2:{ intros [= <- <-]. by rewrite E1. }
  simpl. rewrite lookup_insert_ne by done.
  set (i1 := <["availability_zone" := new_az]> i).
  assert (i1 !! "availability_zone" = Some new_az) as Haz
    by apply lookup_insert_eq.
  assert (<["availability_zone" := new_az]> i1 = i1) as Hi1
    by (by apply insert_id).
  assert (i1 !! "project_id" = i !! "project_id") as Hpid
    by (by apply lookup_insert_ne).
  destruct (i !! "project_id") as [pid|] eqn:E3.
  2:{ intros [= <- <-]. by rewrite Haz, Hi1, Hpid. }
  destruct (project_by_id !! pid) as [p|] eqn:E4.
  2:{ intros [= <- <-]. by rewrite Haz, Hi1, Hpid, E4. }
  destruct (p !! "display_name") as [name|] eqn:E5.
  2:{ intros [= <- <-]. by rewrite Haz, Hi1, Hpid, E4, E5. }
  intros [= <- <-].
  set (i2 := <["project_display_name" := name]> i1).
  assert (i2 !! "availability_zone" = Some new_az) as Haz2
    by (unfold i2; by rewrite lookup_insert_ne).
  assert (<["availability_zone" := new_az]> i2 = i2) as Hi2
    by (by apply insert_id).
  assert (i2 !! "project_id" = Some pid) as Hpid2
    by (unfold i2; by rewrite lookup_insert_ne, Hpid).
  rewrite Haz2, Hi2, Hpid2, E4, E5. f_equal.
  apply insert_id. apply lookup_insert_eq.
Qed.

Lemma same_but_decoration_refl i : same_but_decoration i i.
Proof. by intros k _ _. Qed.

Lemma same_but_decoration_trans a b c :
  same_but_decoration a b -> same_but_decoration b c -> same_but_decoration a c.
Proof. intros Hab Hbc k H1 H2. by rewrite Hbc, Hab. Qed.

(** ** The join reads three fields of the instance objects *)

Section join_agree.
Context (hyp_short : gmap string row) (project_by_id : gmap value row).

(** One turn reads the object [n] only, does not write to the store, and
    behaves alike on two stores whose objects [n] have the same [hypervisor],
    [id] and [project_id]. *)
Lemma join_instance_agree j n st st' :
  (st !! n = None -> st' !! n = None) ->
  (forall i, st !! n = Some i ->
     exists i', st' !! n = Some i' /\ same_but_decoration i i') ->
  exists o l,
    join_instance hyp_short project_by_id j n st = Result o st l /\
    join_instance hyp_short project_by_id j n st' = Result o st' l.
Proof.
  intros Hnone Hsome. unfold join_instance. rewrite !bind_load.
  destruct (st !! n) as [i|] eqn:Hn.
  2:{ rewrite (Hnone eq_refl). by eexists _, _. }
  destruct (Hsome i eq_refl) as (i' & Hn' & Hsame). rewrite Hn'.
  rewrite !(Hsame "hypervisor") by done.
  destruct (i !! "hypervisor") as [[|z|name]|] eqn:Hh; try by eexists _, _.
  - rewrite !bind_load, Hn, Hn'. rewrite !(Hsame "id") by done.
    destruct (i !! "id"); [|by eexists _, _].
    rewrite !bind_logger. by eexists _, _.
  - rewrite !bind_load, Hn, Hn'. rewrite !(Hsame "hypervisor"), Hh by done.
    by eexists _, _.
  - rewrite !bind_load, Hn, Hn'. rewrite !(Hsame "hypervisor"), Hh by done.
    rewrite !bind_split_dot_0.
    destruct (hyp_short !! before_dot name) as [h|].
    + rewrite !bind_load, Hn, Hn'. rewrite !(Hsame "project_id") by done.
      destruct (i !! "project_id") as [pid|]; [|by eexists _, _].
      destruct (project_by_id !! pid).
      * rewrite !bind_load, Hn, Hn'. rewrite !(Hsame "id") by done.
        destruct (i !! "id"); [|by eexists _, _].
        rewrite !bind_load, Hn, Hn'. rewrite !(Hsame "id") by done.
        destruct (i !! "id"); by eexists _, _.
      * rewrite !bind_load, Hn, Hn'. rewrite !(Hsame "id") by done.
        destruct (i !! "id"); [|by eexists _, _].
        rewrite !bind_load, Hn, Hn'. rewrite !(Hsame "project_id") by done.
        destruct (i !! "project_id"); [|by eexists _, _].
        rewrite !bind_logger. by eexists _, _.
    + rewrite !bind_load, Hn, Hn'. rewrite !(Hsame "id") by done.
      destruct (i !! "id"); [|by eexists _, _].
      rewrite !bind_logger. by eexists _, _.
Qed.

Lemma join_loop_agree j ns st st' :
  length st = length st' ->
  (forall n i, st !! n = Some i ->
     exists i', st' !! n = Some i' /\ same_but_decoration i i') ->
  exists o l,
    fold_each (join_instance hyp_short project_by_id) j ns st = Result o st l /\
    fold_each (join_instance hyp_short project_by_id) j ns st' = Result o st' l.
Proof.
  intros Hlen Hsame. revert j. induction ns as [|n ns IH]; intros j; simpl.
  - by eexists _, _.
  - destruct (join_instance_agree j n st st') as (o & l & E & E').
    { rewrite !lookup_ge_None. lia. }
    { eauto. }
    destruct o as [j1|c|e].
    + destruct (IH j1) as (o2 & l2 & E2 & E2').
      rewrite (bind_done _ _ _ _ _ _ E), (bind_done _ _ _ _ _ _ E'), E2, E2'.
      simpl. by eexists _, _.
    + rewrite (bind_exit _ _ _ _ _ _ E), (bind_exit _ _ _ _ _ _ E').
      by eexists _, _.
    + rewrite (bind_raised _ _ _ _ _ _ E), (bind_raised _ _ _ _ _ _ E').
      by eexists _, _.
Qed.
End join_agree.

(** ** The run as a whole *)

Lemma reconcile_unfold hypervisor project instance :
  reconcile hypervisor project instance =
    (for_each check_availability_zone hypervisor ;;
     logger DEBUG CheckedHypervisorAZ ;;
     hyp_short <- fold_each add_hyp_short ∅ hypervisor ;;
     project_by_id <- fold_each add_project ∅ project ;;
     join_and_decorate hyp_short project_by_id instance).
Proof. reflexivity. Qed.

Section idempotent_run.
Context {A B : Type}.

Lemma idempotent_run_pure_bind (m : M A) (f : A -> M B) :
  pure m -> (forall a, idempotent_run (f a)) -> idempotent_run (bind m f).
Proof.
  intros Hm Hf st. unfold bind. rewrite (Hm st).
  destruct (res_outcome (m [])) as [a|c|e] eqn:Eo; simpl.
  - destruct (f a st) as [o st' l] eqn:E. simpl. rewrite (Hm st'), Eo.
    pose proof (Hf a st) as Hfa. rewrite E in Hfa. simpl in Hfa.
    by rewrite Hfa.
  - by rewrite (Hm st), Eo.
  - by rewrite (Hm st), Eo.
Qed.
End idempotent_run.

Section join_and_decorate.
Context (hyp_short : gmap string row) (project_by_id : gmap value row).

(** The keys of the two dicts stand for distinct objects. *)
Lemma joined_upto_refs st k j :
  joined_upto hyp_short project_by_id st k j ->
  NoDup (ref_of j <$> PyDict.keys (instance_hypervisor j)) /\
  forall iid, iid ∈ PyDict.keys (instance_hypervisor j) ->
    exists n h, PyDict.get iid (instance_by_id j) = Some n /\
                PyDict.get iid (instance_hypervisor j) = Some h.
Proof.
  intros (Hkeys & Hnd & Hget & _).
  assert (forall iid, iid ∈ PyDict.keys (instance_hypervisor j) ->
            exists n h, PyDict.get iid (instance_by_id j) = Some n /\
                        PyDict.get iid (instance_hypervisor j) = Some h) as Hboth.
  { intros iid Hin. rewrite Hkeys in Hin.
    destruct (PyDict.get iid (instance_by_id j)) as [n|] eqn:E.
    - destruct (Hget iid n E) as (_ & i & h & p & _ & _ & Hh). eauto.
    - by apply PyDictFacts.get_None_keys in E. }
  split; [|done]. rewrite Hkeys in *.
  apply NoDup_fmap_2_strong; [|done].
  intros iid iid' Hin Hin' Href.
  destruct (Hboth iid Hin) as (n & h & Hn & _).
  destruct (Hboth iid' Hin') as (n' & h' & Hn' & _).
  unfold ref_of in Href. rewrite Hn, Hn' in Href. simpl in Href. subst n'.
  destruct (Hget iid n Hn) as (_ & i & ? & ? & Hi & Hret & _).
  destruct (Hget iid' n Hn') as (_ & i' & ? & ? & Hi' & Hret' & _).
  simplify_eq. by destruct (retained_functional _ _ _ _ _ _ _ _ _ Hret Hret').
Qed.

(** The decoration loop is a loop of rewritings of single objects. *)
Lemma enrich_loop_update st k j st1 :
  joined_upto hyp_short project_by_id st k j ->
  for_each (enrich project_by_id j) (PyDict.keys (instance_hypervisor j)) st1 =
  for_each (fun iid => update_object (ref_of j iid)
                         (decorate project_by_id (hypervisor_of j iid)))
           (PyDict.keys (instance_hypervisor j)) st1.
Proof.
  intros Hinv. apply for_each_ext. intros iid st2 Hin.
  destruct (joined_upto_refs st k j Hinv) as [_ Hboth].
  destruct (Hboth iid Hin) as (n & h & Hn & Hh).
  by apply (enrich_update_object project_by_id j iid n h).
Qed.

Lemma join_and_decorate_idempotent k :
  idempotent_run (join_and_decorate hyp_short project_by_id (seq 0 k)).
Proof.
  intros st. unfold join_and_decorate.
  destruct (join_loop_agree hyp_short project_by_id
              (Joined PyDict.empty PyDict.empty) (seq 0 k) st st eq_refl)
    as (o & l & E & _).
  { intros n i Hn. exists i. split; [done|apply same_but_decoration_refl]. }
  destruct o as [j|c|e].
  2:{ by rewrite (bind_exit _ _ _ _ _ _ E), (bind_exit _ _ _ _ _ _ E). }
  2:{ by rewrite (bind_raised _ _ _ _ _ _ E), (bind_raised _ _ _ _ _ _ E). }
  destruct (join_loop_inv _ _ _ _ _ _ _ E) as (_ & Hinv & _).
  rewrite (bind_done _ _ _ _ _ _ E). rewrite !bind_logger. simpl.
  set (body := fun iid => update_object (ref_of j iid)
                            (decorate project_by_id (hypervisor_of j iid))).
  set (keys := PyDict.keys (instance_hypervisor j)).
  assert (forall st1 (f : unit -> M (list nat)),
            bind (for_each (enrich project_by_id j) keys) f st1 =
            bind (for_each body keys) f st1) as Hloop.
  { intros st1 f. unfold bind, keys. by rewrite (enrich_loop_update st k j st1). }
  rewrite Hloop.
  destruct (joined_upto_refs st k j Hinv) as [Hnd _].
  pose proof (update_loop_idempotent (ref_of j)
                (fun iid => decorate project_by_id (hypervisor_of j iid))
                keys st Hnd) as Hidem.
  pose proof (update_loop_length (ref_of j)
                (fun iid => decorate project_by_id (hypervisor_of j iid))
                keys st) as Hlen.
  pose proof (fun n i => update_loop_rel (ref_of j)
                (fun iid => decorate project_by_id (hypervisor_of j iid))
                same_but_decoration keys st n i same_but_decoration_refl
                same_but_decoration_trans
                (fun x r => decorate_same_but_decoration _ _ r)) as Hrel.
  fold body in Hidem, Hlen, Hrel.
  assert (res_store (bind (for_each body keys)
                       (fun _ => ret (PyDict.values (instance_by_id j))) st)
          = res_store (for_each body keys st)) as Hstore.
  { unfold bind. destruct (for_each body keys st) as [[[]|c|e] st' l']; done. }
  rewrite Hstore.
  set (st' := res_store (for_each body keys st)) in *.
  destruct (join_loop_agree hyp_short project_by_id
              (Joined PyDict.empty PyDict.empty) (seq 0 k) st st')
    as (o2 & l2 & E2 & E2'); [symmetry; exact Hlen|exact Hrel|].
  rewrite E in E2. injection E2 as <- <-.
  rewrite (bind_done _ _ _ _ _ _ E2'). rewrite !bind_logger. simpl.
  assert (for_each body keys st' = for_each body keys st) as Hagain
    by exact (Hidem (fun x i o i' => decorate_idempotent _ _ i o i')).
  rewrite Hloop. unfold bind in Hstore |- *. by rewrite Hagain, Hstore.
Qed.
End join_and_decorate.

Lemma pure_nil {A} (m : M A) :
  pure m -> m [] = Result (res_outcome (m [])) [] (res_log (m [])).
Proof. intros Hm. apply Hm. Qed.

Lemma pure_idempotent_run {A} (m : M A) : pure m -> idempotent_run m.
Proof. intros Hm st. rewrite (Hm st). simpl. by rewrite (Hm st). Qed.

(** Running the whole body again on the store it left changes nothing. *)
Lemma reconcile_idempotent hypervisor project k :
  idempotent_run (reconcile hypervisor project (seq 0 k)).
Proof.
  rewrite reconcile_unfold.
  apply idempotent_run_pure_bind;
    [apply pure_for_each, pure_check_availability_zone|intros _].
  apply idempotent_run_pure_bind; [apply pure_logger|intros _].
  apply idempotent_run_pure_bind;
    [apply pure_fold_each, pure_add_hyp_short|intros hyp_short].
  apply idempotent_run_pure_bind;
    [apply pure_fold_each, pure_add_project|intros project_by_id].
  apply join_and_decorate_idempotent.
Qed.


Lemma keeps_length_bind {A B} (m : M A) (f : A -> M B) :
  keeps_length m -> (forall a, keeps_length (f a)) -> keeps_length (bind m f).
Proof.
  intros Hm Hf st. unfold bind. specialize (Hm st).
  destruct (m st) as [[a|c|e] st1 l1]; simpl in *; try done.
  specialize (Hf a st1). destruct (f a st1) as [o st2 l2]. simpl in *. lia.
Qed.

Lemma keeps_length_pure {A} (m : M A) : pure m -> keeps_length m.
Proof. intros Hm st. by rewrite (Hm st). Qed.

Lemma keeps_length_join_and_decorate hyp_short project_by_id k :
  keeps_length (join_and_decorate hyp_short project_by_id (seq 0 k)).
Proof.
  intros st. unfold join_and_decorate.
  destruct (join_loop_agree hyp_short project_by_id
              (Joined PyDict.empty PyDict.empty) (seq 0 k) st st eq_refl)
    as (o & l & E & _).
  { intros n i Hn. exists i. split; [done|apply same_but_decoration_refl]. }
  destruct o as [j|c|e].
  2:{ by rewrite (bind_exit _ _ _ _ _ _ E). }
  2:{ by rewrite (bind_raised _ _ _ _ _ _ E). }
  destruct (join_loop_inv _ _ _ _ _ _ _ E) as (_ & Hinv & _).
  rewrite (bind_done _ _ _ _ _ _ E). rewrite !bind_logger. simpl.
  unfold bind. rewrite (enrich_loop_update _ _ st k j st Hinv).
  pose proof (update_loop_length (ref_of j)
                (fun iid => decorate project_by_id (hypervisor_of j iid))
                (PyDict.keys (instance_hypervisor j)) st) as Hlen.
  simpl in Hlen.
  destruct (for_each _ _ st) as [[[]|c|e] st1 l1]; simpl in *; done.
Qed.

Lemma reconcile_length hypervisor project k :
  keeps_length (reconcile hypervisor project (seq 0 k)).
Proof.
  rewrite reconcile_unfold.
  apply keeps_length_bind;
    [apply keeps_length_pure, pure_for_each, pure_check_availability_zone|intros _].
  apply keeps_length_bind; [apply keeps_length_pure, pure_logger|intros _].
  apply keeps_length_bind;
    [apply keeps_length_pure, pure_fold_each, pure_add_hyp_short|intros hyp_short].
  apply keeps_length_bind;
    [apply keeps_length_pure, pure_fold_each, pure_add_project|intros project_by_id].
  apply keeps_length_join_and_decorate.
Qed.

(** *** A run that returns *)

Lemma bind_logger_inv {B} lv msg (g : unit -> M B) st o st' l :
  bind (logger lv msg) g st = Result o st' l ->
  exists l', g tt st = Result o st' l' /\ l = (lv, msg) :: l'.
Proof.
  rewrite bind_logger. destruct (g tt st) as [o1 st1 l1]. simpl.
  intros [= <- <- <-]. by exists l1.
Qed.

(** The anatomy of a run that returns its generator. *)
Lemma active_instances_done hypervisor instance project refs st' l :
  active_instances hypervisor instance project = Result (Done refs) st' l ->
  exists hyp_short lh project_by_id j,
    Forall az_defined hypervisor /\
    build_hyp_short hypervisor = Result (Done hyp_short) [] lh /\
    build_project_by_id project = Result (Done project_by_id) [] [] /\
    joined_upto hyp_short project_by_id instance (length instance) j /\
    refs = PyDict.values (instance_by_id j) /\
    l = (DEBUG, CheckedHypervisorAZ) :: lh ++
        concat (map (turn_log hyp_short project_by_id instance)
                    (seq 0 (length instance))) ++
        [(DEBUG, CheckedInstanceHypervisors)] /\
    (forall iid n, PyDict.get iid (instance_by_id j) = Some n ->
       exists i h, instance !! n = Some i /\
         PyDict.get iid (instance_hypervisor j) = Some h /\
         (decorate project_by_id h i).1 = Done tt /\
         st' !! n = Some (decorate project_by_id h i).2) /\
    (forall n, n ∉ refs -> st' !! n = instance !! n).
Proof.
  unfold active_instances. rewrite reconcile_unfold.
  intros ([] & st1 & l1 & l2 & E1 & E2 & ->)%bind_inv_done.
  apply check_loop_inv in E1 as (Haz & -> & ->).
  apply bind_logger_inv in E2 as (l3 & E3 & ->).
  apply bind_inv_done in E3 as (hyp_short & st1 & l1 & l2 & E1 & E2 & ->).
  rewrite fold_add_hyp_short_store in E1. injection E1 as Ho <- Hl.
  apply bind_inv_done in E2 as (project_by_id & st2 & l3 & l4 & E3 & E4 & ->).
  rewrite fold_add_project_store in E3. injection E3 as Ho' <- Hl'.
  assert (build_hyp_short hypervisor = Result (Done hyp_short) [] l1) as Hhs.
  { unfold build_hyp_short.
    rewrite (pure_nil _ (pure_fold_each _ _ _ pure_add_hyp_short)).
    unfold build_hyp_short in Ho, Hl. by rewrite Ho, Hl. }
  assert (build_project_by_id project = Result (Done project_by_id) [] l3) as Hpb.
  { unfold build_project_by_id.
    rewrite (pure_nil _ (pure_fold_each _ _ _ pure_add_project)).
    unfold build_project_by_id in Ho', Hl'. by rewrite Ho', Hl'. }
  destruct (build_project_by_id_inv _ _ _ _ Hpb) as [-> _].
  unfold join_and_decorate in E4.
  apply bind_inv_done in E4 as (j & st2 & l5 & l6 & E5 & E6 & ->).
  apply join_loop_inv in E5 as (-> & Hinv & ->).
  apply bind_logger_inv in E6 as (l7 & E7 & ->).
  apply bind_inv_done in E7 as ([] & st2 & l8 & l9 & E8 & [= <- <- <-] & ->).
  rewrite (enrich_loop_update _ _ instance _ j instance Hinv) in E8.
  destruct (joined_upto_refs _ _ _ _ _ Hinv) as [Hnd Hboth].
  pose proof (update_loop_log (ref_of j)
                (fun iid => decorate project_by_id (hypervisor_of j iid))
                (PyDict.keys (instance_hypervisor j)) instance) as Hlog.
  simpl in Hlog. rewrite E8 in Hlog. simpl in Hlog. subst l8.
  exists hyp_short, l1, project_by_id, j.
  split; [done|]. split; [done|]. split; [done|]. split; [done|].
  split; [done|]. split; [by rewrite !app_nil_r|].
  pose proof Hinv as (Hkeys & _ & Hget & _).
  split.
  - intros iid n Hn. destruct (Hget iid n Hn) as (_ & i & h & p & Hi & _ & Hh).
    assert (iid ∈ PyDict.keys (instance_hypervisor j)) as Hin
      by (by eapply PyDictFacts.get_Some_keys).
    destruct (update_loop_done _ _ _ _ _ _ Hnd E8 iid Hin) as (i' & Hi' & Hok & Hst').
    unfold ref_of, hypervisor_of in Hi', Hok, Hst'.
    rewrite Hn in Hi', Hst'. rewrite Hh in Hok, Hst'. simpl in *.
    simplify_eq. by exists i, h.
  - intros n Hn.
    pose proof (update_loop_other (ref_of j)
                  (fun iid => decorate project_by_id (hypervisor_of j iid))
                  (PyDict.keys (instance_hypervisor j)) instance n) as Hother.
    simpl in Hother. rewrite E8 in Hother. simpl in Hother. apply Hother.
    intros (iid & -> & Hin)%list_elem_of_fmap. apply Hn.
    destruct (Hboth iid Hin) as (m & h & Hm & _).
    unfold ref_of. rewrite Hm. simpl.
    apply PyDictFacts.get_Some_elem_of in Hm.
    unfold PyDict.values. apply list_elem_of_fmap. by exists (iid, m).
Qed.

(** *** A run that reaches the join *)

Lemma active_instances_joins hypervisor instance project hyp_short lh project_by_id :
  Forall az_defined hypervisor ->
  build_hyp_short hypervisor = Result (Done hyp_short) [] lh ->
  build_project_by_id project = Result (Done project_by_id) [] [] ->
  active_instances hypervisor instance project =
    let r := join_and_decorate hyp_short project_by_id
               (seq 0 (length instance)) instance in
    Result (res_outcome r) (res_store r)
           ((DEBUG, CheckedHypervisorAZ) :: lh ++ res_log r).
Proof.
  intros Haz Hhs Hpb. unfold active_instances. rewrite reconcile_unfold.
  rewrite (bind_done _ _ _ _ _ _ (check_loop_defined hypervisor instance Haz)).
  simpl. rewrite bind_logger.
  assert (fold_each add_hyp_short ∅ hypervisor instance =
          Result (Done hyp_short) instance lh) as E1
    by (by rewrite fold_add_hyp_short_store, Hhs).
  rewrite (bind_done _ _ _ _ _ _ E1). simpl.
  assert (fold_each add_project ∅ project instance =
          Result (Done project_by_id) instance []) as E2
    by (by rewrite fold_add_project_store, Hpb).
  rewrite (bind_done _ _ _ _ _ _ E2). reflexivity.
Qed.

Section join_progress.
Context (hyp_short : gmap string row) (project_by_id : gmap value row).

Lemma wf_instance_cases i :
  wf_instance i = true ->
  exists iid, i !! "id" = Some iid /\
    (without_hypervisor i \/ unresolved hyp_short i \/
     (exists pid, invalid_project hyp_short project_by_id i pid) \/
     (exists h p, retained hyp_short project_by_id i iid h p)).
Proof.
  unfold wf_instance. intros [Hf Hh]%andb_true_iff.
  apply bool_decide_eq_true in Hf.
  apply Forall_cons_1 in Hf as [[iid Hid] Hf].
  apply Forall_cons_1 in Hf as [[pid Hpid] _].
  exists iid. split; [done|].
  apply orb_true_iff in Hh as [Hh|Hh].
  - destruct (i !! "hypervisor") as [[| |name]|] eqn:E; try done.
    destruct (hyp_short !! before_dot name) as [h|] eqn:Es.
    + destruct (project_by_id !! pid) as [p|] eqn:Ep.
      * right; right; right. exists h, p, name, pid. eauto.
      * right; right; left. exists pid, name. eauto.
    + right; left. by exists name.
  - left. by apply bool_decide_eq_true in Hh.
Qed.

(** The turns of a loop that ended normally. *)
Lemma join_loop_turns st k j st' l m :
  fold_each (join_instance hyp_short project_by_id)
    (Joined PyDict.empty PyDict.empty) (seq 0 k) st = Result (Done j) st' l ->
  (m < k)%nat ->
  exists i iid, st !! m = Some i /\ i !! "id" = Some iid /\
    ((without_hypervisor i /\
      turn_log hyp_short project_by_id st m = [(WARNING, NoHypervisor iid)]) \/
     (exists pid, invalid_project hyp_short project_by_id i pid /\
        turn_log hyp_short project_by_id st m =
          [(WARNING, InvalidProjectId iid pid)]) \/
     (exists h p, retained hyp_short project_by_id i iid h p /\
        turn_log hyp_short project_by_id st m = [])).
Proof.
  revert j st' l. induction k as [|k IH]; intros j st' l Hrun Hm; [lia|].
  rewrite seq_S, fold_each_app in Hrun. simpl in Hrun.
  apply bind_inv_done in Hrun as (j1 & st1 & l1 & l2 & E1 & E2 & ->).
  destruct (decide (m = k)) as [->|Hne]; [|eapply IH; [done|lia]].
  apply join_loop_inv in E1 as (-> & _ & _).
  apply bind_inv_done in E2 as (j2 & st2 & l3 & l4 & E2 & _ & _).
  apply join_instance_inv in E2
    as (_ & i & iid & Hk & Hid & [(Hno & _ & _)|[(pid & Hbad & _ & _)|(h & p & Hret & _ & _)]]);
    exists i, iid; (split; [done|]); (split; [done|]).
  - left. split; [done|]. by eapply turn_log_without_hypervisor.
  - right; left. exists pid. split; [done|]. by eapply turn_log_invalid_project.
  - right; right. exists h, p. split; [done|]. by eapply turn_log_retained.
Qed.

(** Well-formed records whose references resolve do not stop the loop. *)
Lemma join_loop_progress st k :
  (forall m, (m < k)%nat ->
     exists i, st !! m = Some i /\ wf_instance i = true /\
               ~ unresolved hyp_short i) ->
  exists j,
    fold_each (join_instance hyp_short project_by_id)
      (Joined PyDict.empty PyDict.empty) (seq 0 k) st =
    Result (Done j) st
      (concat (map (turn_log hyp_short project_by_id st) (seq 0 k))).
Proof.
  induction k as [|k IH]; intros Hwf; [by eexists|].
  destruct IH as [j E]; [intros m Hm; apply Hwf; lia|].
  destruct (Hwf k) as (i & Hk & Hi & Hres); [lia|].
  rewrite seq_S, fold_each_app, (bind_done _ _ _ _ _ _ E). simpl.
  rewrite map_app, concat_app. simpl. rewrite app_nil_r.
  destruct (wf_instance_cases i Hi)
    as (iid & Hid & [Hno|[Hun|[(pid & Hbad)|(h & p & Hret)]]]); [|done|..].
  - rewrite (bind_done _ _ _ _ _ _
               (join_without_hypervisor _ _ j st k i iid Hk Hno Hid)).
    rewrite (turn_log_without_hypervisor _ _ st k i iid) by done.
    by eexists.
  - rewrite (bind_done _ _ _ _ _ _
               (join_invalid_project _ _ j st k i iid pid Hk Hbad Hid)).
    rewrite (turn_log_invalid_project _ _ st k i iid pid) by done.
    by eexists.
  - rewrite (bind_done _ _ _ _ _ _
               (join_retained _ _ j st k i iid h p Hk Hret)).
    rewrite (turn_log_retained _ _ st k i iid h p) by done.
    by eexists.
Qed.

(** The first record whose reference does not resolve stops the loop. *)
Lemma join_loop_exit st k n i iid :
  (n < k)%nat ->
  (forall m, (m < n)%nat ->
     exists i, st !! m = Some i /\ wf_instance i = true /\
               ~ unresolved hyp_short i) ->
  st !! n = Some i -> unresolved hyp_short i -> i !! "id" = Some iid ->
  fold_each (join_instance hyp_short project_by_id)
    (Joined PyDict.empty PyDict.empty) (seq 0 k) st =
  Result (Exit 1) st
    (concat (map (turn_log hyp_short project_by_id st) (seq 0 n)) ++
     [(ERROR, UndeterminedHypervisor iid)]).
Proof.
  intros Hlt Hwf Hn Hun Hid.
  replace k with (n + S (k - S n))%nat by lia.
  rewrite seq_app, fold_each_app. simpl.
  destruct (join_loop_progress st n Hwf) as [j E].
  rewrite (bind_done _ _ _ _ _ _ E). simpl.
  by rewrite (bind_exit _ _ _ _ _ _ (join_unresolved _ _ j st n i iid Hn Hun Hid)).
Qed.
End join_progress.

(** * The properties of the specification *)

(** ** Hypervisor validation *)

(** The run stops at the first record of the report whose availability
    zone is blank. *)
Lemma first_blank_availability_zone_stops_run
    (hypervisor instance project : list row) (k : nat) (h : row) :
  Forall (has_fields ["availability_zone"; "id"]) hypervisor ->
  hypervisor !! k = Some h ->
  h !! "availability_zone" = Some VNone \/
    h !! "availability_zone" = Some (VStr "") ->
  exists k0 h0 hid,
    (k0 <= k)%nat /\ hypervisor !! k0 = Some h0 /\ az_blank h0 /\
    (forall k' h', (k' < k0)%nat -> hypervisor !! k' = Some h' -> az_defined h') /\
    h0 !! "id" = Some hid /\
    active_instances hypervisor instance project =
      Result (Exit 1) instance [(ERROR, NoAvailabilityZone hid)] /\
    yielded (active_instances hypervisor instance project) = [].
Proof.
  intros Hf Hk Hblank.
  assert (az_blank h) as Hb
    by (destruct Hblank as [E|E]; eexists; (split; [exact E|done])).
  assert (Forall (has_fields ["availability_zone"]) hypervisor) as Hf1.
  { eapply Forall_impl; [exact Hf|]. intros r Hr.
    apply Forall_cons_1 in Hr as [? _]. by constructor. }
  destruct (first_blank hypervisor Hf1)
    as [Hall|(pre & h0 & post & -> & Hpre & Hb0)].
  { rewrite Forall_forall in Hall. apply list_elem_of_lookup_2 in Hk.
    destruct (Hall h Hk) as (az & Eaz & Ht), Hb as (az' & Eaz' & Ht').
    congruence. }
  assert (h0 ∈ pre ++ h0 :: post) as Hin0
    by (apply elem_of_app; right; apply elem_of_cons; by left).
  rewrite Forall_forall in Hf. pose proof (Hf h0 Hin0) as Hf0.
  apply Forall_cons_1 in Hf0 as [_ Hf0].
  apply Forall_cons_1 in Hf0 as [[hid Hid] _].
  assert (active_instances (pre ++ h0 :: post) instance project =
          Result (Exit 1) instance [(ERROR, NoAvailabilityZone hid)]) as Hrun.
  { unfold active_instances. rewrite reconcile_unfold.
    by rewrite (bind_exit _ _ _ _ _ _
                  (check_loop_blank pre h0 post hid instance Hpre Hb0 Hid)). }
  exists (length pre), h0, hid.
  split; [|split; [|split; [done|split; [|split; [done|split; [done|]]]]]].
  - destruct (decide (length pre <= k)%nat) as [|Hgt]; [done|].
    rewrite lookup_app_l in Hk by lia. apply list_elem_of_lookup_2 in Hk.
    rewrite Forall_forall in Hpre.
    destruct (Hpre h Hk) as (az & Eaz & Ht), Hb as (az' & Eaz' & Ht').
    congruence.
  - by rewrite lookup_app_r, Nat.sub_diag by lia.
  - intros k' h' Hlt Hk'. rewrite lookup_app_l in Hk' by done.
    rewrite Forall_forall in Hpre. by eapply Hpre, list_elem_of_lookup_2.
  - unfold yielded. by rewrite Hrun.
Qed.

(** C3. In a hypervisor report whose records carry the fields [id] and
    [availability_zone], if some record has an availability zone that is
    [None] or empty, the run stops with [sys.exit(1)] and yields nothing. The
    only thing it has logged is one error, which names the first record of
    the report with a blank zone: the record itself when no record before it
    has one. The check comes first: no warning about a short name or an
    instance is in the log, and the store of instances is as fetched. *)
Theorem missing_availability_zone_is_fatal
    (hypervisor instance project : list row) (k : nat) (h : row) (hid : value) :
  Forall (has_fields ["availability_zone"; "id"]) hypervisor ->
  hypervisor !! k = Some h ->
  h !! "availability_zone" = Some VNone \/
    h !! "availability_zone" = Some (VStr "") ->
  h !! "id" = Some hid ->
  exists named,
    active_instances hypervisor instance project =
      Result (Exit 1) instance [(ERROR, NoAvailabilityZone named)] /\
    yielded (active_instances hypervisor instance project) = [] /\
    (exists k0 h0,
       (k0 <= k)%nat /\ hypervisor !! k0 = Some h0 /\ az_blank h0 /\
       h0 !! "id" = Some named /\
       forall k' h', (k' < k0)%nat -> hypervisor !! k' = Some h' ->
                     az_defined h') /\
    ((forall k' h', (k' < k)%nat -> hypervisor !! k' = Some h' -> az_defined h') ->
     named = hid).
Proof.
  intros Hf Hk Hblank Hid.
  destruct (first_blank_availability_zone_stops_run
              hypervisor instance project k h Hf Hk Hblank)
    as (k0 & h0 & named & Hle & Hk0 & Hb0 & Hfirst & Hid0 & Hrun & Hyield).
  exists named. split; [done|]. split; [done|]. split.
  - exists k0, h0. by repeat (split; [done|]).
  - intros Hbefore. destruct (decide (k0 = k)) as [->|Hne]; [congruence|].
    destruct (Hbefore k0 h0 ltac:(lia) Hk0) as (az & Eaz & Ht).
    destruct Hb0 as (az' & Eaz' & Ht'). congruence.
Qed.

Lemma missing_availability_zone_is_fatal_witness :
  exists named,
    active_instances [H1; H3; H2] [I4] [P1] =
      Result (Exit 1) [I4] [(ERROR, NoAvailabilityZone named)] /\
    yielded (active_instances [H1; H3; H2] [I4] [P1]) = [] /\
    (exists k0 h0,
       (k0 <= 1)%nat /\ [H1; H3; H2] !! k0 = Some h0 /\ az_blank h0 /\
       h0 !! "id" = Some named /\
       forall k' h', (k' < k0)%nat -> [H1; H3; H2] !! k' = Some h' ->
                     az_defined h') /\
    ((forall k' h', (k' < 1)%nat -> [H1; H3; H2] !! k' = Some h' -> az_defined h') ->
     named = VInt 3).
Proof.
  apply (missing_availability_zone_is_fatal [H1; H3; H2] [I4] [P1] 1 H3 (VInt 3)).
  - by apply (bool_decide_unpack _).
  - reflexivity.
  - right. reflexivity.
  - reflexivity.
Defined.

(** ** Short-name resolution *)

(** The table for a report of two records with one short name. *)
Lemma build_hyp_short_pair h1 h2 s :
  wf_hypervisor h1 = true -> wf_hypervisor h2 = true ->
  timestamps_comparable [h1; h2] = true ->
  short_name_of h1 = Some s -> short_name_of h2 = Some s ->
  res_outcome (build_hyp_short [h1; h2]) =
    Done {[ s := if older h2 h1 then h1 else h2 ]}.
Proof.
  intros Hw1 Hw2 Hc Hs1 Hs2.
  destruct (wf_hypervisor_fields h1 Hw1) as (id1 & _ & a1 & n1 & Hid1 & _ & Ha1 & Hn1).
  destruct (wf_hypervisor_fields h2 Hw2) as (id2 & _ & a2 & n2 & Hid2 & _ & Ha2 & Hn2).
  unfold short_name_of in Hs1, Hs2. rewrite Hn1 in Hs1. rewrite Hn2 in Hs2.
  injection Hs1 as <-. injection Hs2 as Hs2.
  destruct (timestamps_comparable_spec [h1; h2] h2 h1 Hc)
    as (a & b & Ea & Eb & Hab);
    [apply elem_of_cons; right; apply elem_of_cons; by left
    |apply elem_of_cons; by left|].
  unfold build_hyp_short. simpl.
  rewrite (bind_done _ _ _ _ _ _
             (add_hyp_short_fresh ∅ h1 n1 [] Hn1 (lookup_empty _))). simpl.
  assert (<[before_dot n1 := h1]> (∅ : gmap string row) !! before_dot n2 = Some h1)
    as Hl by (rewrite Hs2; apply lookup_insert_eq).
  rewrite (bind_done _ _ _ _ _ _
             (add_hyp_short_seen _ h2 h1 n2 id2 id1 a b [] Hn2 Hl Hid1 Hid2 Ea Eb Hab)).
  simpl. f_equal. rewrite Hs2. destruct (older h2 h1); [done|].
  by rewrite insert_insert_eq.
Qed.

(** C1, as stated, fails. [T1] and [T2] share the short name [a] and were
    seen at the same time; the claim keeps [T1], the first in the report, but
    the table binds [a] to [T2]. *)
Lemma tie_keeps_first_counterexample :
  short_name_of T1 = Some "a" /\ short_name_of T2 = Some "a" /\
  T1 !! "last_seen" = T2 !! "last_seen" /\
  ~ (exists hyp_short,
       res_outcome (build_hyp_short [T1; T2]) = Done hyp_short /\
       hyp_short !! "a" = Some T1).
Proof.
  split; [reflexivity|]. split; [reflexivity|]. split; [reflexivity|].
  intros (hyp_short & Hrun & Hkept).
  rewrite (build_hyp_short_pair T1 T2 "a") in Hrun by reflexivity.
  injection Hrun as <-. vm_compute in Hkept. discriminate Hkept.
Qed.

(** C1, amended. On a report of well-formed hypervisor records with
    comparable timestamps the loop ends normally, and for every pair of
    records [h1], [h2] of the report with one short name [s], the table binds
    [s] to a record [w] of the report with that short name which was seen at
    least as late as both ([w] is older than neither), and a record of the pair
    seen exactly as late as [w] does not stand after [w]: among the most
    recently seen records the last of the report is kept. When the report is
    the pair, [h1] is kept when [h2] is older than [h1] and [h2] otherwise, so
    also when the two were seen at the same time. *)
Theorem hyp_short_keeps_most_recent_then_last (hypervisor : list row) :
  forallb wf_hypervisor hypervisor = true ->
  timestamps_comparable hypervisor = true ->
  exists hyp_short warnings,
    build_hyp_short hypervisor = Result (Done hyp_short) [] warnings /\
    forall j1 j2 h1 h2 s,
      (j1 < j2)%nat ->
      hypervisor !! j1 = Some h1 -> hypervisor !! j2 = Some h2 ->
      short_name_of h1 = Some s -> short_name_of h2 = Some s ->
      exists k w,
        hyp_short !! s = Some w /\ hypervisor !! k = Some w /\
        short_name_of w = Some s /\
        older w h1 = false /\ older w h2 = false /\
        (older h1 w = false -> (j1 <= k)%nat) /\
        (older h2 w = false -> (j2 <= k)%nat) /\
        (hypervisor = [h1; h2] -> w = if older h2 h1 then h1 else h2).
Proof.
  intros Hwf Hcmp. rewrite forallb_forall in Hwf.
  assert (Forall (fun h => wf_hypervisor h = true) hypervisor) as Hwf'.
  { apply Forall_forall. intros h Hh. by apply Hwf, list_elem_of_In. }
  destruct (build_hyp_short_resolves hypervisor Hwf' Hcmp)
    as (hyp_short & l & Hrun & Hres).
  exists hyp_short, l. split; [done|].
  intros j1 j2 h1 h2 s Hlt Hj1 Hj2 Hs1 Hs2.
  pose proof (Hres s) as R. destruct (hyp_short !! s) as [w|] eqn:Hw.
  2:{ apply list_elem_of_lookup_2 in Hj1. by destruct (R h1 Hj1). }
  destruct R as (k & Hk & Hsw & R). exists k, w.
  destruct (R j1 h1 Hj1 Hs1) as [R1 R1'], (R j2 h2 Hj2 Hs2) as [R2 R2'].
  split; [done|]. split; [done|]. split; [done|]. split; [done|].
  split; [done|]. split; [|split].
  - intros Ho. destruct (decide (j1 <= k)%nat) as [|Hgt]; [done|].
    rewrite R1' in Ho by lia. done.
  - intros Ho. destruct (decide (j2 <= k)%nat) as [|Hgt]; [done|].
    rewrite R2' in Ho by lia. done.
  - intros ->.
    pose proof (build_hyp_short_pair h1 h2 s) as Hpair.
    rewrite Hrun in Hpair. simpl in Hpair.
    assert (Done hyp_short = Done ({[s := if older h2 h1 then h1 else h2]} : gmap string row))
      as [= ->].
    { apply Hpair; try done; apply Hwf; simpl; auto. }
    rewrite lookup_singleton_eq in Hw. congruence.
Qed.

Lemma hyp_short_keeps_most_recent_then_last_witness :
  exists hyp_short warnings,
    build_hyp_short [T1; H3; T2] = Result (Done hyp_short) [] warnings /\
    forall j1 j2 h1 h2 s,
      (j1 < j2)%nat ->
      [T1; H3; T2] !! j1 = Some h1 -> [T1; H3; T2] !! j2 = Some h2 ->
      short_name_of h1 = Some s -> short_name_of h2 = Some s ->
      exists k w,
        hyp_short !! s = Some w /\ [T1; H3; T2] !! k = Some w /\
        short_name_of w = Some s /\
        older w h1 = false /\ older w h2 = false /\
        (older h1 w = false -> (j1 <= k)%nat) /\
        (older h2 w = false -> (j2 <= k)%nat) /\
        ([T1; H3; T2] = [h1; h2] -> w = if older h2 h1 then h1 else h2).
Proof.
  apply (hyp_short_keeps_most_recent_then_last [T1; H3; T2]); reflexivity.
Defined.

(** ** The decorated records *)

(** The references that a run returns are those bound in [instance_by_id],
    each once. *)
Lemma refs_of_joined hyp_short project_by_id st k j n :
  joined_upto hyp_short project_by_id st k j ->
  n ∈ PyDict.values (instance_by_id j) <->
  exists iid, PyDict.get iid (instance_by_id j) = Some n.
Proof.
  intros (_ & Hnd & _). split.
  - intros [iid Hin]%PyDictFacts.elem_of_values. exists iid.
    by apply PyDictFacts.elem_of_get.
  - intros [iid Hget]. apply PyDictFacts.get_Some_elem_of in Hget.
    unfold PyDict.values. apply list_elem_of_fmap. by exists (iid, n).
Qed.

(** C2, as stated, fails. After the run of scenario 6 the fetched instance
    set is not as fetched: the record [I4] in it has the availability zone of
    the hypervisor and a new field; the record that the run yields is that
    very object, not a copy next to an intact original. *)
Lemma enrichment_copies_counterexample :
  let r := active_instances [H1; H2] [I4] [P1] in
  res_outcome r = Done [0%nat] /\
  res_store r <> [I4] /\
  (exists i', res_store r !! 0%nat = Some i' /\ yielded r = [i'] /\
     I4 !! "availability_zone" = Some (VStr "stale-az") /\
     i' !! "availability_zone" = Some (VStr "az2") /\
     I4 !! "project_display_name" = None /\
     i' !! "project_display_name" = Some (VStr "Team Alpha")).
Proof.
  assert (active_instances [H1; H2] [I4] [P1] =
          Result (Done [0%nat])
            [<["project_display_name" := VStr "Team Alpha"]>
               (<["availability_zone" := VStr "az2"]> I4)]
            [(DEBUG, CheckedHypervisorAZ);
             (WARNING, DuplicateShortNames "a" (VInt 1) (VInt 2));
             (DEBUG, CheckedInstanceHypervisors)]) as E
    by (vm_compute; reflexivity).
  cbv zeta. rewrite E. simpl. split; [done|]. split.
  - intros Heq.
    apply (f_equal (fun st : store =>
                      match st !! 0%nat with
                      | Some i => i !! "project_display_name"
                      | None => None
                      end)) in Heq.
    vm_compute in Heq. discriminate Heq.
  - eexists. split; [reflexivity|]. split; [reflexivity|].
    split; [reflexivity|]. split; [|split; [reflexivity|]].
    + by rewrite lookup_insert_ne, lookup_insert_eq.
    + by rewrite lookup_insert_eq.
Qed.

(** C2, amended. The decoration assigns to the fetched instance objects
    themselves. After a run that returns, a fetched record that the run
    yields stands in the fetched set with [availability_zone] overwritten and
    [project_display_name] added, all its other fields as fetched; a fetched
    record that the run does not yield is exactly as fetched; and the set has
    as many records as before. *)
Theorem enrichment_updates_fetched_records_in_place
    (hypervisor instance project : list row) refs st' log :
  active_instances hypervisor instance project = Result (Done refs) st' log ->
  length st' = length instance /\
  forall n i, instance !! n = Some i ->
    (n ∈ refs ->
       exists new_az name,
         st' !! n = Some (<["project_display_name" := name]>
                            (<["availability_zone" := new_az]> i))) /\
    (n ∉ refs -> st' !! n = Some i).
Proof.
  intros Hrun. split.
  { pose proof (reconcile_length hypervisor project (length instance) instance) as Hlen.
    unfold active_instances in Hrun. by rewrite Hrun in Hlen. }
  destruct (active_instances_done _ _ _ _ _ _ Hrun)
    as (hyp_short & lh & project_by_id & j & _ & _ & _ & Hinv & -> & _ & Hdec & Hother).
  intros n i Hn. split.
  - intros [iid Hget]%(refs_of_joined _ _ _ _ _ _ Hinv).
    destruct (Hdec iid n Hget) as (i0 & h & Hi0 & _ & Hok & Hst').
    simplify_eq.
    destruct (decorate_done _ _ _ Hok) as (new_az & pid & p & name & _ & _ & _ & _ & _ & Heq).
    exists new_az, name. by rewrite Hst', Heq.
  - intros Hnot. by rewrite Hother.
Qed.

Lemma enrichment_updates_fetched_records_in_place_witness :
  length [<["project_display_name" := VStr "Team Alpha"]>
            (<["availability_zone" := VStr "az2"]> I4); I1] = length [I4; I1] /\
  forall n i, [I4; I1] !! n = Some i ->
    (n ∈ [0%nat] ->
       exists new_az name,
         [<["project_display_name" := VStr "Team Alpha"]>
            (<["availability_zone" := VStr "az2"]> I4); I1] !! n =
         Some (<["project_display_name" := name]>
                 (<["availability_zone" := new_az]> i))) /\
    (n ∉ [0%nat] ->
       [<["project_display_name" := VStr "Team Alpha"]>
          (<["availability_zone" := VStr "az2"]> I4); I1] !! n = Some i).
Proof.
  apply (enrichment_updates_fetched_records_in_place [H1; H2] [I4; I1] [P1] [0%nat]
           _
           [(DEBUG, CheckedHypervisorAZ);
            (WARNING, DuplicateShortNames "a" (VInt 1) (VInt 2));
            (WARNING, NoHypervisor (VStr "I1"));
            (DEBUG, CheckedInstanceHypervisors)]).
  vm_compute. reflexivity.
Defined.

(** C7. After a run that returns, every record that the run yields carries
    as [availability_zone] the availability zone of the hypervisor record to
    which the short name of its [hypervisor] field is bound in [hyp_short],
    whatever the record reported itself, and as [project_display_name] the
    [display_name] of the project record to which its [project_id] is bound in
    [project_by_id]; both are present. *)
Theorem enriched_fields_come_from_hypervisor_and_project
    (hypervisor instance project : list row) refs st' log :
  active_instances hypervisor instance project = Result (Done refs) st' log ->
  exists hyp_short warnings project_by_id,
    build_hyp_short hypervisor = Result (Done hyp_short) [] warnings /\
    build_project_by_id project = Result (Done project_by_id) [] [] /\
    forall n, n ∈ refs ->
      exists i i' name h pid p az display_name,
        instance !! n = Some i /\ st' !! n = Some i' /\
        i !! "hypervisor" = Some (VStr name) /\
        hyp_short !! before_dot name = Some h /\
        i !! "project_id" = Some pid /\ project_by_id !! pid = Some p /\
        h !! "availability_zone" = Some az /\
        i' !! "availability_zone" = Some az /\
        p !! "display_name" = Some display_name /\
        i' !! "project_display_name" = Some display_name.
Proof.
  intros Hrun.
  destruct (active_instances_done _ _ _ _ _ _ Hrun)
    as (hyp_short & lh & project_by_id & j & _ & Hhs & Hpb & Hinv & -> & _ & Hdec & _).
  exists hyp_short, lh, project_by_id. split; [done|]. split; [done|].
  intros n [iid Hget]%(refs_of_joined _ _ _ _ _ _ Hinv).
  destruct (Hdec iid n Hget) as (i & h & Hi & Hh & Hok & Hst').
  pose proof Hinv as (_ & _ & Hbound & _).
  destruct (Hbound iid n Hget) as (_ & i0 & h0 & p & Hi0 & Hret & Hh0).
  simplify_eq. destruct Hret as (name & pid & Hhyp & Hs & Hpid & Hp & Hid).
  destruct (decorate_done _ _ _ Hok)
    as (new_az & pid' & p' & dn & _ & Haz & Hpid' & Hp' & Hdn & Heq).
  simplify_eq.
  exists i, (decorate project_by_id h i).2, name, h, pid, p, new_az, dn.
  rewrite Heq in Hst' |- *. repeat (split; [done|]). split.
  - by rewrite lookup_insert_ne, lookup_insert_eq.
  - split; [done|]. by rewrite lookup_insert_eq.
Qed.

Lemma enriched_fields_come_from_hypervisor_and_project_witness :
  exists hyp_short warnings project_by_id,
    build_hyp_short [H1; H2] = Result (Done hyp_short) [] warnings /\
    build_project_by_id [P1] = Result (Done project_by_id) [] [] /\
    forall n, n ∈ [0%nat] ->
      exists i i' name h pid p az display_name,
        [I4; I1] !! n = Some i /\
        [<["project_display_name" := VStr "Team Alpha"]>
           (<["availability_zone" := VStr "az2"]> I4); I1] !! n = Some i' /\
        i !! "hypervisor" = Some (VStr name) /\
        hyp_short !! before_dot name = Some h /\
        i !! "project_id" = Some pid /\ project_by_id !! pid = Some p /\
        h !! "availability_zone" = Some az /\
        i' !! "availability_zone" = Some az /\
        p !! "display_name" = Some display_name /\
        i' !! "project_display_name" = Some display_name.
Proof.
  apply (enriched_fields_come_from_hypervisor_and_project [H1; H2] [I4; I1] [P1]
           [0%nat] _
           [(DEBUG, CheckedHypervisorAZ);
            (WARNING, DuplicateShortNames "a" (VInt 1) (VInt 2));
            (WARNING, NoHypervisor (VStr "I1"));
            (DEBUG, CheckedInstanceHypervisors)]).
  vm_compute. reflexivity.
Defined.

(** C8. A second run over the same reports gives what the first gave. The
    first run has assigned to the fetched instance objects, so the second run
    is the run on the store that the first one left: it has the same outcome,
    returns the same references, leaves the same store and writes the same
    log; the records it yields are therefore the same, field for field. *)
Theorem reconciliation_is_idempotent (hypervisor instance project : list row) :
  let first := active_instances hypervisor instance project in
  let second := active_instances hypervisor (res_store first) project in
  second = first /\ yielded second = yielded first.
Proof.
  cbv zeta.
  assert (active_instances hypervisor
            (res_store (active_instances hypervisor instance project)) project =
          active_instances hypervisor instance project) as E.
  { unfold active_instances.
    rewrite (reconcile_length hypervisor project (length instance) instance).
    apply reconcile_idempotent. }
  by rewrite E.
Qed.

(** C9. Every record that a run yields has an availability zone that is
    present and not empty: the zone was taken from a record of the hypervisor
    report, and the run went past the check of that report. *)
Theorem yielded_availability_zone_defined
    (hypervisor instance project : list row) :
  Forall az_defined (yielded (active_instances hypervisor instance project)).
Proof.
  unfold yielded.
  destruct (active_instances hypervisor instance project)
    as [[refs|c|e] st' l] eqn:Hrun; simpl; try constructor.
  destruct (active_instances_done _ _ _ _ _ _ Hrun)
    as (hyp_short & lh & project_by_id & j & Haz & Hhs & _ & Hinv & -> & _ & Hdec & _).
  apply Forall_forall. intros i' (n & Hin & Hn)%list_elem_of_omap.
  apply (refs_of_joined _ _ _ _ _ _ Hinv) in Hin as [iid Hget].
  destruct (Hdec iid n Hget) as (i & h & Hi & Hh & Hok & Hst').
  pose proof Hinv as (_ & _ & Hbound & _).
  destruct (Hbound iid n Hget) as (_ & i0 & h0 & p & Hi0 & Hret & Hh0).
  simplify_eq. destruct Hret as (name & pid & _ & Hs & _).
  destruct (build_hyp_short_inv _ _ _ _ Hhs _ _ Hs) as [Hmem _].
  rewrite Forall_forall in Haz. destruct (Haz h Hmem) as (az & Eaz & Ht).
  destruct (decorate_done _ _ _ Hok)
    as (new_az & pid' & p' & dn & _ & Haz' & _ & _ & _ & Heq).
  simplify_eq. exists az. split; [|done].
  rewrite Heq. by rewrite lookup_insert_ne, lookup_insert_eq.
Qed.

(** ** The log of a run *)

Lemma filter_concat {X} (f : X -> bool) (ls : list (list X)) :
  List.filter f (concat ls) = concat (map (List.filter f) ls).
Proof.
  induction ls as [|l ls IH]; [done|]. simpl. by rewrite List.filter_app, IH.
Qed.

Lemma add_hyp_short_log hyp_short h st hyp_short' st' l iid :
  add_hyp_short hyp_short h st = Result (Done hyp_short') st' l ->
  List.filter (about_instance iid) l = [].
Proof.
  intros H. unfold add_hyp_short in H. exec_in H.
  all: try (unfold py_lt in H; exec_in H).
  all: unfold ret in H; by simplify_eq.
Qed.

(** The warnings of the short-name resolution are about hypervisors. *)
Lemma build_hyp_short_log hs m0 st m st' l iid :
  fold_each add_hyp_short m0 hs st = Result (Done m) st' l ->
  List.filter (about_instance iid) l = [].
Proof.
  revert m0 st l. induction hs as [|h hs IH]; intros m0 st l; simpl.
  - by intros [= <- <- <-].
  - intros (m1 & st1 & l1 & l2 & E1 & E2 & ->)%bind_inv_done.
    rewrite List.filter_app, (add_hyp_short_log _ _ _ _ _ _ _ E1).
    by rewrite (IH _ _ _ E2).
Qed.

Section turn_logs.
Context (hyp_short : gmap string row) (project_by_id : gmap value row).
Context (st : store) (k : nat) (j : joined) (st' : store) (l : list log_entry).
Hypothesis Hloop :
  fold_each (join_instance hyp_short project_by_id)
    (Joined PyDict.empty PyDict.empty) (seq 0 k) st = Result (Done j) st' l.

(** The turn for a record with another identifier logs nothing about
    [iid]. *)
Lemma turn_log_other m i iid :
  (m < k)%nat -> st !! m = Some i -> i !! "id" <> Some iid ->
  List.filter (about_instance iid) (turn_log hyp_short project_by_id st m) = [].
Proof.
  intros Hm Hi Hne.
  destruct (join_loop_turns _ _ _ _ _ _ _ m Hloop Hm)
    as (i' & iid' & Hi' & Hid' & [(_ & ->)|[(pid & _ & ->)|(h & p & _ & ->)]]);
    simplify_eq; simpl; try done.
  - unfold about_instance. simpl. rewrite bool_decide_eq_false_2; [done|congruence].
  - unfold about_instance. simpl. rewrite bool_decide_eq_false_2; [done|congruence].
Qed.

Lemma turn_logs_other ms iid :
  (forall m, m ∈ ms -> (m < k)%nat /\
     forall i, st !! m = Some i -> i !! "id" <> Some iid) ->
  List.filter (about_instance iid)
    (concat (map (turn_log hyp_short project_by_id st) ms)) = [].
Proof.
  induction ms as [|m ms IH]; intros Hms; [done|]. simpl.
  rewrite List.filter_app, IH.
  2:{ intros m' Hm'. apply Hms. apply elem_of_cons. by right. }
  destruct (Hms m) as [Hm Hid]; [apply elem_of_cons; by left|].
  destruct (join_loop_turns _ _ _ _ _ _ _ m Hloop Hm) as (i & _ & Hi & _).
  by rewrite (turn_log_other m i iid Hm Hi (Hid i Hi)).
Qed.

(** The log of the loop, split at the turn [n]. *)
Lemma turn_logs_split n :
  (n < k)%nat ->
  concat (map (turn_log hyp_short project_by_id st) (seq 0 k)) =
    concat (map (turn_log hyp_short project_by_id st) (seq 0 n)) ++
    turn_log hyp_short project_by_id st n ++
    concat (map (turn_log hyp_short project_by_id st) (seq (S n) (k - S n))).
Proof.
  intros Hn. replace k with (n + S (k - S n))%nat at 1 by lia.
  rewrite seq_app, map_app, concat_app. simpl. done.
Qed.

(** When no other record has the identifier [iid], what the loop logs about
    [iid] is what the turn [n] logs about it. *)
Lemma turn_logs_unique n iid :
  (n < k)%nat ->
  (forall m i, st !! m = Some i -> i !! "id" = Some iid -> m = n) ->
  List.filter (about_instance iid)
    (concat (map (turn_log hyp_short project_by_id st) (seq 0 k))) =
  List.filter (about_instance iid) (turn_log hyp_short project_by_id st n).
Proof.
  intros Hn Huniq. rewrite (turn_logs_split n Hn), !List.filter_app.
  rewrite !turn_logs_other, app_nil_r; [done| |].
  - intros m [Hge Hlt]%elem_of_seq. split; [lia|].
    intros i Hi Hid. specialize (Huniq m i Hi Hid). lia.
  - intros m [Hge Hlt]%elem_of_seq. split; [lia|].
    intros i Hi Hid. specialize (Huniq m i Hi Hid). lia.
Qed.
End turn_logs.

(** The log of a run that returns, as far as it is about the instance with
    identifier [iid]. *)
Lemma log_about_instance hypervisor instance project refs st' log iid :
  active_instances hypervisor instance project = Result (Done refs) st' log ->
  exists hyp_short warnings project_by_id,
    build_hyp_short hypervisor = Result (Done hyp_short) [] warnings /\
    build_project_by_id project = Result (Done project_by_id) [] [] /\
    List.filter (about_instance iid) log =
      List.filter (about_instance iid)
        (concat (map (turn_log hyp_short project_by_id instance)
                     (seq 0 (length instance)))).
Proof.
  intros Hrun.
  destruct (active_instances_done _ _ _ _ _ _ Hrun)
    as (hyp_short & lh & project_by_id & j & _ & Hhs & Hpb & _ & _ & -> & _).
  exists hyp_short, lh, project_by_id. split; [done|]. split; [done|].
  change ((DEBUG, CheckedHypervisorAZ) :: lh ++ ?x)
    with ([(DEBUG, CheckedHypervisorAZ)] ++ lh ++ x).
  rewrite !List.filter_app. simpl.
  by rewrite (build_hyp_short_log _ _ _ _ _ _ iid Hhs), app_nil_r.
Qed.

(** In a run that returns, the join loop has ended normally. *)
Lemma active_instances_done_loop
    hypervisor instance project refs st' log hyp_short warnings project_by_id :
  active_instances hypervisor instance project = Result (Done refs) st' log ->
  build_hyp_short hypervisor = Result (Done hyp_short) [] warnings ->
  build_project_by_id project = Result (Done project_by_id) [] [] ->
  exists j l,
    fold_each (join_instance hyp_short project_by_id)
      (Joined PyDict.empty PyDict.empty) (seq 0 (length instance)) instance =
    Result (Done j) instance l /\
    joined_upto hyp_short project_by_id instance (length instance) j /\
    refs = PyDict.values (instance_by_id j).
Proof.
  intros Hrun Hhs Hpb.
  destruct (active_instances_done _ _ _ _ _ _ Hrun)
    as (hs & lh & pb & j & Haz & Hhs' & Hpb' & Hinv & -> & _).
  rewrite Hhs in Hhs'. rewrite Hpb in Hpb'. simplify_eq.
  destruct (join_loop_agree hs pb (Joined PyDict.empty PyDict.empty)
              (seq 0 (length instance)) instance instance eq_refl)
    as (o & l & E & _).
  { intros n i Hn. exists i. split; [done|apply same_but_decoration_refl]. }
  rewrite (active_instances_joins _ _ _ _ _ _ Haz Hhs Hpb) in Hrun.
  unfold join_and_decorate in Hrun.
  destruct o as [j'|c|e].
  - exists j', l. split; [done|].
    destruct (join_loop_inv _ _ _ _ _ _ _ E) as (_ & Hinv' & _).
    split; [done|].
    rewrite (bind_done _ _ _ _ _ _ E) in Hrun. simpl in Hrun.
    rewrite bind_logger in Hrun. simpl in Hrun.
    injection Hrun as Ho _ _.
    unfold bind in Ho.
    destruct (for_each _ _ instance) as [[[]|c|e] st2 l2]; simpl in Ho;
      congruence.
  - by rewrite (bind_exit _ _ _ _ _ _ E) in Hrun.
  - by rewrite (bind_raised _ _ _ _ _ _ E) in Hrun.
Qed.

(** ** The join: fatal and recoverable conditions *)

(** The first record of a report that satisfies a decidable property. *)
Lemma first_such (P : row -> Prop) `{forall i, Decision (P i)}
    (instance : list row) n i :
  instance !! n = Some i -> P i ->
  exists m i0, (m <= n)%nat /\ instance !! m = Some i0 /\ P i0 /\
    forall m' i', (m' < m)%nat -> instance !! m' = Some i' -> ~ P i'.
Proof.
  revert i. induction n as [n IH] using lt_wf_ind. intros i Hn Hi.
  destruct (decide (Exists P (take n instance))) as [Hex|Hnone].
  - apply Exists_exists in Hex as (i1 & Hin & Hi1).
    apply list_elem_of_lookup in Hin as [m Hm].
    assert (m < n)%nat as Hlt.
    { apply lookup_lt_Some in Hm. rewrite length_take in Hm. lia. }
    rewrite lookup_take_lt in Hm by done.
    destruct (IH m Hlt i1 Hm Hi1) as (m0 & i0 & Hle & Hm0 & Hi0 & Hmin).
    exists m0, i0. split; [lia|done].
  - exists n, i. split; [done|]. split; [done|]. split; [done|].
    intros m' i' Hlt Hm' Hi'. apply Hnone, Exists_exists. exists i'.
    split; [|done]. apply list_elem_of_lookup. exists m'.
    by rewrite lookup_take_lt.
Qed.

(** The run stops at the first instance record whose hypervisor reference
    does not resolve. *)
Lemma first_unresolved_hypervisor_stops_run
    (hypervisor instance project : list row)
    hyp_short warnings project_by_id n i name iid :
  Forall az_defined hypervisor ->
  build_hyp_short hypervisor = Result (Done hyp_short) [] warnings ->
  build_project_by_id project = Result (Done project_by_id) [] [] ->
  (forall m i', (m < n)%nat -> instance !! m = Some i' -> wf_instance i' = true) ->
  instance !! n = Some i ->
  i !! "hypervisor" = Some (VStr name) ->
  hyp_short !! before_dot name = None ->
  i !! "id" = Some iid ->
  exists m i0 iid0,
    (m <= n)%nat /\ instance !! m = Some i0 /\ unresolved hyp_short i0 /\
    i0 !! "id" = Some iid0 /\
    (forall m' i', (m' < m)%nat -> instance !! m' = Some i' ->
       ~ unresolved hyp_short i') /\
    active_instances hypervisor instance project =
      Result (Exit 1) instance
        ((DEBUG, CheckedHypervisorAZ) :: warnings ++
         concat (map (turn_log hyp_short project_by_id instance) (seq 0 m)) ++
         [(ERROR, UndeterminedHypervisor iid0)]) /\
    yielded (active_instances hypervisor instance project) = [].
Proof.
  intros Haz Hhs Hpb Hwf Hn Hh Hs Hid.
  assert (unresolved hyp_short i) as Hun by (by exists name).
  destruct (first_such (unresolved hyp_short) instance n i Hn Hun)
    as (m & i0 & Hle & Hm & Hun0 & Hmin).
  assert (exists iid0, i0 !! "id" = Some iid0) as [iid0 Hid0].
  { destruct (decide (m = n)) as [->|Hne]; [simplify_eq; eauto|].
    assert (wf_instance i0 = true) as Hwf0 by (apply (Hwf m); [lia|done]).
    destruct (wf_instance_cases hyp_short project_by_id i0 Hwf0) as (x & ? & _).
    eauto. }
  assert (m < length instance)%nat as Hlt by (by eapply lookup_lt_Some).
  assert (active_instances hypervisor instance project =
      Result (Exit 1) instance
        ((DEBUG, CheckedHypervisorAZ) :: warnings ++
         concat (map (turn_log hyp_short project_by_id instance) (seq 0 m)) ++
         [(ERROR, UndeterminedHypervisor iid0)])) as Hrun.
  { assert (forall m', (m' < m)%nat ->
              exists i', instance !! m' = Some i' /\ wf_instance i' = true /\
                         ~ unresolved hyp_short i') as Hbefore.
    { intros m' Hm'.
      destruct (lookup_lt_is_Some_2 instance m') as [i' Hi']; [lia|].
      exists i'. split; [done|]. split; [apply (Hwf m'); [lia|done]|].
      by apply (Hmin m'). }
    rewrite (active_instances_joins _ _ _ _ _ _ Haz Hhs Hpb).
    unfold join_and_decorate.
    by rewrite (bind_exit _ _ _ _ _ _
                  (join_loop_exit hyp_short project_by_id instance
                     (length instance) m i0 iid0 Hlt Hbefore Hm Hun0 Hid0)). }
  exists m, i0, iid0. repeat (split; [done|]).
  unfold yielded. by rewrite Hrun.
Qed.

(** C4. In a run that reaches the join (the availability zones are defined
    and the two tables are built), if an instance record has a hypervisor
    reference that is not null and whose short name is not in [hyp_short], and
    the records before it are well-formed, the run stops with [sys.exit(1)]
    and yields nothing, whatever the [project_id] of the record: the project
    is not looked at. The store is as fetched. The last entry of the log is an
    error that names the first such record of the report: the record itself
    when no record before it is one. *)
Theorem unresolved_hypervisor_is_fatal
    (hypervisor instance project : list row)
    hyp_short warnings project_by_id n i name iid :
  Forall az_defined hypervisor ->
  build_hyp_short hypervisor = Result (Done hyp_short) [] warnings ->
  build_project_by_id project = Result (Done project_by_id) [] [] ->
  (forall m i', (m < n)%nat -> instance !! m = Some i' -> wf_instance i' = true) ->
  instance !! n = Some i ->
  i !! "hypervisor" = Some (VStr name) ->
  hyp_short !! before_dot name = None ->
  i !! "id" = Some iid ->
  exists m named,
    active_instances hypervisor instance project =
      Result (Exit 1) instance
        ((DEBUG, CheckedHypervisorAZ) :: warnings ++
         concat (map (turn_log hyp_short project_by_id instance) (seq 0 m)) ++
         [(ERROR, UndeterminedHypervisor named)]) /\
    yielded (active_instances hypervisor instance project) = [] /\
    (exists i0,
       (m <= n)%nat /\ instance !! m = Some i0 /\ unresolved hyp_short i0 /\
       i0 !! "id" = Some named /\
       forall m' i', (m' < m)%nat -> instance !! m' = Some i' ->
                     ~ unresolved hyp_short i') /\
    ((forall m' i', (m' < n)%nat -> instance !! m' = Some i' ->
        ~ unresolved hyp_short i') ->
     m = n /\ named = iid).
Proof.
  intros Haz Hhs Hpb Hwf Hn Hh Hs Hid.
  destruct (first_unresolved_hypervisor_stops_run
              hypervisor instance project hyp_short warnings project_by_id
              n i name iid Haz Hhs Hpb Hwf Hn Hh Hs Hid)
    as (m & i0 & named & Hle & Hm & Hun0 & Hid0 & Hfirst & Hrun & Hyield).
  exists m, named. split; [done|]. split; [done|]. split.
  - exists i0. by repeat (split; [done|]).
  - intros Hbefore. destruct (decide (m = n)) as [->|Hne].
    + split; [done|congruence].
    + by destruct (Hbefore m i0 ltac:(lia) Hm).
Qed.

Lemma unresolved_hypervisor_is_fatal_witness :
  exists m named,
    active_instances [H1; H2] [I1; I5; I4] [P1] =
      Result (Exit 1) [I1; I5; I4]
        ((DEBUG, CheckedHypervisorAZ) ::
         [(WARNING, DuplicateShortNames "a" (VInt 1) (VInt 2))] ++
         concat (map (turn_log {[ "a" := H2 ]} {[ VStr "P1" := P1 ]} [I1; I5; I4])
                     (seq 0 m)) ++
         [(ERROR, UndeterminedHypervisor named)]) /\
    yielded (active_instances [H1; H2] [I1; I5; I4] [P1]) = [] /\
    (exists i0,
       (m <= 1)%nat /\ [I1; I5; I4] !! m = Some i0 /\
       unresolved {[ "a" := H2 ]} i0 /\
       i0 !! "id" = Some named /\
       forall m' i', (m' < m)%nat -> [I1; I5; I4] !! m' = Some i' ->
                     ~ unresolved {[ "a" := H2 ]} i') /\
    ((forall m' i', (m' < 1)%nat -> [I1; I5; I4] !! m' = Some i' ->
        ~ unresolved {[ "a" := H2 ]} i') ->
     m = 1%nat /\ named = VStr "I5").
Proof.
  apply (unresolved_hypervisor_is_fatal [H1; H2] [I1; I5; I4] [P1]
           {[ "a" := H2 ]} [(WARNING, DuplicateShortNames "a" (VInt 1) (VInt 2))]
           {[ VStr "P1" := P1 ]} 1 I5 "unknown.example.com" (VStr "I5")).
  - by apply (bool_decide_unpack _).
  - vm_compute. reflexivity.
  - vm_compute. reflexivity.
  - intros [|m] i' Hm Hi'; [|lia]. injection Hi' as <-. reflexivity.
  - reflexivity.
  - reflexivity.
  - reflexivity.
  - reflexivity.
Defined.

(** What a run that returns says about one instance record. *)
Section dropped_record.
Context (hypervisor instance project : list row).
Context (refs : list nat) (st' : store) (log : list log_entry).
Hypothesis Hrun :
  active_instances hypervisor instance project = Result (Done refs) st' log.
Context (hyp_short : gmap string row) (warnings : list log_entry).
Context (project_by_id : gmap value row).
Hypothesis Hhs : build_hyp_short hypervisor = Result (Done hyp_short) [] warnings.
Hypothesis Hpb : build_project_by_id project = Result (Done project_by_id) [] [].

(** A record that the run yields was retained by the join. *)
Lemma yielded_ref_retained n :
  n ∈ refs ->
  exists i iid h p, instance !! n = Some i /\
    retained hyp_short project_by_id i iid h p.
Proof.
  intros Hin.
  destruct (active_instances_done_loop _ _ _ _ _ _ _ _ _ Hrun Hhs Hpb)
    as (j & l & _ & Hinv & ->).
  apply (refs_of_joined _ _ _ _ _ _ Hinv) in Hin as [iid Hget].
  pose proof Hinv as (_ & _ & Hbound & _).
  destruct (Hbound iid n Hget) as (_ & i & h & p & Hi & Hret & _).
  by exists i, iid, h, p.
Qed.

(** A record that the join does not retain is not yielded and stays in the
    fetched set as it was. *)
Lemma dropped_record_absent n i :
  instance !! n = Some i ->
  (forall iid h p, ~ retained hyp_short project_by_id i iid h p) ->
  (n ∉ refs) /\ st' !! n = Some i.
Proof.
  intros Hn Hdrop.
  assert (n ∉ refs) as Hnot.
  { intros (i' & iid & h & p & Hi' & Hret)%yielded_ref_retained.
    simplify_eq. by destruct (Hdrop iid h p). }
  split; [done|].
  destruct (active_instances_done _ _ _ _ _ _ Hrun)
    as (_ & _ & _ & _ & _ & _ & _ & _ & _ & _ & _ & Hother).
  by rewrite Hother.
Qed.

(** The log of the run, with the entries of the turn [n] set apart. *)
Lemma log_split_at n :
  (n < length instance)%nat ->
  log = (DEBUG, CheckedHypervisorAZ) :: warnings ++
        concat (map (turn_log hyp_short project_by_id instance) (seq 0 n)) ++
        turn_log hyp_short project_by_id instance n ++
        concat (map (turn_log hyp_short project_by_id instance)
                    (seq (S n) (length instance - S n))) ++
        [(DEBUG, CheckedInstanceHypervisors)].
Proof.
  intros Hn.
  destruct (active_instances_done _ _ _ _ _ _ Hrun)
    as (hs & lh & pb & j & _ & Hhs' & Hpb' & _ & _ & -> & _).
  rewrite Hhs in Hhs'. rewrite Hpb in Hpb'. simplify_eq.
  rewrite (turn_logs_split hs pb instance (length instance) n Hn).
  by rewrite <- !app_assoc.
Qed.

(** When no other record has the identifier, the entries of the log about
    it are those of the turn [n]. *)
Lemma log_about_unique n iid :
  (n < length instance)%nat ->
  (forall m i', instance !! m = Some i' -> i' !! "id" = Some iid -> m = n) ->
  List.filter (about_instance iid) log =
  List.filter (about_instance iid)
    (turn_log hyp_short project_by_id instance n).
Proof.
  intros Hn Huniq.
  destruct (log_about_instance _ _ _ _ _ _ iid Hrun)
    as (hs & lh & pb & Hhs' & Hpb' & ->).
  rewrite Hhs in Hhs'. rewrite Hpb in Hpb'. simplify_eq.
  destruct (active_instances_done_loop _ _ _ _ _ _ _ _ _ Hrun Hhs Hpb)
    as (j & l & Hloop & _).
  by apply (turn_logs_unique hs pb instance (length instance) j instance l Hloop).
Qed.
End dropped_record.

(** The fields that the join reads are those of the fetched record, also in
    what is yielded. *)
Lemma yielded_same_but_decoration hypervisor instance project i' :
  i' ∈ yielded (active_instances hypervisor instance project) ->
  exists hyp_short warnings project_by_id n i iid h p,
    build_hyp_short hypervisor = Result (Done hyp_short) [] warnings /\
    build_project_by_id project = Result (Done project_by_id) [] [] /\
    instance !! n = Some i /\ retained hyp_short project_by_id i iid h p /\
    same_but_decoration i i'.
Proof.
  unfold yielded.
  destruct (active_instances hypervisor instance project)
    as [[refs|c|e] st' l] eqn:Hrun; simpl; try by intros ?%elem_of_nil.
  intros (n & Hin & Hn)%list_elem_of_omap.
  destruct (active_instances_done _ _ _ _ _ _ Hrun)
    as (hs & lh & pb & j & _ & Hhs & Hpb & Hinv & -> & _ & Hdec & _).
  apply (refs_of_joined _ _ _ _ _ _ Hinv) in Hin as [iid Hget].
  destruct (Hdec iid n Hget) as (i & h & Hi & Hh & Hok & Hst').
  pose proof Hinv as (_ & _ & Hbound & _).
  destruct (Hbound iid n Hget) as (_ & i0 & h0 & p & Hi0 & Hret & Hh0).
  simplify_eq. exists hs, lh, pb, n, i, iid, h, p.
  repeat (split; [done|]). apply decorate_same_but_decoration.
Qed.

(** C5. An instance record whose hypervisor reference is null is dropped
    with one warning and the loop goes on. The turn of the loop for the
    record writes one entry to the log, the warning that names the identifier
    of the record, leaves the two dicts as they were and does not stop the
    run. No record that a run yields has a null hypervisor reference. In a
    run that returns, the record is not among those yielded and stands in the
    fetched set as fetched; the log has that one warning where the turn of
    the record stands; and when no other record has the identifier, it is the
    only entry of the log about the identifier. *)
Theorem null_hypervisor_instance_is_dropped
    (hypervisor instance project : list row) n i iid :
  instance !! n = Some i ->
  i !! "hypervisor" = Some VNone ->
  i !! "id" = Some iid ->
  (forall hyp_short project_by_id j,
     join_instance hyp_short project_by_id j n instance =
       Result (Done j) instance [(WARNING, NoHypervisor iid)]) /\
  (forall i', i' ∈ yielded (active_instances hypervisor instance project) ->
     i' !! "hypervisor" <> Some VNone) /\
  forall refs st' log,
    active_instances hypervisor instance project = Result (Done refs) st' log ->
    (n ∉ refs) /\ st' !! n = Some i /\
    exists hyp_short warnings project_by_id,
      build_hyp_short hypervisor = Result (Done hyp_short) [] warnings /\
      build_project_by_id project = Result (Done project_by_id) [] [] /\
      log = (DEBUG, CheckedHypervisorAZ) :: warnings ++
            concat (map (turn_log hyp_short project_by_id instance) (seq 0 n)) ++
            [(WARNING, NoHypervisor iid)] ++
            concat (map (turn_log hyp_short project_by_id instance)
                        (seq (S n) (length instance - S n))) ++
            [(DEBUG, CheckedInstanceHypervisors)] /\
      ((forall m i', instance !! m = Some i' -> i' !! "id" = Some iid -> m = n) ->
       List.filter (about_instance iid) log = [(WARNING, NoHypervisor iid)]).
Proof.
  intros Hn Hh Hid. split; [|split].
  - intros hyp_short project_by_id j. by apply (join_without_hypervisor _ _ j instance n i).
  - intros i' (hs & lh & pb & m & i0 & iid0 & h & p & _ & _ & _ & Hret & Hsame)%yielded_same_but_decoration.
    rewrite (Hsame "hypervisor") by done.
    destruct Hret as (name & pid & -> & _). done.
  - intros refs st' log Hrun.
    destruct (active_instances_done _ _ _ _ _ _ Hrun)
      as (hs & lh & pb & j & _ & Hhs & Hpb & _).
    assert (n < length instance)%nat as Hlt by (by eapply lookup_lt_Some).
    assert (forall x h p, ~ retained hs pb i x h p) as Hdrop.
    { intros x h p Hret. by apply retained_not_dropped in Hret as [? _]. }
    destruct (dropped_record_absent _ _ _ _ _ _ Hrun hs lh pb Hhs Hpb n i Hn Hdrop)
      as [Hnot Hst'].
    split; [done|]. split; [done|]. exists hs, lh, pb.
    split; [done|]. split; [done|].
    pose proof (turn_log_without_hypervisor hs pb instance n i iid Hn Hh Hid) as Hturn.
    split.
    + rewrite (log_split_at _ _ _ _ _ _ Hrun hs lh pb Hhs Hpb n Hlt). by rewrite Hturn.
    + intros Huniq.
      rewrite (log_about_unique _ _ _ _ _ _ Hrun hs lh pb Hhs Hpb n iid Hlt Huniq).
      rewrite Hturn. unfold about_instance. simpl. by rewrite bool_decide_eq_true_2.
Qed.

Lemma null_hypervisor_instance_is_dropped_witness :
  (forall hyp_short project_by_id j,
     join_instance hyp_short project_by_id j 1 [I4; I1; I2] =
       Result (Done j) [I4; I1; I2] [(WARNING, NoHypervisor (VStr "I1"))]) /\
  (forall i', i' ∈ yielded (active_instances [H1; H2] [I4; I1; I2] [P1]) ->
     i' !! "hypervisor" <> Some VNone) /\
  forall refs st' log,
    active_instances [H1; H2] [I4; I1; I2] [P1] = Result (Done refs) st' log ->
    (1%nat ∉ refs) /\ st' !! 1%nat = Some I1 /\
    exists hyp_short warnings project_by_id,
      build_hyp_short [H1; H2] = Result (Done hyp_short) [] warnings /\
      build_project_by_id [P1] = Result (Done project_by_id) [] [] /\
      log = (DEBUG, CheckedHypervisorAZ) :: warnings ++
            concat (map (turn_log hyp_short project_by_id [I4; I1; I2]) (seq 0 1)) ++
            [(WARNING, NoHypervisor (VStr "I1"))] ++
            concat (map (turn_log hyp_short project_by_id [I4; I1; I2])
                        (seq 2 (length [I4; I1; I2] - 2))) ++
            [(DEBUG, CheckedInstanceHypervisors)] /\
      ((forall m i', [I4; I1; I2] !! m = Some i' -> i' !! "id" = Some (VStr "I1") ->
          m = 1%nat) ->
       List.filter (about_instance (VStr "I1")) log =
         [(WARNING, NoHypervisor (VStr "I1"))]).
Proof.
  apply (null_hypervisor_instance_is_dropped [H1; H2] [I4; I1; I2] [P1] 1 I1 (VStr "I1"));
    reflexivity.
Defined.

(** C6. An instance record whose hypervisor reference resolves and whose
    [project_id] is not a key of [project_by_id] is dropped with one warning
    and the loop goes on. The turn of the loop for the record writes one
    entry to the log, the warning that names the identifier of the record and
    the project identifier, leaves the two dicts as they were and does not
    stop the run. In a run that returns, the record is not among those
    yielded and stands in the fetched set as fetched; the log has that one
    warning where the turn of the record stands; and when no other record has
    the identifier, it is the only entry of the log about the identifier.
    Every record that a run yields has a [project_id] that is a key of
    [project_by_id]. *)
Theorem invalid_project_instance_is_dropped
    (hypervisor instance project : list row) n i iid pid
    hyp_short warnings project_by_id :
  build_hyp_short hypervisor = Result (Done hyp_short) [] warnings ->
  build_project_by_id project = Result (Done project_by_id) [] [] ->
  instance !! n = Some i ->
  i !! "id" = Some iid ->
  invalid_project hyp_short project_by_id i pid ->
  (forall j,
     join_instance hyp_short project_by_id j n instance =
       Result (Done j) instance [(WARNING, InvalidProjectId iid pid)]) /\
  (forall i', i' ∈ yielded (active_instances hypervisor instance project) ->
     exists pid' p, i' !! "project_id" = Some pid' /\
                    project_by_id !! pid' = Some p) /\
  forall refs st' log,
    active_instances hypervisor instance project = Result (Done refs) st' log ->
    (n ∉ refs) /\ st' !! n = Some i /\
    log = (DEBUG, CheckedHypervisorAZ) :: warnings ++
          concat (map (turn_log hyp_short project_by_id instance) (seq 0 n)) ++
          [(WARNING, InvalidProjectId iid pid)] ++
          concat (map (turn_log hyp_short project_by_id instance)
                      (seq (S n) (length instance - S n))) ++
          [(DEBUG, CheckedInstanceHypervisors)] /\
    ((forall m i', instance !! m = Some i' -> i' !! "id" = Some iid -> m = n) ->
     List.filter (about_instance iid) log = [(WARNING, InvalidProjectId iid pid)]).
Proof.
  intros Hhs Hpb Hn Hid Hbad. split; [|split].
  - intros j. by apply (join_invalid_project _ _ j instance n i).
  - intros i' (hs & lh & pb & m & i0 & iid0 & h & p & Hhs' & Hpb' & _ & Hret & Hsame)%yielded_same_but_decoration.
    rewrite Hhs in Hhs'. rewrite Hpb in Hpb'. simplify_eq.
    rewrite (Hsame "project_id") by done.
    destruct Hret as (name & pid' & _ & _ & Hp & Hpb'' & _). eauto.
  - intros refs st' log Hrun.
    assert (n < length instance)%nat as Hlt by (by eapply lookup_lt_Some).
    assert (forall x h p, ~ retained hyp_short project_by_id i x h p) as Hdrop.
    { intros x h p Hret. apply retained_not_dropped in Hret as (_ & _ & Hret).
      by apply (Hret pid). }
    destruct (dropped_record_absent _ _ _ _ _ _ Hrun _ _ _ Hhs Hpb n i Hn Hdrop)
      as [Hnot Hst'].
    split; [done|]. split; [done|].
    pose proof (turn_log_invalid_project hyp_short project_by_id instance n i iid pid
                  Hn Hbad Hid) as Hturn.
    split.
    + rewrite (log_split_at _ _ _ _ _ _ Hrun _ _ _ Hhs Hpb n Hlt). by rewrite Hturn.
    + intros Huniq.
      rewrite (log_about_unique _ _ _ _ _ _ Hrun _ _ _ Hhs Hpb n iid Hlt Huniq).
      rewrite Hturn. unfold about_instance. simpl. by rewrite bool_decide_eq_true_2.
Qed.

Lemma invalid_project_instance_is_dropped_witness :
  (forall j,
     join_instance {[ "a" := H2 ]} {[ VStr "P1" := P1 ]} j 2 [I4; I1; I2] =
       Result (Done j) [I4; I1; I2]
         [(WARNING, InvalidProjectId (VStr "I2") (VStr "UNKNOWN"))]) /\
  (forall i', i' ∈ yielded (active_instances [H1; H2] [I4; I1; I2] [P1]) ->
     exists pid' p, i' !! "project_id" = Some pid' /\
                    ({[ VStr "P1" := P1 ]} : gmap value row) !! pid' = Some p) /\
  forall refs st' log,
    active_instances [H1; H2] [I4; I1; I2] [P1] = Result (Done refs) st' log ->
    (2%nat ∉ refs) /\ st' !! 2%nat = Some I2 /\
    log = (DEBUG, CheckedHypervisorAZ) ::
          [(WARNING, DuplicateShortNames "a" (VInt 1) (VInt 2))] ++
          concat (map (turn_log {[ "a" := H2 ]} {[ VStr "P1" := P1 ]} [I4; I1; I2])
                      (seq 0 2)) ++
          [(WARNING, InvalidProjectId (VStr "I2") (VStr "UNKNOWN"))] ++
          concat (map (turn_log {[ "a" := H2 ]} {[ VStr "P1" := P1 ]} [I4; I1; I2])
                      (seq 3 (length [I4; I1; I2] - 3))) ++
          [(DEBUG, CheckedInstanceHypervisors)] /\
    ((forall m i', [I4; I1; I2] !! m = Some i' -> i' !! "id" = Some (VStr "I2") ->
        m = 2%nat) ->
     List.filter (about_instance (VStr "I2")) log =
       [(WARNING, InvalidProjectId (VStr "I2") (VStr "UNKNOWN"))]).
Proof.
  apply (invalid_project_instance_is_dropped [H1; H2] [I4; I1; I2] [P1] 2 I2
           (VStr "I2") (VStr "UNKNOWN") {[ "a" := H2 ]}
           [(WARNING, DuplicateShortNames "a" (VInt 1) (VInt 2))]
           {[ VStr "P1" := P1 ]}).
  - vm_compute. reflexivity.
  - vm_compute. reflexivity.
  - reflexivity.
  - reflexivity.
  - exists "a.example.com". split; [reflexivity|]. split; [by eexists|].
    split; reflexivity.
Defined.

(** ** One record per identifier *)

Lemma values_by_keys {K V} `{EqDecision K} (dflt : V) (d : PyDict.t K V) :
  NoDup (PyDict.keys d) ->
  PyDict.values d = (fun k => default dflt (PyDict.get k d)) <$> PyDict.keys d.
Proof.
  induction d as [|[k v] d IH]; [done|]. intros Hnd.
  change (PyDict.keys ((k, v) :: d)) with (k :: PyDict.keys d) in *.
  change (PyDict.values ((k, v) :: d)) with (v :: PyDict.values d).
  apply NoDup_cons in Hnd as [Hk Hnd]. rewrite fmap_cons.
  f_equal.
  - simpl. by rewrite decide_True.
  - rewrite (IH Hnd). apply list_fmap_ext. intros n k' Hk'. simpl.
    rewrite decide_False; [done|]. intros ->. apply Hk.
    by eapply list_elem_of_lookup_2.
Qed.

Lemma filter_concat_nil {X} (f : X -> bool) (ls : list (list X)) :
  Forall (fun l => List.filter f l = []) ls -> List.filter f (concat ls) = [].
Proof.
  induction 1 as [|l ls Hl _ IH]; [done|]. simpl.
  by rewrite List.filter_app, Hl, IH.
Qed.

(** C10. A run that returns yields at most one record per identifier: the
    references it returns are distinct and no two of the yielded records have
    the same [id]. When several records of the fetched set pass the checks of
    the join with one identifier, the record yielded for the identifier is
    the last of them in the order of the report: for each such record there is
    a yielded record with the identifier that passes the checks and stands at
    or after it, and the record is itself yielded only if it is that one. The
    turn of the loop for a record that passes the checks writes nothing to the
    log, and when all the records with an identifier pass the checks the log
    of the run has no entry about the identifier. *)
Theorem one_record_per_identifier
    (hypervisor instance project : list row) refs st' log :
  active_instances hypervisor instance project = Result (Done refs) st' log ->
  exists hyp_short warnings project_by_id,
    build_hyp_short hypervisor = Result (Done hyp_short) [] warnings /\
    build_project_by_id project = Result (Done project_by_id) [] [] /\
    NoDup refs /\
    (forall n m i i', n ∈ refs -> m ∈ refs ->
       st' !! n = Some i -> st' !! m = Some i' ->
       i !! "id" = i' !! "id" -> n = m) /\
    (forall n i iid h p,
       instance !! n = Some i ->
       retained hyp_short project_by_id i iid h p ->
       turn_log hyp_short project_by_id instance n = [] /\
       exists m i_m h_m p_m,
         (n <= m)%nat /\ m ∈ refs /\ instance !! m = Some i_m /\
         retained hyp_short project_by_id i_m iid h_m p_m /\
         (n ∈ refs -> n = m)) /\
    (forall iid,
       (forall n i, instance !! n = Some i -> i !! "id" = Some iid ->
          exists h p, retained hyp_short project_by_id i iid h p) ->
       List.filter (about_instance iid) log = []).
Proof.
  intros Hrun.
  destruct (active_instances_done _ _ _ _ _ _ Hrun)
    as (hs & lh & pb & j & _ & Hhs & Hpb & Hinv & -> & _ & Hdec & _).
  destruct (active_instances_done_loop _ _ _ _ _ _ _ _ _ Hrun Hhs Hpb)
    as (j1 & l & Hloop & _ & _).
  pose proof Hinv as (Hkeys & Hnd & Hbound & Hlast).
  exists hs, lh, pb. split; [done|]. split; [done|].
  assert (forall n, n ∈ PyDict.values (instance_by_id j) ->
            exists iid i h p i', PyDict.get iid (instance_by_id j) = Some n /\
              instance !! n = Some i /\ retained hs pb i iid h p /\
              st' !! n = Some i' /\ i' !! "id" = Some iid) as Hyield.
  { intros n [iid Hget]%(refs_of_joined _ _ _ _ _ _ Hinv).
    destruct (Hbound iid n Hget) as (_ & i & h & p & Hi & Hret & Hh).
    destruct (Hdec iid n Hget) as (i0 & h0 & Hi0 & _ & _ & Hst').
    assert (i0 = i) as -> by congruence.
    exists iid, i, h, p, (decorate pb h0 i).2.
    repeat (split; [done|]).
    rewrite (decorate_same_but_decoration pb h0 i "id") by done.
    by destruct Hret as (? & ? & _ & _ & _ & _ & ?). }
  split; [|split; [|split]].
  - rewrite (values_by_keys 0%nat) by done.
    destruct (joined_upto_refs _ _ _ _ _ Hinv) as [Hnd' _].
    by rewrite Hkeys in Hnd'.
  - intros n m i i' Hn Hm Hi Hi' Hid.
    destruct (Hyield n Hn) as (iid & ? & ? & ? & x & Hget & _ & _ & Hx & Hidx).
    destruct (Hyield m Hm) as (iid' & ? & ? & ? & y & Hget' & _ & _ & Hy & Hidy).
    simplify_eq. rewrite Hidx, Hidy in Hid. simplify_eq. congruence.
  - intros n i iid h p Hn Hret.
    assert (n < length instance)%nat as Hlt by (by eapply lookup_lt_Some).
    split; [by eapply turn_log_retained|].
    destruct (Hlast n i iid h p Hlt Hn Hret) as (m & Hget & Hle).
    destruct (Hbound iid m Hget) as (_ & i_m & h_m & p_m & Hm & Hret_m & _).
    exists m, i_m, h_m, p_m. split; [done|].
    split; [apply (refs_of_joined _ _ _ _ _ _ Hinv); eauto|].
    split; [done|]. split; [done|].
    intros [iid' Hget']%(refs_of_joined _ _ _ _ _ _ Hinv).
    destruct (Hbound iid' n Hget') as (_ & i0 & h0 & p0 & Hi0 & Hret0 & _).
    simplify_eq.
    destruct (retained_functional _ _ _ _ _ _ _ _ _ Hret Hret0) as (-> & _).
    congruence.
  - intros iid Hall.
    destruct (log_about_instance _ _ _ _ _ _ iid Hrun)
      as (hs' & lh' & pb' & Hhs' & Hpb' & ->).
    rewrite Hhs in Hhs'. rewrite Hpb in Hpb'. simplify_eq.
    apply filter_concat_nil, Forall_forall.
    intros tl (m & -> & [_ Hm]%elem_of_seq)%list_elem_of_fmap.
    destruct (join_loop_turns _ _ _ _ _ _ _ m Hloop ltac:(lia))
      as (i & iid' & Hi & Hid & Hcase).
    destruct (decide (iid' = iid)) as [->|Hne].
    + destruct (Hall m i Hi Hid) as (h & p & Hret).
      by rewrite (turn_log_retained _ _ instance m i iid h p).
    + apply (turn_log_other _ _ instance (length instance) j1 instance l Hloop m i);
        [lia|done|congruence].
Qed.

Lemma one_record_per_identifier_witness :
  exists hyp_short warnings project_by_id,
    build_hyp_short [H1; H2; H4] = Result (Done hyp_short) [] warnings /\
    build_project_by_id [P1] = Result (Done project_by_id) [] [] /\
    NoDup [2%nat] /\
    (forall n m i i', n ∈ [2%nat] -> m ∈ [2%nat] ->
       [I4; I1;
        <["project_display_name" := VStr "Team Alpha"]>
          (<["availability_zone" := VStr "az3"]> I4')] !! n = Some i ->
       [I4; I1;
        <["project_display_name" := VStr "Team Alpha"]>
          (<["availability_zone" := VStr "az3"]> I4')] !! m = Some i' ->
       i !! "id" = i' !! "id" -> n = m) /\
    (forall n i iid h p,
       [I4; I1; I4'] !! n = Some i ->
       retained hyp_short project_by_id i iid h p ->
       turn_log hyp_short project_by_id [I4; I1; I4'] n = [] /\
       exists m i_m h_m p_m,
         (n <= m)%nat /\ m ∈ [2%nat] /\ [I4; I1; I4'] !! m = Some i_m /\
         retained hyp_short project_by_id i_m iid h_m p_m /\
         (n ∈ [2%nat] -> n = m)) /\
    (forall iid,
       (forall n i, [I4; I1; I4'] !! n = Some i -> i !! "id" = Some iid ->
          exists h p, retained hyp_short project_by_id i iid h p) ->
       List.filter (about_instance iid)
         [(DEBUG, CheckedHypervisorAZ);
          (WARNING, DuplicateShortNames "a" (VInt 1) (VInt 2));
          (WARNING, NoHypervisor (VStr "I1"));
          (DEBUG, CheckedInstanceHypervisors)] = []).
Proof.
  apply (one_record_per_identifier [H1; H2; H4] [I4; I1; I4'] [P1]).
  vm_compute. reflexivity.
Defined.

(** ** The scenarios of the specification *)

(** Scenario 1: of two hypervisors named [a], the one seen last is kept and
    the warning names both. *)
Example scenario_duplicate_short_name :
  build_hyp_short [H1; H2] =
    Result (Done {[ "a" := H2 ]}) []
           [(WARNING, DuplicateShortNames "a" (VInt 1) (VInt 2))].
Proof. vm_compute. reflexivity. Qed.

(** Scenario 2: a hypervisor without availability zone stops the run before
    any instance is looked at. *)
Example scenario_blank_availability_zone :
  active_instances [H1; H2; H3] [I1; I4] [P1] =
    Result (Exit 1) [I1; I4] [(ERROR, NoAvailabilityZone (VInt 3))].
Proof. vm_compute. reflexivity. Qed.

(** Scenarios 3, 4 and 6: [I1] and [I2] are dropped with a warning each,
    [I4] is yielded with the zone of [H2] and the name of [P1]. *)
Example scenario_drop_and_enrich :
  let r := active_instances [H1; H2] [I1; I2; I4] [P1] in
  res_outcome r = Done [2%nat] /\
  res_log r =
    [(DEBUG, CheckedHypervisorAZ);
     (WARNING, DuplicateShortNames "a" (VInt 1) (VInt 2));
     (WARNING, NoHypervisor (VStr "I1"));
     (WARNING, InvalidProjectId (VStr "I2") (VStr "UNKNOWN"));
     (DEBUG, CheckedInstanceHypervisors)] /\
  yielded r =
    [<["project_display_name" := VStr "Team Alpha"]>
       (<["availability_zone" := VStr "az2"]> I4)].
Proof. vm_compute. repeat split; reflexivity. Qed.

(** Scenario 5: an instance on a hypervisor that is not in the report stops
    the run. *)
Example scenario_unknown_hypervisor :
  active_instances [H1; H2] [I4; I3] [P1] =
    Result (Exit 1) [I4; I3]
      [(DEBUG, CheckedHypervisorAZ);
       (WARNING, DuplicateShortNames "a" (VInt 1) (VInt 2));
       (ERROR, UndeterminedHypervisor (VStr "I3"))].
Proof. vm_compute. reflexivity. Qed.

(** * Further properties of the run *)

(** ** Severity and exit *)

Section disciplined.
Context {A B : Type}.

Lemma disciplined_ret (a : A) : disciplined (ret a).
Proof. by intros st. Qed.

Lemma disciplined_raise e : disciplined (@raise A e).
Proof. by intros st. Qed.

Lemma disciplined_bind (m : M A) (f : A -> M B) :
  disciplined m -> (forall a, disciplined (f a)) -> disciplined (bind m f).
Proof.
  intros Hm Hf st. specialize (Hm st). unfold exits_on_error, bind in *.
  destruct (m st) as [[a|c|e] st1 l1]; simpl in *; try done.
  specialize (Hf a st1). unfold exits_on_error in Hf.
  destruct (f a st1) as [[b|c|e] st2 l2]; simpl in *.
  - by rewrite List.filter_app, Hm, Hf.
  - destruct Hf as (-> & l & msg & -> & Hl). split; [done|].
    exists (l1 ++ l), msg. split; [by rewrite app_assoc|].
    by rewrite List.filter_app, Hm, Hl.
  - by rewrite List.filter_app, Hm, Hf.
Qed.

(** [logger.error(...)] followed by [sys.exit(1)]. *)
Lemma disciplined_fatal msg : disciplined (logger ERROR msg ;; @sys_exit A 1).
Proof.
  intros st. unfold exits_on_error. rewrite bind_logger. simpl.
  split; [done|]. by exists [], msg.
Qed.
End disciplined.

Lemma disciplined_warning msg : disciplined (logger WARNING msg).
Proof. by intros st. Qed.

Lemma disciplined_debug msg : disciplined (logger DEBUG msg).
Proof. by intros st. Qed.

Lemma disciplined_getitem d k : disciplined (getitem d k).
Proof. unfold getitem. destruct (d !! k); [apply disciplined_ret|apply disciplined_raise]. Qed.

Lemma disciplined_split_dot_0 v : disciplined (split_dot_0 v).
Proof. destruct v; simpl; first [apply disciplined_ret|apply disciplined_raise]. Qed.

Lemma disciplined_py_lt a b : disciplined (py_lt a b).
Proof. destruct a, b; simpl; first [apply disciplined_ret|apply disciplined_raise]. Qed.

Lemma disciplined_deref n : disciplined (deref n).
Proof. intros st. unfold deref, exits_on_error. by destruct (st !! n). Qed.

Lemma disciplined_load n k : disciplined (load n k).
Proof.
  unfold load. apply disciplined_bind; [apply disciplined_deref|].
  intros i. apply disciplined_getitem.
Qed.

Lemma disciplined_setitem n k v : disciplined (setitem n k v).
Proof. intros st. unfold setitem, exits_on_error. by destruct (st !! n). Qed.

Lemma disciplined_for_each {X} (body : X -> M unit) xs :
  (forall x, disciplined (body x)) -> disciplined (for_each body xs).
Proof.
  intros Hb. induction xs as [|x xs IH]; simpl; [apply disciplined_ret|].
  apply disciplined_bind; [apply Hb|by intros _].
Qed.

Lemma disciplined_fold_each {X S} (body : S -> X -> M S) s xs :
  (forall s x, disciplined (body s x)) -> disciplined (fold_each body s xs).
Proof.
  intros Hb. revert s. induction xs as [|x xs IH]; intros s; simpl;
    [apply disciplined_ret|].
  apply disciplined_bind; [apply Hb|apply IH].
Qed.

Create HintDb disciplined discriminated.
#[local] Hint Resolve disciplined_ret disciplined_raise disciplined_fatal
  disciplined_warning disciplined_debug disciplined_getitem
  disciplined_split_dot_0 disciplined_py_lt disciplined_load
  disciplined_setitem : disciplined.
#[local] Hint Extern 2 (disciplined (bind _ _)) =>
  apply disciplined_bind; [|intros] : disciplined.
#[local] Hint Extern 1 (disciplined (match ?x with _ => _ end)) =>
  destruct x : disciplined.
#[local] Hint Extern 1 (disciplined (if ?x then _ else _)) =>
  destruct x : disciplined.

Lemma disciplined_check_availability_zone h :
  disciplined (check_availability_zone h).
Proof. unfold check_availability_zone. auto 10 with disciplined. Qed.

Lemma disciplined_add_hyp_short hyp_short h :
  disciplined (add_hyp_short hyp_short h).
Proof. unfold add_hyp_short. auto 20 with disciplined. Qed.

Lemma disciplined_add_project project_by_id p :
  disciplined (add_project project_by_id p).
Proof. unfold add_project. auto 10 with disciplined. Qed.

Lemma disciplined_join_instance hyp_short project_by_id j i :
  disciplined (join_instance hyp_short project_by_id j i).
Proof. unfold join_instance. auto 20 with disciplined. Qed.

Lemma disciplined_enrich project_by_id j iid :
  disciplined (enrich project_by_id j iid).
Proof. unfold enrich. auto 20 with disciplined. Qed.

Lemma disciplined_reconcile hypervisor project instance :
  disciplined (reconcile hypervisor project instance).
Proof.
  unfold reconcile.
  apply disciplined_bind;
    [apply disciplined_for_each, disciplined_check_availability_zone|intros _].
  apply disciplined_bind; [apply disciplined_debug|intros _].
  apply disciplined_bind;
    [apply disciplined_fold_each, disciplined_add_hyp_short|intros hyp_short].
  apply disciplined_bind;
    [apply disciplined_fold_each, disciplined_add_project|intros project_by_id].
  apply disciplined_bind;
    [apply disciplined_fold_each, disciplined_join_instance|intros j].
  apply disciplined_bind; [apply disciplined_debug|intros _].
  apply disciplined_bind;
    [apply disciplined_for_each, disciplined_enrich|intros _].
  apply disciplined_ret.
Qed.

(** Whatever the three reports hold, the run calls [sys.exit] only with
    status 1 and only just after logging an error, which is then the last
    entry of the log and its only entry of level error; a run that returns or
    dies on an exception has logged no error. *)
Theorem exit_status_and_error_level (hypervisor instance project : list row) :
  let r := active_instances hypervisor instance project in
  (forall c, res_outcome r = Exit c ->
     c = 1 /\
     exists l msg, res_log r = l ++ [(ERROR, msg)] /\
                   List.filter is_error l = []) /\
  ((forall c, res_outcome r <> Exit c) -> List.filter is_error (res_log r) = []).
Proof.
  cbv zeta.
  pose proof (disciplined_reconcile hypervisor project
                (seq 0 (length instance)) instance) as H.
  unfold exits_on_error in H. fold (active_instances hypervisor instance project) in H.
  destruct (res_outcome (active_instances hypervisor instance project)) as [a|c|e].
  - split; [by intros c [=]|done].
  - split; [by intros c' [= <-]|]. intros Hne. by destruct (Hne c).
  - split; [by intros c [=]|done].
Qed.

(** ** What a run may do to the fetched records *)

Section frames.
Context {A B : Type}.

Lemma frames_bind (m : M A) (f : A -> M B) :
  frames m -> (forall a, frames (f a)) -> frames (bind m f).
Proof.
  intros Hm Hf st. destruct (Hm st) as [Hlen Hrel]. unfold bind.
  destruct (m st) as [[a|c|e] st1 l1]; simpl in *; try done.
  destruct (Hf a st1) as [Hlen' Hrel'].
  destruct (f a st1) as [o st2 l2]. simpl in *. split; [lia|].
  intros n i Hn. destruct (Hrel n i Hn) as (i1 & Hi1 & H1).
  destruct (Hrel' n i1 Hi1) as (i2 & Hi2 & H2). exists i2.
  split; [done|]. by eapply same_but_decoration_trans.
Qed.

(** A computation that does not write to the store. *)
Lemma frames_read_only (m : M A) :
  (forall st, res_store (m st) = st) -> frames m.
Proof.
  intros Hm st. rewrite Hm. split; [done|]. intros n i Hn. exists i.
  split; [done|apply same_but_decoration_refl].
Qed.
End frames.

Lemma frames_pure {A} (m : M A) : pure m -> frames m.
Proof. intros Hm. apply frames_read_only. intros st. by rewrite (Hm st). Qed.

Lemma frames_load n k : frames (load n k).
Proof.
  apply frames_read_only. intros st. unfold load, bind, deref.
  destruct (st !! n) as [i|]; [|done]. unfold getitem. by destruct (i !! k).
Qed.

Lemma frames_setitem n k v :
  k = "availability_zone" \/ k = "project_display_name" ->
  frames (setitem n k v).
Proof.
  intros Hk st. unfold setitem.
  destruct (st !! n) as [r|] eqn:Hr; simpl.
  2:{ split; [done|]. intros m i Hm. exists i.
      split; [done|apply same_but_decoration_refl]. }
  split; [apply length_insert|]. intros m i Hm.
  destruct (decide (m = n)) as [->|Hne].
  - exists (<[k := v]> r). split.
    + apply list_lookup_insert_eq. by eapply lookup_lt_Some.
    + simplify_eq. intros k' H1 H2. apply lookup_insert_ne.
      destruct Hk; congruence.
  - exists i. rewrite list_lookup_insert_ne by done.
    split; [done|apply same_but_decoration_refl].
Qed.

Lemma frames_for_each {X} (body : X -> M unit) xs :
  (forall x, frames (body x)) -> frames (for_each body xs).
Proof.
  intros Hb. induction xs as [|x xs IH]; simpl; [apply frames_pure, pure_ret|].
  apply frames_bind; [apply Hb|by intros _].
Qed.

Lemma frames_fold_each {X S} (body : S -> X -> M S) s xs :
  (forall s x, frames (body s x)) -> frames (fold_each body s xs).
Proof.
  intros Hb. revert s. induction xs as [|x xs IH]; intros s; simpl;
    [apply frames_pure, pure_ret|].
  apply frames_bind; [apply Hb|apply IH].
Qed.

Create HintDb frames discriminated.
#[local] Hint Resolve frames_load pure_ret pure_raise pure_sys_exit pure_logger
  pure_getitem pure_split_dot_0 : frames.
#[local] Hint Extern 1 (frames (ret _)) => apply frames_pure : frames.
#[local] Hint Extern 1 (frames (raise _)) => apply frames_pure : frames.
#[local] Hint Extern 1 (frames (sys_exit _)) => apply frames_pure : frames.
#[local] Hint Extern 1 (frames (logger _ _)) => apply frames_pure : frames.
#[local] Hint Extern 1 (frames (getitem _ _)) => apply frames_pure : frames.
#[local] Hint Extern 1 (frames (split_dot_0 _)) => apply frames_pure : frames.
#[local] Hint Extern 1 (frames (setitem _ _ _)) =>
  apply frames_setitem; by auto : frames.
#[local] Hint Extern 2 (frames (bind _ _)) =>
  apply frames_bind; [|intros] : frames.
#[local] Hint Extern 1 (frames (match ?x with _ => _ end)) =>
  destruct x : frames.

Lemma frames_join_instance hyp_short project_by_id j i :
  frames (join_instance hyp_short project_by_id j i).
Proof. unfold join_instance. auto 20 with frames. Qed.

Lemma frames_enrich project_by_id j iid :
  frames (enrich project_by_id j iid).
Proof. unfold enrich. auto 20 with frames. Qed.

Lemma frames_reconcile hypervisor project instance :
  frames (reconcile hypervisor project instance).
Proof.
  unfold reconcile.
  apply frames_bind;
    [apply frames_pure, pure_for_each, pure_check_availability_zone|intros _].
  apply frames_bind; [apply frames_pure, pure_logger|intros _].
  apply frames_bind;
    [apply frames_pure, pure_fold_each, pure_add_hyp_short|intros hyp_short].
  apply frames_bind;
    [apply frames_pure, pure_fold_each, pure_add_project|intros project_by_id].
  apply frames_bind;
    [apply frames_fold_each, frames_join_instance|intros j].
  apply frames_bind; [apply frames_pure, pure_logger|intros _].
  apply frames_bind; [apply frames_for_each, frames_enrich|intros _].
  apply frames_pure, pure_ret.
Qed.

(** Whatever the reports hold and however the run ends (returning, exiting
    or dying on an exception in the middle of the decoration), the fetched
    instance set has as many records as before and every record in it has all
    the fields it had with the values it had, but for [availability_zone] and
    [project_display_name]. *)
Theorem run_touches_two_fields_only (hypervisor instance project : list row) :
  let r := active_instances hypervisor instance project in
  length (res_store r) = length instance /\
  forall n i, instance !! n = Some i ->
    exists i', res_store r !! n = Some i' /\
      forall k, k <> "availability_zone" -> k <> "project_display_name" ->
                i' !! k = i !! k.
Proof.
  apply (frames_reconcile hypervisor project (seq 0 (length instance)) instance).
Qed.

(** ** Well-formed reports never raise *)

Section update_loop_progress.
Context {X : Type} (ref : X -> nat) (upd : X -> row -> outcome unit * row).

(** When every rewriting succeeds on the object as it stands before the
    loop, the loop ends normally. *)
Lemma update_loop_progress xs st :
  NoDup (ref <$> xs) ->
  (forall x, x ∈ xs -> exists i, st !! ref x = Some i /\ (upd x i).1 = Done tt) ->
  res_outcome (for_each (fun x => update_object (ref x) (upd x)) xs st) = Done tt.
Proof.
  revert st. induction xs as [|x xs IH]; intros st Hnd Hok; [done|].
  simpl in Hnd. apply NoDup_cons in Hnd as [Hx Hnd]. simpl.
  destruct (Hok x) as (i & Hi & Hdone); [apply elem_of_cons; by left|].
  assert (update_object (ref x) (upd x) st =
          Result (Done tt) (<[ref x := (upd x i).2]> st) []) as Hstep
    by (unfold update_object; by rewrite Hi, Hdone).
  rewrite (bind_done _ _ _ _ _ _ Hstep). simpl. apply IH; [done|].
  intros y Hy. destruct (Hok y) as (i' & Hi' & Hdone'); [apply elem_of_cons; by right|].
  exists i'. split; [|done]. rewrite list_lookup_insert_ne; [done|].
  intros Heq. apply Hx. rewrite Heq. apply list_elem_of_fmap. eauto.
Qed.

(** When every rewriting either succeeds or dies on the exception [e], and
    one of them dies, the loop dies on [e]. *)
Lemma update_loop_raises xs st e :
  NoDup (ref <$> xs) ->
  (forall x, x ∈ xs -> exists i, st !! ref x = Some i /\
     ((upd x i).1 = Done tt \/ (upd x i).1 = Raised e)) ->
  (exists x i, x ∈ xs /\ st !! ref x = Some i /\ (upd x i).1 = Raised e) ->
  res_outcome (for_each (fun x => update_object (ref x) (upd x)) xs st) = Raised e.
Proof.
  revert st. induction xs as [|x xs IH]; intros st Hnd Hok (y & iy & Hy & Hiy & Hfail).
  { by apply elem_of_nil in Hy. }
  simpl in Hnd. apply NoDup_cons in Hnd as [Hx Hnd]. simpl.
  destruct (Hok x) as (i & Hi & [Hdone|Hraise]); [apply elem_of_cons; by left| |].
  - assert (update_object (ref x) (upd x) st =
            Result (Done tt) (<[ref x := (upd x i).2]> st) []) as Hstep
      by (unfold update_object; by rewrite Hi, Hdone).
    rewrite (bind_done _ _ _ _ _ _ Hstep). simpl.
    assert (forall z, z ∈ xs -> ref z <> ref x) as Hne.
    { intros z Hz Heq. apply Hx. rewrite <- Heq. apply list_elem_of_fmap. eauto. }
    apply elem_of_cons in Hy as [->|Hy]; [congruence|].
    apply IH; [done| |].
    + intros z Hz.
      destruct (Hok z) as (i' & Hi' & Hcase); [apply elem_of_cons; by right|].
      exists i'. split; [|done]. rewrite list_lookup_insert_ne; [done|].
      intros Heq. by apply (Hne z).
    + exists y, iy. split; [done|]. split; [|done].
      rewrite list_lookup_insert_ne; [done|]. intros Heq. by apply (Hne y).
  - assert (update_object (ref x) (upd x) st =
            Result (Raised e) (<[ref x := (upd x i).2]> st) []) as Hstep
      by (unfold update_object; by rewrite Hi, Hraise).
    by rewrite (bind_raised _ _ _ _ _ _ Hstep).
Qed.
End update_loop_progress.

Lemma wf_project_fields p :
  wf_project p = true ->
  exists pid name, p !! "id" = Some pid /\ p !! "display_name" = Some name.
Proof.
  unfold wf_project. intros Hf%bool_decide_eq_true.
  apply Forall_cons_1 in Hf as [[pid Hid] Hf].
  apply Forall_cons_1 in Hf as [[name Hname] _]. eauto.
Qed.

(** The project table of a report whose records have an [id]. *)
Lemma build_project_by_id_progress ps m0 st :
  Forall (fun p => is_Some (p !! "id")) ps ->
  exists m, fold_each add_project m0 ps st = Result (Done m) st [].
Proof.
  intros Hps. revert m0. induction Hps as [|p ps [pid Hid] _ IH]; intros m0.
  - by exists m0.
  - destruct (IH (<[pid := p]> m0)) as [m E]. exists m. simpl.
    assert (add_project m0 p st = Result (Done (<[pid := p]> m0)) st []) as Hstep
      by (unfold add_project; by rewrite bind_getitem, Hid).
    by rewrite (bind_done _ _ _ _ _ _ Hstep), E.
Qed.

Lemma decorate_succeeds project_by_id h i pid p :
  is_Some (i !! "availability_zone") -> is_Some (h !! "availability_zone") ->
  i !! "project_id" = Some pid -> project_by_id !! pid = Some p ->
  is_Some (p !! "display_name") ->
  (decorate project_by_id h i).1 = Done tt.
Proof.
  intros [old Hold] [new Hnew] Hpid Hp [name Hname]. unfold decorate.
  rewrite Hold, Hnew. simpl. rewrite lookup_insert_ne by done.
  by rewrite Hpid, Hp, Hname.
Qed.

Lemma decorate_without_availability_zone project_by_id h i :
  i !! "availability_zone" = None ->
  (decorate project_by_id h i).1 = Raised (KeyError (VStr "availability_zone")).
Proof. intros Hnone. unfold decorate. by rewrite Hnone. Qed.

Section after_join.
Context (hypervisor instance project : list row).
Context (hyp_short : gmap string row) (warnings : list log_entry).
Context (project_by_id : gmap value row) (j : joined) (l : list log_entry).
Hypothesis Haz : Forall az_defined hypervisor.
Hypothesis Hhs : build_hyp_short hypervisor = Result (Done hyp_short) [] warnings.
Hypothesis Hpb : build_project_by_id project = Result (Done project_by_id) [] [].
Hypothesis Hloop :
  fold_each (join_instance hyp_short project_by_id)
    (Joined PyDict.empty PyDict.empty) (seq 0 (length instance)) instance =
  Result (Done j) instance l.

(** Once the join is over, the outcome of the run is that of the loop of
    decoration. *)
Lemma outcome_after_join :
  res_outcome (active_instances hypervisor instance project) =
    match res_outcome
            (for_each (fun iid => update_object (ref_of j iid)
                         (decorate project_by_id (hypervisor_of j iid)))
               (PyDict.keys (instance_hypervisor j)) instance) with
    | Done _ => Done (PyDict.values (instance_by_id j))
    | Exit c => Exit c
    | Raised e => Raised e
    end.
Proof.
  rewrite (active_instances_joins _ _ _ _ _ _ Haz Hhs Hpb). simpl.
  unfold join_and_decorate. rewrite (bind_done _ _ _ _ _ _ Hloop). simpl.
  rewrite bind_logger. simpl.
  destruct (join_loop_inv _ _ _ _ _ _ _ Hloop) as (_ & Hinv & _).
  unfold bind. rewrite (enrich_loop_update _ _ instance _ j instance Hinv).
  by destruct (for_each _ _ instance) as [[[]|c|e] st1 l1].
Qed.

(** What the dicts of the join bind to a key. *)
Lemma joined_key iid :
  iid ∈ PyDict.keys (instance_hypervisor j) ->
  exists i p, instance !! ref_of j iid = Some i /\
    retained hyp_short project_by_id i iid (hypervisor_of j iid) p /\
    PyDict.get iid (instance_by_id j) = Some (ref_of j iid).
Proof.
  intros Hin. destruct (join_loop_inv _ _ _ _ _ _ _ Hloop) as (_ & Hinv & _).
  destruct (joined_upto_refs _ _ _ _ _ Hinv) as [_ Hboth].
  destruct (Hboth iid Hin) as (n & h & Hn & Hh).
  pose proof Hinv as (_ & _ & Hbound & _).
  destruct (Hbound iid n Hn) as (_ & i & h' & p & Hi & Hret & Hh').
  unfold ref_of, hypervisor_of. rewrite Hn, Hh. simpl.
  exists i, p. by simplify_eq.
Qed.
End after_join.

(** The dict [instance_by_id] binds an identifier to the last record that
    was retained with it. *)
Lemma bound_iff_last_retained hyp_short project_by_id st k j iid n :
  joined_upto hyp_short project_by_id st k j ->
  PyDict.get iid (instance_by_id j) = Some n <->
  (n < k)%nat /\
  (exists i h p, st !! n = Some i /\ retained hyp_short project_by_id i iid h p) /\
  forall m i h p, (n < m < k)%nat -> st !! m = Some i ->
    ~ retained hyp_short project_by_id i iid h p.
Proof.
  intros (_ & _ & Hbound & Hlast). split.
  - intros Hget. destruct (Hbound iid n Hget) as (Hlt & i & h & p & Hi & Hret & _).
    split; [done|]. split; [by exists i, h, p|].
    intros m i' h' p' [Hnm Hmk] Hm Hret'.
    destruct (Hlast m i' iid h' p' Hmk Hm Hret') as (m' & Hget' & Hle).
    simplify_eq. lia.
  - intros (Hlt & (i & h & p & Hi & Hret) & Hnone).
    destruct (Hlast n i iid h p Hlt Hi Hret) as (m & Hget & Hle).
    destruct (decide (m = n)) as [->|Hne]; [done|].
    destruct (Hbound iid m Hget) as (Hmk & i' & h' & p' & Hi' & Hret' & _).
    destruct (Hnone m i' h' p'); [lia|done..].
Qed.

(** In a run that returns, an instance record is yielded exactly when it
    passes the checks of the join (its hypervisor reference is bound in
    [hyp_short] and its [project_id] in [project_by_id]) and no record after
    it in the report passes them with the same identifier. *)
Theorem yielded_iff_last_retained
    (hypervisor instance project : list row) refs st' log
    hyp_short warnings project_by_id :
  active_instances hypervisor instance project = Result (Done refs) st' log ->
  build_hyp_short hypervisor = Result (Done hyp_short) [] warnings ->
  build_project_by_id project = Result (Done project_by_id) [] [] ->
  forall n,
    n ∈ refs <->
    exists i iid h p,
      instance !! n = Some i /\
      retained hyp_short project_by_id i iid h p /\
      forall m i' h' p', (n < m)%nat -> instance !! m = Some i' ->
        ~ retained hyp_short project_by_id i' iid h' p'.
Proof.
  intros Hrun Hhs Hpb n.
  destruct (active_instances_done_loop _ _ _ _ _ _ _ _ _ Hrun Hhs Hpb)
    as (j & l & Hloop & Hinv & ->).
  rewrite (refs_of_joined _ _ _ _ _ _ Hinv). split.
  - intros [iid Hget].
    apply (bound_iff_last_retained _ _ _ _ _ _ _ Hinv) in Hget
      as (Hlt & (i & h & p & Hi & Hret) & Hnone).
    exists i, iid, h, p. split; [done|]. split; [done|].
    intros m i' h' p' Hnm Hm. apply (Hnone m); [|done].
    split; [done|]. by eapply lookup_lt_Some.
  - intros (i & iid & h & p & Hi & Hret & Hnone). exists iid.
    apply (bound_iff_last_retained _ _ _ _ _ _ _ Hinv).
    split; [by eapply lookup_lt_Some|]. split; [by exists i, h, p|].
    intros m i' h' p' [Hnm _] Hm. by apply (Hnone m).
Qed.

Lemma yielded_iff_last_retained_witness :
  2%nat ∈ [2%nat] <->
  exists i iid h p,
    [I4; I1; I4'] !! 2%nat = Some i /\
    retained ({[ "a" := H2; "c" := H4 ]}) ({[ VStr "P1" := P1 ]}) i iid h p /\
    forall m i' h' p', (2 < m)%nat -> [I4; I1; I4'] !! m = Some i' ->
      ~ retained ({[ "a" := H2; "c" := H4 ]}) ({[ VStr "P1" := P1 ]}) i' iid h' p'.
Proof.
  exact (yielded_iff_last_retained [H1; H2; H4] [I4; I1; I4'] [P1] [2%nat]
           [I4; I1; <["project_display_name" := VStr "Team Alpha"]>
                      (<["availability_zone" := VStr "az3"]> I4')]
           [(DEBUG, CheckedHypervisorAZ);
            (WARNING, DuplicateShortNames "a" (VInt 1) (VInt 2));
            (WARNING, NoHypervisor (VStr "I1"));
            (DEBUG, CheckedInstanceHypervisors)]
           _ [(WARNING, DuplicateShortNames "a" (VInt 1) (VInt 2))] _
           eq_refl eq_refl eq_refl 2%nat).
Defined.

Lemma wf_fetched_instance_fields i :
  wf_fetched_instance i = true ->
  wf_instance i = true /\ is_Some (i !! "availability_zone").
Proof.
  unfold wf_fetched_instance. intros [Hwf Haz]%andb_true_iff.
  by apply bool_decide_eq_true in Haz.
Qed.

(** On reports whose records are well-formed the run never dies on an
    exception: it returns when every hypervisor has an availability zone and
    the hypervisor reference of every instance is null or bound in
    [hyp_short], and it stops with [sys.exit(1)] otherwise. *)
Theorem well_formed_reports_never_raise
    (hypervisor instance project : list row) :
  forallb wf_hypervisor hypervisor = true ->
  timestamps_comparable hypervisor = true ->
  forallb wf_project project = true ->
  forallb wf_fetched_instance instance = true ->
  exists hyp_short warnings,
    build_hyp_short hypervisor = Result (Done hyp_short) [] warnings /\
    ((Forall az_defined hypervisor /\
      Forall (fun i => ~ unresolved hyp_short i) instance) ->
     exists refs,
       res_outcome (active_instances hypervisor instance project) = Done refs) /\
    (~ (Forall az_defined hypervisor /\
        Forall (fun i => ~ unresolved hyp_short i) instance) ->
     res_outcome (active_instances hypervisor instance project) = Exit 1).
Proof.
  intros Hwfh Hcmp Hwfp Hwfi.
  rewrite forallb_forall in Hwfh, Hwfp, Hwfi.
  assert (Forall (fun h => wf_hypervisor h = true) hypervisor) as Hwfh'.
  { apply Forall_forall. intros h Hh. by apply Hwfh, list_elem_of_In. }
  destruct (build_hyp_short_resolves hypervisor Hwfh' Hcmp)
    as (hyp_short & warnings & Hhs & _).
  exists hyp_short, warnings. split; [done|].
  assert (Forall (fun p => is_Some (p !! "id")) project) as Hids.
  { apply Forall_forall. intros p Hp.
    destruct (wf_project_fields p) as (pid & _ & -> & _); [|done].
    by apply Hwfp, list_elem_of_In. }
  destruct (build_project_by_id_progress project ∅ [] Hids) as [project_by_id Hpb].
  fold (build_project_by_id project) in Hpb.
  assert (forall m i, instance !! m = Some i -> wf_instance i = true) as Hwfi'.
  { intros m i Hm. apply wf_fetched_instance_fields, Hwfi, list_elem_of_In.
    by eapply list_elem_of_lookup_2. }
  split.
  - intros [Haz Hres].
    destruct (join_loop_progress hyp_short project_by_id instance (length instance))
      as [j Hloop].
    { intros m Hm. destruct (lookup_lt_is_Some_2 instance m Hm) as [i Hi].
      exists i. split; [done|]. split; [by eapply Hwfi'|].
      rewrite Forall_forall in Hres. by eapply Hres, list_elem_of_lookup_2. }
    rewrite (outcome_after_join _ _ _ _ _ _ _ _ Haz Hhs Hpb Hloop).
    destruct (join_loop_inv _ _ _ _ _ _ _ Hloop) as (_ & Hinv & _).
    destruct (joined_upto_refs _ _ _ _ _ Hinv) as [Hnd _].
    rewrite update_loop_progress; [by eexists|done|].
    intros iid Hin.
    destruct (joined_key _ _ _ _ _ Hloop iid Hin) as (i & p & Hi & Hret & _).
    exists i. split; [done|].
    destruct Hret as (name & pid & _ & Hs & Hpid & Hp & _).
    apply (decorate_succeeds _ _ _ pid p); [|  |done|done|].
    + apply wf_fetched_instance_fields, Hwfi, list_elem_of_In.
      by eapply list_elem_of_lookup_2.
    + destruct (build_hyp_short_inv _ _ _ _ Hhs _ _ Hs) as [Hmem _].
      rewrite Forall_forall in Haz. destruct (Haz _ Hmem) as (az & -> & _). done.
    + destruct (build_project_by_id_inv _ _ _ _ Hpb) as [_ Hpbinv].
      destruct (Hpbinv pid p Hp) as [Hmem _].
      destruct (wf_project_fields p) as (? & name' & _ & ->); [|done].
      by apply Hwfp, list_elem_of_In.
  - intros Hnot.
    destruct (decide (Forall az_defined hypervisor)) as [Haz|Hnaz].
    + assert (Exists (unresolved hyp_short) instance) as Hex.
      { destruct (decide (Exists (unresolved hyp_short) instance)) as [|Hnex];
          [done|].
        destruct Hnot. split; [done|]. apply Forall_forall.
        intros i Hi Hun. apply Hnex, Exists_exists. eauto. }
      apply Exists_exists in Hex as (i & Hin & Hun).
      apply list_elem_of_lookup in Hin as [n Hn].
      destruct Hun as (name & Hh & Hs).
      destruct (wf_instance_cases hyp_short project_by_id i (Hwfi' n i Hn))
        as (iid & Hid & _).
      destruct (first_unresolved_hypervisor_stops_run hypervisor instance project
                  hyp_short warnings project_by_id n i name iid Haz Hhs Hpb)
        as (m & i0 & iid0 & _ & _ & _ & _ & _ & -> & _); try done.
      intros m i' _ Hm. by eapply Hwfi'.
    + apply not_Forall_Exists in Hnaz; [|apply _].
      apply Exists_exists in Hnaz as (h & Hin & Hnd).
      apply list_elem_of_lookup in Hin as [k Hk].
      assert (Forall (has_fields ["availability_zone"; "id"]) hypervisor) as Hf.
      { apply Forall_forall. intros h' Hh'.
        destruct (wf_hypervisor_fields h') as (hid & az & _ & _ & Hid & Haz' & _).
        { by apply Hwfh, list_elem_of_In. }
        repeat constructor; by eexists. }
      assert (Forall (has_fields ["availability_zone"]) hypervisor) as Hf1.
      { eapply Forall_impl; [exact Hf|]. intros r Hr.
        apply Forall_cons_1 in Hr as [? _]. by constructor. }
      destruct (first_blank hypervisor Hf1)
        as [Hall|(pre & h0 & post & -> & Hpre & Hb0)].
      { rewrite Forall_forall in Hall. destruct Hnd.
        by eapply Hall, list_elem_of_lookup_2. }
      rewrite Forall_forall in Hf.
      assert (h0 ∈ pre ++ h0 :: post) as Hin0
        by (apply elem_of_app; right; apply elem_of_cons; by left).
      pose proof (Hf h0 Hin0) as Hf0.
      apply Forall_cons_1 in Hf0 as [_ Hf0].
      apply Forall_cons_1 in Hf0 as [[hid Hid] _].
      unfold active_instances. rewrite reconcile_unfold.
      by rewrite (bind_exit _ _ _ _ _ _
                    (check_loop_blank pre h0 post hid instance Hpre Hb0 Hid)).
Qed.

Lemma well_formed_reports_never_raise_witness :
  exists hyp_short warnings,
    build_hyp_short [H1; H2] = Result (Done hyp_short) [] warnings /\
    ((Forall az_defined [H1; H2] /\
      Forall (fun i => ~ unresolved hyp_short i) [I1; I2; I4]) ->
     exists refs,
       res_outcome (active_instances [H1; H2] [I1; I2; I4] [P1]) = Done refs) /\
    (~ (Forall az_defined [H1; H2] /\
        Forall (fun i => ~ unresolved hyp_short i) [I1; I2; I4]) ->
     res_outcome (active_instances [H1; H2] [I1; I2; I4] [P1]) = Exit 1).
Proof.
  apply (well_formed_reports_never_raise [H1; H2] [I1; I2; I4] [P1]); reflexivity.
Defined.

(** ** A field that is read and not used *)

(** Line 87 reads the [availability_zone] of the instance before line 89
    overwrites it. The value is not used, but the field has to be there: when
    the join has passed (the availability zones of the hypervisors are
    defined, the projects and instances are well-formed, every hypervisor
    reference is null or bound) and a record that is to be yielded (retained,
    and the last retained with its identifier) has no [availability_zone]
    field, the run dies on [KeyError('availability_zone')] and yields
    nothing. *)
Theorem retained_instance_without_availability_zone_raises
    (hypervisor instance project : list row)
    hyp_short warnings project_by_id n i iid h p :
  Forall az_defined hypervisor ->
  build_hyp_short hypervisor = Result (Done hyp_short) [] warnings ->
  build_project_by_id project = Result (Done project_by_id) [] [] ->
  forallb wf_project project = true ->
  forallb wf_instance instance = true ->
  Forall (fun i => ~ unresolved hyp_short i) instance ->
  instance !! n = Some i ->
  retained hyp_short project_by_id i iid h p ->
  (forall m i' h' p', (n < m)%nat -> instance !! m = Some i' ->
     ~ retained hyp_short project_by_id i' iid h' p') ->
  i !! "availability_zone" = None ->
  res_outcome (active_instances hypervisor instance project) =
    Raised (KeyError (VStr "availability_zone")) /\
  yielded (active_instances hypervisor instance project) = [].
Proof.
  intros Haz Hhs Hpb Hwfp Hwfi Hres Hn Hret Hlast Hnone.
  rewrite forallb_forall in Hwfp, Hwfi.
  destruct (join_loop_progress hyp_short project_by_id instance (length instance))
    as [j Hloop].
  { intros m Hm. destruct (lookup_lt_is_Some_2 instance m Hm) as [i' Hi'].
    apply list_elem_of_lookup_2 in Hi' as Hin.
    exists i'. split; [done|]. split; [by apply Hwfi, list_elem_of_In|].
    rewrite Forall_forall in Hres. by apply Hres. }
  destruct (join_loop_inv _ _ _ _ _ _ _ Hloop) as (_ & Hinv & _).
  destruct (joined_upto_refs _ _ _ _ _ Hinv) as [Hnd _].
  pose proof Hinv as (Hkeys & _).
  assert (res_outcome (active_instances hypervisor instance project) =
          Raised (KeyError (VStr "availability_zone"))) as Hout.
  { rewrite (outcome_after_join _ _ _ _ _ _ _ _ Haz Hhs Hpb Hloop).
    rewrite (update_loop_raises _ _ _ _ (KeyError (VStr "availability_zone")));
      [done|done| |].
    - intros x Hin.
      destruct (joined_key _ _ _ _ _ Hloop x Hin) as (i' & p' & Hi' & Hret' & _).
      exists i'. split; [done|].
      destruct (i' !! "availability_zone") as [old|] eqn:Eaz;
        [left|right; by apply decorate_without_availability_zone].
      destruct Hret' as (name & pid & _ & Hs & Hpid & Hp & _).
      apply (decorate_succeeds _ _ _ pid p'); [by rewrite Eaz| |done|done|].
      + destruct (build_hyp_short_inv _ _ _ _ Hhs _ _ Hs) as [Hmem _].
        rewrite Forall_forall in Haz. destruct (Haz _ Hmem) as (az & -> & _). done.
      + destruct (build_project_by_id_inv _ _ _ _ Hpb) as [_ Hpbinv].
        destruct (Hpbinv pid p' Hp) as [Hmem _].
        destruct (wf_project_fields p') as (? & name' & _ & ->); [|done].
        by apply Hwfp, list_elem_of_In.
    - assert (PyDict.get iid (instance_by_id j) = Some n) as Hget.
      { apply (bound_iff_last_retained _ _ _ _ _ _ _ Hinv).
        split; [by eapply lookup_lt_Some|]. split; [by exists i, h, p|].
        intros m i' h' p' [Hnm _] Hm. by apply (Hlast m). }
      exists iid, i. unfold ref_of. rewrite Hget. simpl.
      split; [|split; [done|by apply decorate_without_availability_zone]].
      rewrite Hkeys. by eapply PyDictFacts.get_Some_keys. }
  split; [done|]. unfold yielded. by rewrite Hout.
Qed.

Lemma retained_instance_without_availability_zone_raises_witness :
  res_outcome (active_instances [H1; H2] [I4; I6] [P1]) =
    Raised (KeyError (VStr "availability_zone")) /\
  yielded (active_instances [H1; H2] [I4; I6] [P1]) = [].
Proof.
  apply (retained_instance_without_availability_zone_raises
           [H1; H2] [I4; I6] [P1] {[ "a" := H2 ]}
           [(WARNING, DuplicateShortNames "a" (VInt 1) (VInt 2))]
           {[ VStr "P1" := P1 ]} 1 I6 (VStr "I6") H2 P1).
  - by apply (bool_decide_unpack _).
  - vm_compute. reflexivity.
  - vm_compute. reflexivity.
  - reflexivity.
  - reflexivity.
  - by apply (bool_decide_unpack _).
  - reflexivity.
  - exists "a", (VStr "P1"). repeat split; reflexivity.
  - intros [|[|m]] i' h' p' Hm Hi'; [lia|lia|done].
  - reflexivity.
Defined.

(** ** Short names and the table of hypervisors *)

Lemma before_dot_no_dot s : "."%char ∉ list_ascii_of_string (before_dot s).
Proof.
  induction s as [|c s IH]; simpl; [apply not_elem_of_nil|].
  destruct (Ascii.eqb c ".") eqn:E; simpl; [apply not_elem_of_nil|].
  apply not_elem_of_cons. split; [|done].
  intros <-. by rewrite Ascii.eqb_refl in E.
Qed.

Lemma before_dot_prefix s :
  s = before_dot s \/
  exists rest, s = String.append (before_dot s) (String "." rest).
Proof.
  induction s as [|c s IH]; simpl; [by left|].
  destruct (Ascii.eqb c ".") eqn:E.
  - apply Ascii.eqb_eq in E as ->. right. by exists s.
  - destruct IH as [IH|[rest IH]].
    + left. congruence.
    + right. exists rest.
      change (String c s =
              String c (String.append (before_dot s) (String "." rest))).
      congruence.
Qed.

Lemma before_dot_idempotent s : before_dot (before_dot s) = before_dot s.
Proof.
  induction s as [|c s IH]; simpl; [done|].
  destruct (Ascii.eqb c ".") eqn:E; simpl; [done|]. by rewrite E, IH.
Qed.

(** [s.split('.')[0]] is the text of [s] up to its first dot: it holds no
    dot, it is all of [s] or is followed in [s] by a dot, and taking it again
    changes nothing. *)
Theorem short_name_is_text_before_first_dot (s : string) :
  ("."%char ∉ list_ascii_of_string (before_dot s)) /\
  (s = before_dot s \/
   exists rest, s = String.append (before_dot s) (String "." rest)) /\
  before_dot (before_dot s) = before_dot s.
Proof.
  split; [apply before_dot_no_dot|].
  split; [apply before_dot_prefix|apply before_dot_idempotent].
Qed.

Lemma add_hyp_short_inv_log hyp_short h st hyp_short' st' l :
  add_hyp_short hyp_short h st = Result (Done hyp_short') st' l ->
  exists s hid, short_name_of h = Some s /\
    ((hyp_short !! s = None /\ hyp_short' = <[s := h]> hyp_short /\ l = []) \/
     (exists w wid,
        hyp_short !! s = Some w /\ w !! "id" = Some wid /\ h !! "id" = Some hid /\
        l = [(WARNING, DuplicateShortNames s wid hid)] /\
        (hyp_short' = hyp_short \/ hyp_short' = <[s := h]> hyp_short))).
Proof.
  intros H. unfold add_hyp_short in H. unfold short_name_of. exec_in H.
  all: try (unfold py_lt in H; exec_in H).
  all: unfold ret in H; simplify_eq.
  all: eexists _, _; (split; [reflexivity|]).
  all: first
    [ left; by repeat split
    | right; eexists _, _; repeat (split; [eassumption || reflexivity|]); by eauto ].
  Unshelve. all: exact VNone.
Qed.

(** What the loop over the hypervisors has built and logged when it ends
    normally, from a table whose keys are the short names of its records. *)
Lemma fold_add_hyp_short_census hs m0 st m st' l :
  (forall s w, m0 !! s = Some w -> short_name_of w = Some s) ->
  fold_each add_hyp_short m0 hs st = Result (Done m) st' l ->
  (forall s, is_Some (m !! s) <->
     is_Some (m0 !! s) \/ exists h, h ∈ hs /\ short_name_of h = Some s) /\
  (length l + size m = length hs + size m0)%nat /\
  Forall (fun e => exists s w h a b,
            e = (WARNING, DuplicateShortNames s a b) /\
            (w ∈ hs \/ m0 !! s = Some w) /\ h ∈ hs /\
            short_name_of w = Some s /\ short_name_of h = Some s /\
            w !! "id" = Some a /\ h !! "id" = Some b) l.
Proof.
  revert m0 st l. induction hs as [|h hs IH]; intros m0 st l Hm0; simpl.
  - intros [= <- <- <-]. split; [|split; [done|constructor]].
    intros s. split; [by left|]. intros [?|(h & []%elem_of_nil & _)]. done.
  - intros (m1 & st1 & l1 & l2 & E1 & E2 & ->)%bind_inv_done.
    apply add_hyp_short_inv_log in E1 as (s0 & hid & Hs0 & Hcase).
    assert (forall s w, m1 !! s = Some w -> short_name_of w = Some s) as Hm1.
    { intros s w Hw.
      assert (m1 = m0 \/ m1 = <[s0 := h]> m0) as [->| ->].
      { destruct Hcase as [(_ & -> & _)|(w' & wid & _ & _ & _ & _ & [->| ->])]; auto. }
      - by apply Hm0.
      - destruct (decide (s0 = s)) as [->|Hne].
        + rewrite lookup_insert_eq in Hw. by simplify_eq.
        + rewrite lookup_insert_ne in Hw by done. by apply Hm0. }
    destruct (IH m1 st1 l2 Hm1 E2) as (Hdom & Hcount & Hlog).
    assert (forall s, is_Some (m1 !! s) <-> is_Some (m0 !! s) \/ s = s0) as Hdom1.
    { assert (forall s, is_Some (<[s0 := h]> m0 !! s) <->
                is_Some (m0 !! s) \/ s = s0) as Hins.
      { intros s. destruct (decide (s0 = s)) as [->|Hne].
        - rewrite lookup_insert_eq. split; [by right|by eexists].
        - rewrite lookup_insert_ne by done.
          split; [by left|]. intros [?|?]; [done|congruence]. }
      intros s.
      destruct Hcase as [(Hnone & -> & _)|(w & wid & Hw & _ & _ & _ & [->| ->])];
        [apply Hins| |apply Hins].
      split; [by left|]. intros [?| ->]; [done|by eexists]. }
    split; [|split].
    + intros s. rewrite Hdom, Hdom1. split.
      * intros [[?| ->]|(h' & Hin & Hs)]; [by left| |].
        -- right. exists h. split; [apply elem_of_cons; by left|done].
        -- right. exists h'. split; [apply elem_of_cons; by right|done].
      * intros [?|(h' & [->|Hin]%elem_of_cons & Hs)]; [by left; left| |].
        -- left; right. congruence.
        -- right. by exists h'.
    + rewrite length_app.
      destruct Hcase as [(Hnone & -> & ->)|(w & wid & Hw & _ & _ & -> & [->| ->])];
        simpl.
      * rewrite map_size_insert_None in Hcount by done. lia.
      * lia.
      * rewrite map_size_insert_Some in Hcount by done. lia.
    + apply Forall_app. split.
      * destruct Hcase as [(_ & _ & ->)|(w & wid & Hw & Hwid & Hhid & -> & _)];
          [constructor|].
        constructor; [|constructor].
        exists s0, w, h, wid, hid. split; [done|]. split; [by right|].
        split; [apply elem_of_cons; by left|]. split; [by apply Hm0|done].
      * eapply Forall_impl; [exact Hlog|].
        intros e (s & w & h' & a & b & -> & Hw & Hin & Hsw & Hsh & Ha & Hb).
        exists s, w, h', a, b. split; [done|].
        split; [|split; [apply elem_of_cons; by right|done]].
        destruct Hw as [Hw|Hw]; [left; apply elem_of_cons; by right|].
        destruct Hcase as [(_ & -> & _)|(w' & wid & Hw' & _ & _ & _ & [->| ->])].
        -- destruct (decide (s0 = s)) as [->|Hne].
           ++ rewrite lookup_insert_eq in Hw. simplify_eq.
              left. apply elem_of_cons. by left.
           ++ rewrite lookup_insert_ne in Hw by done. by right.
        -- by right.
        -- destruct (decide (s0 = s)) as [->|Hne].
           ++ rewrite lookup_insert_eq in Hw. simplify_eq.
              left. apply elem_of_cons. by left.
           ++ rewrite lookup_insert_ne in Hw by done. by right.
Qed.

(** The keys of [hyp_short] are the short names of the records. *)
Lemma hyp_short_keys (hypervisor : list row) hyp_short st warnings :
  build_hyp_short hypervisor = Result (Done hyp_short) st warnings ->
  forall s, is_Some (hyp_short !! s) <->
    exists h, h ∈ hypervisor /\ short_name_of h = Some s.
Proof.
  intros Hrun. unfold build_hyp_short in Hrun.
  apply fold_add_hyp_short_census in Hrun as (Hdom & _).
  2:{ intros s w Hw. by rewrite lookup_empty in Hw. }
  intros s. rewrite Hdom, lookup_empty. split; [|by right].
  intros [[? [=]]|?]. done.
Qed.

(** When the loop over the hypervisors ends normally, no hypervisor is
    lost without a word. The keys of [hyp_short] are the short names of the
    records of the report; every record either brought a new key or caused
    one warning, so the warnings and the keys together are as many as the
    records; and each warning gives a short name and the identifiers of two
    records of the report with that short name. *)
Theorem hypervisor_census
    (hypervisor : list row) hyp_short st warnings :
  build_hyp_short hypervisor = Result (Done hyp_short) st warnings ->
  (forall s, is_Some (hyp_short !! s) <->
     exists h, h ∈ hypervisor /\ short_name_of h = Some s) /\
  (length warnings + size hyp_short = length hypervisor)%nat /\
  Forall (fun e => exists s w h a b,
            e = (WARNING, DuplicateShortNames s a b) /\
            w ∈ hypervisor /\ h ∈ hypervisor /\
            short_name_of w = Some s /\ short_name_of h = Some s /\
            w !! "id" = Some a /\ h !! "id" = Some b) warnings.
Proof.
  intros Hrun. unfold build_hyp_short in Hrun.
  apply fold_add_hyp_short_census in Hrun as (Hdom & Hcount & Hlog).
  2:{ intros s w Hw. by rewrite lookup_empty in Hw. }
  split; [|split].
  - intros s. rewrite Hdom, lookup_empty. split; [|by right].
    intros [[? [=]]|?]. done.
  - rewrite map_size_empty in Hcount. lia.
  - eapply Forall_impl; [exact Hlog|].
    intros e (s & w & h & a & b & -> & [Hw|Hw] & Hrest);
      [|by rewrite lookup_empty in Hw].
    by exists s, w, h, a, b.
Qed.

Lemma hypervisor_census_witness :
  (forall s, is_Some (({[ "a" := H2; "c" := H4 ]} : gmap string row) !! s) <->
     exists h, h ∈ [H1; H2; H4] /\ short_name_of h = Some s) /\
  (length [(WARNING, DuplicateShortNames "a" (VInt 1) (VInt 2))] +
   size ({[ "a" := H2; "c" := H4 ]} : gmap string row) = length [H1; H2; H4])%nat /\
  Forall (fun e => exists s w h a b,
            e = (WARNING, DuplicateShortNames s a b) /\
            w ∈ [H1; H2; H4] /\ h ∈ [H1; H2; H4] /\
            short_name_of w = Some s /\ short_name_of h = Some s /\
            w !! "id" = Some a /\ h !! "id" = Some b)
         [(WARNING, DuplicateShortNames "a" (VInt 1) (VInt 2))].
Proof.
  apply (hypervisor_census [H1; H2; H4] _ []).
  vm_compute. reflexivity.
Defined.

(** The join finds the hypervisor of an instance whether the instance names
    it in full or in short: when the loop over the hypervisors has ended
    normally and the [hypervisor] field of an instance is the hostname of a
    record of the report, or the short name of that hostname, the reference
    is bound in [hyp_short] to a record with that short name, so the instance
    does not stop the run. *)
Theorem full_and_short_references_resolve
    (hypervisor : list row) hyp_short st warnings h name i ref :
  build_hyp_short hypervisor = Result (Done hyp_short) st warnings ->
  h ∈ hypervisor ->
  h !! "hostname" = Some (VStr name) ->
  i !! "hypervisor" = Some (VStr ref) ->
  ref = name \/ ref = before_dot name ->
  ~ unresolved hyp_short i /\
  exists w, hyp_short !! before_dot ref = Some w /\ w ∈ hypervisor /\
            short_name_of w = Some (before_dot name).
Proof.
  intros Hrun Hin Hname Href Hcase.
  assert (before_dot ref = before_dot name) as Hshort
    by (destruct Hcase as [->| ->]; [done|apply before_dot_idempotent]).
  destruct (hyp_short_keys hypervisor hyp_short st warnings Hrun
              (before_dot name)) as [_ Hdom].
  destruct Hdom as [w Hw].
  { exists h. split; [done|]. unfold short_name_of. by rewrite Hname. }
  destruct (build_hyp_short_inv _ _ _ _ Hrun _ _ Hw) as [Hmem Hsw].
  split.
  - intros (ref' & Href' & Hnone). rewrite Href in Href'. simplify_eq.
    rewrite Hshort in Hnone. congruence.
  - exists w. by rewrite Hshort.
Qed.

Lemma full_and_short_references_resolve_witness :
  ~ unresolved {[ "a" := H2 ]} I4 /\
  exists w, ({[ "a" := H2 ]} : gmap string row) !! before_dot "a.example.com" = Some w /\
            w ∈ [H1; H2] /\
            short_name_of w = Some (before_dot "a.example.com").
Proof.
  apply (full_and_short_references_resolve [H1; H2] {[ "a" := H2 ]} []
           [(WARNING, DuplicateShortNames "a" (VInt 1) (VInt 2))]
           H1 "a.example.com" I4 "a.example.com").
  - vm_compute. reflexivity.
  - apply elem_of_cons. by left.
  - reflexivity.
  - reflexivity.
  - by left.
Defined.

(** ** The table of projects *)

(** The dict comprehension of line 62 on a project report whose records
    all have an [id]: it ends normally and logs nothing, and it binds an
    identifier to the last record of the report that has it, so of two project
    records with one identifier the second gives the display name. *)
Theorem project_table_keeps_last (project : list row) :
  Forall (fun p => is_Some (p !! "id")) project ->
  exists project_by_id,
    build_project_by_id project = Result (Done project_by_id) [] [] /\
    forall pid p,
      project_by_id !! pid = Some p <->
      exists k, project !! k = Some p /\ p !! "id" = Some pid /\
        forall k' p', (k < k')%nat -> project !! k' = Some p' ->
                      p' !! "id" <> Some pid.
Proof.
  unfold build_project_by_id.
  induction project as [|q ps IH] using rev_ind; intros Hids.
  - exists ∅. split; [done|]. intros pid p. rewrite lookup_empty.
    split; [done|]. by intros (k & Hk & _).
  - apply Forall_app in Hids as [Hids Hq].
    apply Forall_cons_1 in Hq as [[qid Hqid] _].
    destruct (IH Hids) as (m & Hrun & Hspec).
    exists (<[qid := q]> m). split.
    { rewrite fold_each_app, (bind_done _ _ _ _ _ _ Hrun). simpl.
      assert (add_project m q [] = Result (Done (<[qid := q]> m)) [] []) as Hstep
        by (unfold add_project; by rewrite bind_getitem, Hqid).
      by rewrite (bind_done _ _ _ _ _ _ Hstep). }
    intros pid p. destruct (decide (qid = pid)) as [->|Hne].
    + rewrite lookup_insert_eq. split.
      * intros [= <-]. exists (length ps).
        split; [by rewrite lookup_app_r, Nat.sub_diag by lia|]. split; [done|].
        intros k' p' Hlt Hk'. apply lookup_lt_Some in Hk'.
        rewrite length_app in Hk'. simpl in Hk'. lia.
      * intros (k & Hk & Hid & Hlast).
        destruct (decide (k < length ps)%nat) as [Hlt|Hge].
        -- destruct (Hlast (length ps) q); [done| |done].
           by rewrite lookup_app_r, Nat.sub_diag by lia.
        -- rewrite lookup_app_r in Hk by lia.
           destruct (k - length ps)%nat as [|d]; simpl in Hk; [|done].
           congruence.
    + rewrite lookup_insert_ne by done. rewrite Hspec. split.
      * intros (k & Hk & Hid & Hlast). exists k.
        split; [by apply lookup_app_l_Some|]. split; [done|].
        intros k' p' Hlt Hk'.
        destruct (decide (k' < length ps)%nat) as [Hlt'|Hge].
        -- rewrite lookup_app_l in Hk' by done. by eapply Hlast.
        -- rewrite lookup_app_r in Hk' by lia.
           destruct (k' - length ps)%nat as [|d]; simpl in Hk'; [|done].
           simplify_eq; congruence.
      * intros (k & Hk & Hid & Hlast).
        destruct (decide (k < length ps)%nat) as [Hlt|Hge].
        -- rewrite lookup_app_l in Hk by done. exists k.
           split; [done|]. split; [done|].
           intros k' p' Hlt' Hk'. apply (Hlast k'); [done|].
           by apply lookup_app_l_Some.
        -- rewrite lookup_app_r in Hk by lia.
           destruct (k - length ps)%nat as [|d]; simpl in Hk; [|done].
           simplify_eq; congruence.
Qed.

Lemma project_table_keeps_last_witness :
  exists project_by_id,
    build_project_by_id [P1; P1'] = Result (Done project_by_id) [] [] /\
    forall pid p,
      project_by_id !! pid = Some p <->
      exists k, [P1; P1'] !! k = Some p /\ p !! "id" = Some pid /\
        forall k' p', (k < k')%nat -> [P1; P1'] !! k' = Some p' ->
                      p' !! "id" <> Some pid.
Proof.
  apply (project_table_keeps_last [P1; P1']).
  by apply (bool_decide_unpack _).
Defined.

(** ** Records that lack a field *)

(** The check of the availability zones reads the field with [h[...]]: when
    the first hypervisor record that is not valid has no [availability_zone]
    field at all, the run dies on [KeyError('availability_zone')]; when it has
    a blank one and no [id], the run dies on [KeyError('id')]. Either way
    nothing has been logged, no error either, and the instances are as
    fetched. *)
Theorem hypervisor_without_field_raises
    (hypervisor instance project : list row) k h :
  hypervisor !! k = Some h ->
  (forall k' h', (k' < k)%nat -> hypervisor !! k' = Some h' -> az_defined h') ->
  (h !! "availability_zone" = None ->
   active_instances hypervisor instance project =
     Result (Raised (KeyError (VStr "availability_zone"))) instance []) /\
  (az_blank h -> h !! "id" = None ->
   active_instances hypervisor instance project =
     Result (Raised (KeyError (VStr "id"))) instance []).
Proof.
  intros Hk Hbefore.
  assert (hypervisor = take k hypervisor ++ h :: drop (S k) hypervisor) as Hsplit
    by (by rewrite <- (take_drop_middle hypervisor k h Hk) at 1).
  assert (Forall az_defined (take k hypervisor)) as Hpre.
  { apply Forall_forall. intros h' [k' Hk']%list_elem_of_lookup.
    assert (k' < k)%nat as Hlt.
    { apply lookup_lt_Some in Hk'. rewrite length_take in Hk'. lia. }
    rewrite lookup_take_lt in Hk' by done. by eapply Hbefore. }
  assert (forall e,
            check_availability_zone h instance = Result (Raised e) instance [] ->
            active_instances hypervisor instance project =
              Result (Raised e) instance []) as Hdies.
  { intros e Hstep. unfold active_instances. rewrite reconcile_unfold.
    rewrite Hsplit at 1.
    assert (for_each check_availability_zone
              (take k hypervisor ++ h :: drop (S k) hypervisor) instance =
            Result (Raised e) instance []) as Hloop.
    { rewrite for_each_app.
      rewrite (bind_done _ _ _ _ _ _ (check_loop_defined _ instance Hpre)).
      simpl. by rewrite (bind_raised _ _ _ _ _ _ Hstep). }
    by rewrite (bind_raised _ _ _ _ _ _ Hloop). }
  split.
  - intros Hnone. apply Hdies. unfold check_availability_zone.
    by rewrite bind_getitem, Hnone.
  - intros (az & Haz & Ht) Hnoid. apply Hdies. unfold check_availability_zone.
    rewrite bind_getitem, Haz, Ht. simpl. by rewrite bind_getitem, Hnoid.
Qed.

Lemma hypervisor_without_field_raises_witness :
  (H5 !! "availability_zone" = None ->
   active_instances [H1; H5; H3] [I4] [P1] =
     Result (Raised (KeyError (VStr "availability_zone"))) [I4] []) /\
  (az_blank H5 -> H5 !! "id" = None ->
   active_instances [H1; H5; H3] [I4] [P1] =
     Result (Raised (KeyError (VStr "id"))) [I4] []).
Proof.
  apply (hypervisor_without_field_raises [H1; H5; H3] [I4] [P1] 1 H5).
  - reflexivity.
  - intros [|k'] h' Hlt Hk'; [|lia]. injection Hk' as <-.
    by apply (bool_decide_unpack _).
Defined.

(** * Arguments and environment *)

Example variable_name_project_name :
  attribute_name "project_name" = "os-project-name" /\
  variable_name "project_name" = "OS_PROJECT_NAME" /\
  variable_name "auth-url" = "OS_AUTH_URL".
Proof. repeat split; reflexivity. Qed.

Lemma from_environment_spec name environ :
  from_environment name environ =
    (Returns (match environ !! variable_name name with
           | Some v => VStr v
           | None => VNone
           end),
     delete (variable_name name) environ).
Proof.
  unfold from_environment.
  destruct (environ !! variable_name name) eqn:E; [done|].
  by rewrite delete_id.
Qed.

Lemma get_arg_or_env_var_namespace args name environ :
  args !! "pop" = None ->
  get_arg_or_env_var args name environ = from_environment name environ.
Proof.
  intros Hpop. unfold get_arg_or_env_var. rewrite Hpop.
  by destruct (args !! attribute_name name).
Qed.

(** The value given on the command line is never returned. Whatever the
    attributes of the parsed command line (it is an [argparse.Namespace], so
    [pop] is not one of them), also when it has the attribute that the
    function asks for, the result for a setting with an ASCII name is the
    environment variable of the setting, or [None] when the environment does
    not have it, and the variable is removed from the environment. *)
Theorem command_line_value_is_never_returned
    (args : namespace) (name : string) (environ : environment) :
  ascii_only name = true ->
  args !! "pop" = None ->
  get_arg_or_env_var args name environ =
    (Returns (match environ !! variable_name name with
           | Some v => VStr v
           | None => VNone
           end),
     delete (variable_name name) environ).
Proof.
  intros _ Hpop. rewrite get_arg_or_env_var_namespace by done.
  apply from_environment_spec.
Qed.

Lemma command_line_value_is_never_returned_witness :
  get_arg_or_env_var {[ "os-token" := VStr "from-command-line" ]} "token"
    {[ "OS_TOKEN" := "from-environment"; "HOME" := "/root" ]} =
    (Returns (match ({[ "OS_TOKEN" := "from-environment"; "HOME" := "/root" ]}
                    : environment) !! variable_name "token" with
           | Some v => VStr v
           | None => VNone
           end),
     delete (variable_name "token")
       {[ "OS_TOKEN" := "from-environment"; "HOME" := "/root" ]}).
Proof.
  apply (command_line_value_is_never_returned
           {[ "os-token" := VStr "from-command-line" ]} "token");
    reflexivity.
Defined.

(** A setting is read from the environment once: the call removes the
    variable it read and leaves the other variables alone, so a second call
    for the same setting returns [None] and changes nothing. *)
Theorem setting_is_read_once
    (args : namespace) (name : string) (environ : environment) :
  ascii_only name = true ->
  args !! "pop" = None ->
  let environ' := (get_arg_or_env_var args name environ).2 in
  environ' !! variable_name name = None /\
  (forall k, k <> variable_name name -> environ' !! k = environ !! k) /\
  get_arg_or_env_var args name environ' = (Returns VNone, environ').
Proof.
  intros _ Hpop. cbv zeta.
  rewrite !get_arg_or_env_var_namespace, !from_environment_spec by done.
  simpl. split; [apply lookup_delete_eq|]. split.
  - intros k Hk. by apply lookup_delete_ne.
  - rewrite lookup_delete_eq. f_equal.
    apply delete_id, lookup_delete_eq.
Qed.

Lemma setting_is_read_once_witness :
  let environ' :=
    (get_arg_or_env_var ∅ "token"
       {[ "OS_TOKEN" := "t0k3n"; "HOME" := "/root" ]}).2 in
  environ' !! variable_name "token" = None /\
  (forall k, k <> variable_name "token" ->
     environ' !! k =
     ({[ "OS_TOKEN" := "t0k3n"; "HOME" := "/root" ]} : environment) !! k) /\
  get_arg_or_env_var ∅ "token" environ' = (Returns VNone, environ').
Proof.
  apply (setting_is_read_once ∅ "token"); reflexivity.
Defined.

(** ** The names of a setting *)

Lemma map_chars_compose f g s :
  map_chars f (map_chars g s) = map_chars (fun c => f (g c)) s.
Proof. induction s as [|c s IH]; simpl; [done|]. by rewrite IH. Qed.

Lemma map_chars_ext f g s :
  (forall c, f c = g c) -> map_chars f s = map_chars g s.
Proof. intros H. induction s as [|c s IH]; simpl; [done|]. by rewrite H, IH. Qed.

Lemma map_chars_append f s1 s2 :
  map_chars f (String.append s1 s2) =
  String.append (map_chars f s1) (map_chars f s2).
Proof. induction s1 as [|c s1 IH]; simpl; [done|]. by rewrite IH. Qed.

Lemma replace_char_map_chars a b s :
  replace_char a b s = map_chars (fun c => if Ascii.eqb c a then b else c) s.
Proof. induction s as [|c s IH]; simpl; [done|]. by rewrite IH. Qed.

(** The character of the variable name depends on the character of the
    setting through its lower-case, hyphenated form only. *)
Lemma variable_char_normal (c : ascii) :
  let hyphenated c := ascii_lower (if Ascii.eqb c "_" then "-"%char else c) in
  let underscored c := ascii_upper (if Ascii.eqb c "-" then "_"%char else c) in
  underscored (hyphenated c) = underscored c.
Proof. destruct c as [[] [] [] [] [] [] [] []]; reflexivity. Qed.

(** Two spellings of a setting that differ in case and in hyphens against
    underscores only, such as [project_name], [project-name] and
    [PROJECT_NAME], name the same attribute and the same environment variable,
    so the function does the same for both. *)
Theorem setting_name_up_to_case_and_hyphens
    (args : namespace) (name1 name2 : string) (environ : environment) :
  ascii_only name1 = true -> ascii_only name2 = true ->
  lower (replace_char "_" "-" name1) = lower (replace_char "_" "-" name2) ->
  attribute_name name1 = attribute_name name2 /\
  variable_name name1 = variable_name name2 /\
  get_arg_or_env_var args name1 environ = get_arg_or_env_var args name2 environ.
Proof.
  intros _ _ Hsame.
  assert (attribute_name name1 = attribute_name name2) as Hattr.
  { unfold attribute_name, lower in *.
    rewrite !replace_char_map_chars, !map_chars_compose, !map_chars_append in *.
    by rewrite Hsame. }
  assert (forall name,
            variable_name name =
            map_chars (fun c => ascii_upper (if Ascii.eqb c "-" then "_"%char else c))
              (attribute_name name)) as Hvar.
  { intros name. unfold variable_name, attribute_name, upper, lower.
    rewrite !replace_char_map_chars, !map_chars_compose.
    apply map_chars_ext. intros c. symmetry. apply variable_char_normal. }
  assert (variable_name name1 = variable_name name2) as Hv
    by (by rewrite !Hvar, Hattr).
  split; [done|]. split; [done|].
  unfold get_arg_or_env_var, from_environment. by rewrite Hattr, Hv.
Qed.

Lemma setting_name_up_to_case_and_hyphens_witness :
  attribute_name "project_name" = attribute_name "PROJECT-Name" /\
  variable_name "project_name" = variable_name "PROJECT-Name" /\
  get_arg_or_env_var ∅ "project_name" {[ "OS_PROJECT_NAME" := "admin" ]} =
  get_arg_or_env_var ∅ "PROJECT-Name" {[ "OS_PROJECT_NAME" := "admin" ]}.
Proof.
  apply (setting_name_up_to_case_and_hyphens ∅ "project_name" "PROJECT-Name");
    reflexivity.
Defined.

(** * The token of the client *)

Lemma with_setting_namespace args name environ k :
  args !! "pop" = None ->
  with_setting args name environ k =
    k (setting environ (variable_name name)) (delete (variable_name name) environ).
Proof.
  intros Hpop. unfold with_setting.
  by rewrite get_arg_or_env_var_namespace, from_environment_spec.
Qed.

Section resolve_token_facts.
Context (keystone : value -> value -> value -> value -> option value).
Context (args : namespace) (environ : environment).
Hypothesis Hpop : args !! "pop" = None.

Lemma pop_after_token token : <["token" := token]> args !! "pop" = None.
Proof. by rewrite lookup_insert_ne. Qed.

(** The lines, for a namespace, in terms of the environment alone. *)
Lemma resolve_token_namespace :
  resolve_token keystone args environ =
    let token := setting environ "OS_TOKEN" in
    let args' := <["token" := token]> args in
    let e1 := delete "OS_TOKEN" environ in
    match token with
    | VNone =>
        let username := setting e1 "OS_USERNAME" in
        let e2 := delete "OS_USERNAME" e1 in
        let password := setting e2 "OS_PASSWORD" in
        let e3 := delete "OS_PASSWORD" e2 in
        let project_name := setting e3 "OS_PROJECT_NAME" in
        let e4 := delete "OS_PROJECT_NAME" e3 in
        let project_name' :=
          if truthy project_name then project_name
          else setting e4 "OS_TENANT_NAME" in
        let e5 := if truthy project_name then e4 else delete "OS_TENANT_NAME" e4 in
        let auth_url := setting e5 "OS_AUTH_URL" in
        let e6 := delete "OS_AUTH_URL" e5 in
        if truthy username && truthy password && truthy project_name'
           && truthy auth_url
        then
          match keystone username password project_name' auth_url with
          | None =>
              (AuthenticationFailed, e6,
               [(username, password, project_name', auth_url)])
          | Some t =>
              (Proceeds (<["token" := t]> args'), e6,
               [(username, password, project_name', auth_url)])
          end
        else (Proceeds args', e6, [])
    | _ => (Proceeds args', e1, [])
    end.
Proof.
  unfold resolve_token. rewrite with_setting_namespace by done.
  change (variable_name "token") with "OS_TOKEN". cbv zeta.
  destruct (setting environ "OS_TOKEN") as [|z|t] eqn:Htok; try done.
  rewrite !with_setting_namespace by apply pop_after_token.
  change (variable_name "username") with "OS_USERNAME".
  change (variable_name "password") with "OS_PASSWORD".
  change (variable_name "project_name") with "OS_PROJECT_NAME".
  destruct (truthy (setting _ "OS_PROJECT_NAME")) eqn:Hproj; simpl.
  - rewrite !with_setting_namespace by apply pop_after_token.
    by change (variable_name "auth_url") with "OS_AUTH_URL".
  - rewrite !with_setting_namespace by apply pop_after_token.
    change (variable_name "tenant_name") with "OS_TENANT_NAME".
    by change (variable_name "auth_url") with "OS_AUTH_URL".
Qed.
End resolve_token_facts.

Lemma setting_delete_ne environ k k' :
  k <> k' -> setting (delete k environ) k' = setting environ k'.
Proof. intros Hne. unfold setting. by rewrite lookup_delete_ne. Qed.

(** A token in the environment is taken as it is, also when it is empty:
    the parsed command line gets it as its [token], the variable [OS_TOKEN]
    is removed and no other, and keystone is not asked. *)
Theorem token_in_environment_skips_keystone
    (keystone : value -> value -> value -> value -> option value)
    (args : namespace) (environ : environment) (t : string) :
  args !! "pop" = None ->
  environ !! "OS_TOKEN" = Some t ->
  resolve_token keystone args environ =
    (Proceeds (<["token" := VStr t]> args), delete "OS_TOKEN" environ, []).
Proof.
  intros Hpop Htok. rewrite resolve_token_namespace by done.
  unfold setting. by rewrite Htok.
Qed.

Lemma token_in_environment_skips_keystone_witness :
  resolve_token (fun _ _ _ _ => Some (VStr "from-keystone"))
    {[ "endpoint" := VStr "http://reporting" ]}
    {[ "OS_TOKEN" := ""; "OS_USERNAME" := "admin" ]} =
    (Proceeds (<["token" := VStr ""]> {[ "endpoint" := VStr "http://reporting" ]}),
     delete "OS_TOKEN" {[ "OS_TOKEN" := ""; "OS_USERNAME" := "admin" ]}, []).
Proof.
  apply (token_in_environment_skips_keystone
           (fun _ _ _ _ => Some (VStr "from-keystone"))
           {[ "endpoint" := VStr "http://reporting" ]}
           {[ "OS_TOKEN" := ""; "OS_USERNAME" := "admin" ]} "");
    reflexivity.
Defined.

(** A token given on the command line has no effect: line 135 assigns to
    [args.token] what [get_arg_or_env_var] returns, which does not depend on
    the command line, so the lines end in the same way, with the same
    namespace, environment and requests to keystone, whether the namespace
    came with a [token] or without. *)
Theorem command_line_token_has_no_effect
    (keystone : value -> value -> value -> value -> option value)
    (args : namespace) (environ : environment) (given : value) :
  args !! "pop" = None ->
  resolve_token keystone (<["token" := given]> args) environ =
  resolve_token keystone args environ.
Proof.
  intros Hpop.
  rewrite !resolve_token_namespace by (by rewrite ?lookup_insert_ne).
  cbv zeta. by rewrite !insert_insert_eq.
Qed.

Lemma command_line_token_has_no_effect_witness :
  resolve_token (fun _ _ _ _ => None)
    (<["token" := VStr "from-command-line"]> {[ "endpoint" := VStr "http://reporting" ]})
    {[ "OS_USERNAME" := "admin" ]} =
  resolve_token (fun _ _ _ _ => None)
    {[ "endpoint" := VStr "http://reporting" ]} {[ "OS_USERNAME" := "admin" ]}.
Proof.
  apply (command_line_token_has_no_effect (fun _ _ _ _ => None)
           {[ "endpoint" := VStr "http://reporting" ]}
           {[ "OS_USERNAME" := "admin" ]} (VStr "from-command-line")).
  reflexivity.
Defined.

(** The environment that the lines leave when there is no token in it. *)
Lemma environment_after_credentials
    (keystone : value -> value -> value -> value -> option value)
    (args : namespace) (environ : environment) :
  args !! "pop" = None ->
  environ !! "OS_TOKEN" = None ->
  (resolve_token keystone args environ).1.2 =
    let e4 := delete "OS_PROJECT_NAME" (delete "OS_PASSWORD"
                (delete "OS_USERNAME" (delete "OS_TOKEN" environ))) in
    delete "OS_AUTH_URL"
      (if truthy (setting environ "OS_PROJECT_NAME") then e4
       else delete "OS_TENANT_NAME" e4).
Proof.
  intros Hpop Htok. rewrite resolve_token_namespace by done.
  unfold setting at 1. rewrite Htok. cbv zeta.
  rewrite !(setting_delete_ne _ _ "OS_PROJECT_NAME") by done.
  by repeat case_match.
Qed.

(** Without a token in the environment the credentials are taken out of
    it, whether they are complete or not and whatever keystone answers: the
    variables [OS_USERNAME], [OS_PASSWORD], [OS_PROJECT_NAME] and
    [OS_AUTH_URL] are gone afterwards; [OS_TENANT_NAME] is gone when the
    project name was absent or empty and stays otherwise; every other
    variable is as before. *)
Theorem credentials_leave_the_environment
    (keystone : value -> value -> value -> value -> option value)
    (args : namespace) (environ : environment) :
  args !! "pop" = None ->
  environ !! "OS_TOKEN" = None ->
  let environ' := (resolve_token keystone args environ).1.2 in
  Forall (fun k => environ' !! k = None)
    ["OS_USERNAME"; "OS_PASSWORD"; "OS_PROJECT_NAME"; "OS_AUTH_URL"] /\
  environ' !! "OS_TENANT_NAME" =
    (if truthy (setting environ "OS_PROJECT_NAME")
     then environ !! "OS_TENANT_NAME" else None) /\
  forall k,
    k ∉ ["OS_USERNAME"; "OS_PASSWORD"; "OS_PROJECT_NAME"; "OS_AUTH_URL";
         "OS_TENANT_NAME"] ->
    environ' !! k = environ !! k.
Proof.
  intros Hpop Htok. cbv zeta.
  rewrite (environment_after_credentials keystone args environ Hpop Htok).
  cbv zeta. destruct (truthy (setting environ "OS_PROJECT_NAME")).
  - split; [|split].
    + repeat constructor;
        by rewrite ?lookup_delete_eq, ?(lookup_delete_ne _ _ _) by done;
        rewrite ?lookup_delete_eq.
    + by rewrite !lookup_delete_ne.
    + intros k Hk. rewrite !not_elem_of_cons in Hk.
      destruct Hk as (? & ? & ? & ? & ? & _).
      rewrite !lookup_delete_ne by done.
      destruct (decide ("OS_TOKEN" = k)) as [<-|]; [by rewrite lookup_delete_eq|].
      by rewrite lookup_delete_ne.
  - split; [|split].
    + repeat constructor;
        by rewrite ?lookup_delete_eq, ?(lookup_delete_ne _ _ _) by done;
        rewrite ?lookup_delete_eq.
    + by rewrite lookup_delete_ne, lookup_delete_eq.
    + intros k Hk. rewrite !not_elem_of_cons in Hk.
      destruct Hk as (? & ? & ? & ? & ? & _).
      rewrite !lookup_delete_ne by done.
      destruct (decide ("OS_TOKEN" = k)) as [<-|]; [by rewrite lookup_delete_eq|].
      by rewrite lookup_delete_ne.
Qed.

Lemma credentials_leave_the_environment_witness :
  let environ' :=
    (resolve_token (fun _ _ _ _ => None) {[ "endpoint" := VStr "http://reporting" ]}
       {[ "OS_USERNAME" := "admin"; "OS_TENANT_NAME" := "ops"; "HOME" := "/root" ]}).1.2 in
  Forall (fun k => environ' !! k = None)
    ["OS_USERNAME"; "OS_PASSWORD"; "OS_PROJECT_NAME"; "OS_AUTH_URL"] /\
  environ' !! "OS_TENANT_NAME" =
    (if truthy (setting {[ "OS_USERNAME" := "admin"; "OS_TENANT_NAME" := "ops";
                            "HOME" := "/root" ]} "OS_PROJECT_NAME")
     then ({[ "OS_USERNAME" := "admin"; "OS_TENANT_NAME" := "ops";
              "HOME" := "/root" ]} : environment) !! "OS_TENANT_NAME"
     else None) /\
  forall k,
    k ∉ ["OS_USERNAME"; "OS_PASSWORD"; "OS_PROJECT_NAME"; "OS_AUTH_URL";
         "OS_TENANT_NAME"] ->
    environ' !! k =
    ({[ "OS_USERNAME" := "admin"; "OS_TENANT_NAME" := "ops"; "HOME" := "/root" ]}
       : environment) !! k.
Proof.
  apply (credentials_leave_the_environment (fun _ _ _ _ => None)
           {[ "endpoint" := VStr "http://reporting" ]}
           {[ "OS_USERNAME" := "admin"; "OS_TENANT_NAME" := "ops"; "HOME" := "/root" ]});
    reflexivity.
Defined.

Lemma truthy_setting environ k :
  truthy (setting environ k) = true ->
  exists s, environ !! k = Some s /\ s <> "" /\ setting environ k = VStr s.
Proof.
  unfold setting. destruct (environ !! k) as [s|]; [|done]. simpl.
  intros Hs. exists s. split; [done|]. split; [|done].
  intros ->. done.
Qed.

(** Keystone is asked at most once, and only when the environment has no
    token and has a user name, a password, an authentication URL and a project
    name (or, the project name being absent or empty, a tenant name), none of
    them empty; these are then the credentials of the request. With anything
    less the lines do not fail: they go on with the token that the
    environment gave, [None] when it gave none. *)
Theorem keystone_needs_complete_credentials
    (keystone : value -> value -> value -> value -> option value)
    (args : namespace) (environ : environment) :
  args !! "pop" = None ->
  let r := resolve_token keystone args environ in
  (r.2 = [] \/
   exists u p n a,
     r.2 = [(VStr u, VStr p, VStr n, VStr a)] /\
     u <> "" /\ p <> "" /\ n <> "" /\ a <> "" /\
     environ !! "OS_TOKEN" = None /\
     environ !! "OS_USERNAME" = Some u /\
     environ !! "OS_PASSWORD" = Some p /\
     environ !! "OS_AUTH_URL" = Some a /\
     (environ !! "OS_PROJECT_NAME" = Some n \/
      truthy (setting environ "OS_PROJECT_NAME") = false /\
      environ !! "OS_TENANT_NAME" = Some n)) /\
  (r.2 = [] ->
   r.1.1 = Proceeds (<["token" := setting environ "OS_TOKEN"]> args)).
Proof.
  intros Hpop. cbv zeta. rewrite resolve_token_namespace by done. cbv zeta.
  destruct (setting environ "OS_TOKEN") as [|z|t] eqn:Htok;
    [|split; [by left|done]..].
  assert (environ !! "OS_TOKEN" = None) as Hnotok
    by (unfold setting in Htok; by destruct (environ !! "OS_TOKEN")).
  rewrite !(setting_delete_ne _ _ "OS_USERNAME"),
          !(setting_delete_ne _ _ "OS_PASSWORD"),
          !(setting_delete_ne _ _ "OS_PROJECT_NAME") by done.
  set (username := setting environ "OS_USERNAME").
  set (password := setting environ "OS_PASSWORD").
  set (project := setting environ "OS_PROJECT_NAME").
  destruct (truthy project) eqn:Hproj.
  - rewrite !(setting_delete_ne _ _ "OS_AUTH_URL") by done.
    set (auth_url := setting environ "OS_AUTH_URL").
    destruct (truthy username && truthy password && truthy project
              && truthy auth_url) eqn:Hall; [|split; [by left|done]].
    apply andb_true_iff in Hall as [Hall Ha].
    apply andb_true_iff in Hall as [Hall Hn].
    apply andb_true_iff in Hall as [Hu Hp].
    apply truthy_setting in Hu as (u & Eu & Hu & Su).
    apply truthy_setting in Hp as (p & Ep & Hp & Sp).
    apply truthy_setting in Hn as (n & En & Hn & Sn).
    apply truthy_setting in Ha as (a & Ea & Ha & Sa).
    unfold username, password, project, auth_url. rewrite Su, Sp, Sn, Sa.
    split.
    + right. exists u, p, n, a.
      destruct (keystone (VStr u) (VStr p) (VStr n) (VStr a));
        simpl; repeat (split; [done|]); by left.
    + by destruct (keystone (VStr u) (VStr p) (VStr n) (VStr a)).
  - rewrite !(setting_delete_ne _ _ "OS_TENANT_NAME"),
            !(setting_delete_ne _ _ "OS_AUTH_URL") by done.
    set (tenant := setting environ "OS_TENANT_NAME").
    set (auth_url := setting environ "OS_AUTH_URL").
    destruct (truthy username && truthy password && truthy tenant
              && truthy auth_url) eqn:Hall; [|split; [by left|done]].
    apply andb_true_iff in Hall as [Hall Ha].
    apply andb_true_iff in Hall as [Hall Hn].
    apply andb_true_iff in Hall as [Hu Hp].
    apply truthy_setting in Hu as (u & Eu & Hu & Su).
    apply truthy_setting in Hp as (p & Ep & Hp & Sp).
    apply truthy_setting in Hn as (n & En & Hn & Sn).
    apply truthy_setting in Ha as (a & Ea & Ha & Sa).
    unfold username, password, tenant, auth_url. rewrite Su, Sp, Sn, Sa.
    split.
    + right. exists u, p, n, a.
      destruct (keystone (VStr u) (VStr p) (VStr n) (VStr a));
        simpl; repeat (split; [done|]); right; by split.
    + by destruct (keystone (VStr u) (VStr p) (VStr n) (VStr a)).
Qed.

Lemma keystone_needs_complete_credentials_witness :
  let r := resolve_token keystone_grants parsed_command_line
             environ_with_credentials in
  (r.2 = [] \/
   exists u p n a,
     r.2 = [(VStr u, VStr p, VStr n, VStr a)] /\
     u <> "" /\ p <> "" /\ n <> "" /\ a <> "" /\
     environ_with_credentials !! "OS_TOKEN" = None /\
     environ_with_credentials !! "OS_USERNAME" = Some u /\
     environ_with_credentials !! "OS_PASSWORD" = Some p /\
     environ_with_credentials !! "OS_AUTH_URL" = Some a /\
     (environ_with_credentials !! "OS_PROJECT_NAME" = Some n \/
      truthy (setting environ_with_credentials "OS_PROJECT_NAME") = false /\
      environ_with_credentials !! "OS_TENANT_NAME" = Some n)) /\
  (r.2 = [] ->
   r.1.1 = Proceeds (<["token" := setting environ_with_credentials "OS_TOKEN"]>
                       parsed_command_line)).
Proof.
  apply (keystone_needs_complete_credentials keystone_grants
           parsed_command_line environ_with_credentials).
  reflexivity.
Defined.

(** The credentials of a tenant, with a keystone that grants a token. *)
Example login_with_tenant_credentials :
  resolve_token keystone_grants parsed_command_line environ_with_credentials =
    (Proceeds (<["token" := VStr "from-keystone"]> parsed_command_line), ∅,
     [(VStr "admin", VStr "secret", VStr "ops", VStr "http://keystone")]).
Proof. vm_compute. reflexivity. Qed.
